(** * TradeBricks: the backtest evaluation engine (backend/src/services/backtestService.ts)

    A shallow embedding of [runBacktest], [evaluateBlock], the indicator
    helpers [calculateMA], [calculateStdDev] and [calculateRSI], and
    [extractStrategyParameters]; of the data provider
    (backend/src/services/marketDataService.ts), the order in which
    [fetchHistoricalData] asks its sources, and [aggregateHourlyToDaily].

    Conventions of the embedding.
    - The engine is given twice.  First a JavaScript [number] is a rational
      [Q]: arithmetic is exact, and the values [NaN] and [Infinity] are outside
      the model; every statement that crosses a division names the divisor's
      sign, and comparisons of numbers are stated with [==] ([Qeq]).  Then, in
      the module [Binary64], a [number] is the double it is in the engine,
      with the rounding, the underflow and the special values of IEEE-754.
      Where the rounding decides a statement, its counterexample is a run of
      [Binary64], and what the ledger keeps in spite of it is proved there.
    - A property that may be absent from a block ([purpose], [priceType], ...)
      is a [string] whose empty value stands for [undefined]: every use in the
      source ([||], [===], [!]) treats the two alike.
    - A numeric block parameter is given by what [parseInt]/[parseFloat] makes
      of it ([param]).
    - [Map]s that are only read by key are [gmap]s; the [graph] map is iterated
      in insertion order and is an association list.
    - The call stack is finite: [evaluateBlock] carries the number of frames
      left, and a call with none left raises, as the engine's [RangeError]
      does; the [try]/[catch] of the caller sees it. *)

From Stdlib Require Import QArith Qabs Lqa Lia List String ZArith Bool Sorted.
From Stdlib Require Floats.
From stdpp Require Import base option gmap strings list.
Import ListNotations.

Local Open Scope string_scope.
Local Open Scope Q_scope.

(** ** Array helpers *)

Module Js.

(** [values.reduce((a, b) => a + b, 0)] *)
Definition sum (values : list Q) : Q := fold_left Qplus values 0.

(** [values.slice(start)] for an integral [start]: a negative [start] counts
    from the end, and both ends are clamped. *)
Definition slice (values : list Q) (start : Z) : list Q :=
  let len := Z.of_nat (length values) in
  let k := if (start <? 0)%Z then Z.max (len + start) 0 else Z.min start len in
  drop (Z.to_nat k) values.

(** [Math.min(a, b)] on an integer and a length *)
Definition min (period : Z) (len : nat) : Z := Z.min period (Z.of_nat len).

End Js.

(** ** Market data *)

Record MarketData := mkMarketData {
  date : string;
  open : Q;
  high : Q;
  low : Q;
  close : Q;
  volume : Q
}.

(** ** The indicator library *)

(** [calculateMA(values, period)].  [period] is an integer (the caller passes
    the result of [parseInt]); at [period = 0] the source divides by zero. *)
Definition calculateMA (values : list Q) (period : Z) : Q :=
  match values with
  | [] => 0
  | _ => Js.sum (Js.slice values (- period)) / inject_Z (Js.min period (length values))
  end.

(** [calculateStdDev(values)]; [Math.sqrt] has no rational counterpart and is
    a parameter of the function. *)
Definition calculateStdDev (Math_sqrt : Q -> Q) (values : list Q) : Q :=
  match values with
  | [] => 0
  | _ =>
    let mean := Js.sum values / inject_Z (Z.of_nat (length values)) in
    let squareDiffs := map (fun value => let diff := value - mean in diff * diff) values in
    let avgSquareDiff := Js.sum squareDiffs / inject_Z (Z.of_nat (length squareDiffs)) in
    Math_sqrt avgSquareDiff
  end.

(** The loop of [calculateRSI]: [i] runs over [from, from + count).  A read
    of [marketData[i]] past the end is [undefined], whose [.close] raises a
    [TypeError]: the loop then has no result. *)
Fixpoint rsiLoop (marketData : list MarketData) (i count : nat) (gains losses : Q)
  : option (Q * Q) :=
  match count with
  | O => Some (gains, losses)
  | S count' =>
    match nth_error marketData (i + 1), nth_error marketData i with
    | Some next, Some cur =>
      let change := close next - close cur in
      if Qlt_le_dec 0 change
      then rsiLoop marketData (S i) count' (gains + change) losses
      else rsiLoop marketData (S i) count' gains (losses + Qabs change)
    | _, _ => None
    end
  end.

(** [x || 0.0001] on a number *)
Definition orFloor (x : Q) : Q := if Qeq_bool x 0 then 1 # 10000 else x.

(** [calculateRSI(marketData, currentIndex, period)]; [None] is the
    [TypeError] of a read past the end of [marketData]. *)
Definition calculateRSI (marketData : list MarketData) (currentIndex : nat) (period : Z)
  : option Q :=
  if (Z.of_nat currentIndex <? period)%Z then Some 50
  else
    match rsiLoop marketData (Z.to_nat (Z.of_nat currentIndex - period))
                  (currentIndex - Z.to_nat (Z.of_nat currentIndex - period)) 0 0 with
    | None => None
    | Some (gains, losses) =>
      let avgGain := gains / inject_Z period in
      let avgLoss := orFloor (losses / inject_Z period) in
      let rs := avgGain / avgLoss in
      Some (100 - 100 / (1 + rs))
    end.

(** ** The block graph *)

(** What [parseInt(x || dflt, 10)] or [parseFloat(x || dflt)] sees in a block
    parameter [x]. *)
Inductive param (A : Type) :=
| Falsy                  (* undefined, null, 0, NaN or the empty string: the default is parsed *)
| NotANumber             (* a truthy value that parses to NaN *)
| Parsed (a : A).        (* a truthy value that parses to [a] *)
Arguments Falsy {A}.
Arguments NotANumber {A}.
Arguments Parsed {A} a.

(** [parse(x || dflt)]: [None] is NaN. *)
Definition parseOr {A} (x : param A) (dflt : A) : option A :=
  match x with
  | Falsy => Some dflt
  | NotANumber => None
  | Parsed a => Some a
  end.

(** A block of [strategy.blocks], with the properties of [block.data] the
    engine reads.  [value1] and [value2] hold [parseFloat] of the literal, and
    [None] when the literal is undefined, null or parses to NaN. *)
Record block := mkBlock {
  id : string;
  blockType : string;          (* block.data?.blockType?.id *)
  purpose : string;            (* block.data?.purpose *)
  comparisonType : string;
  value1 : option Q;
  value2 : option Q;
  period : param Z;
  stdDev : param Q;
  outputType : string;
  priceType : string
}.

(** A connection of [strategy.connections]. *)
Record connection := mkConnection {
  source : string;
  target : string;
  sourceHandle : string;
  targetHandle : string
}.

(** An entry of an adjacency array of [graph]. *)
Record edge := mkEdge {
  edge_target : string;
  edge_sourceHandle : string;
  edge_targetHandle : string
}.

Record strategy := mkStrategy {
  blocks : list block;
  connections : list connection
}.

(** [blocksById]: a later block with the same id replaces an earlier one. *)
Definition buildBlocksById (blocks : list block) : gmap string block :=
  fold_left (fun m b => <[id b := b]> m) blocks ∅.

(** [graph]: a [Map] from a source id to the array of its edges, in the
    insertion order of the keys. *)
Definition graph_t := list (string * list edge).

Fixpoint graph_get (graph : graph_t) (key : string) : option (list edge) :=
  match graph with
  | [] => None
  | (k, es) :: rest => if String.eqb k key then Some es else graph_get rest key
  end.

(** [if (!graph.has(k)) graph.set(k, []); graph.get(k).push(e)] *)
Fixpoint graph_push (graph : graph_t) (key : string) (e : edge) : graph_t :=
  match graph with
  | [] => [(key, [e])]
  | (k, es) :: rest =>
    if String.eqb k key then (k, (es ++ [e])%list) :: rest
    else (k, es) :: graph_push rest key e
  end.

Definition buildGraph (connections : list connection) : graph_t :=
  fold_left
    (fun g c => graph_push g (source c) (mkEdge (target c) (sourceHandle c) (targetHandle c)))
    connections [].

(** The edges of [graph.entries()], in iteration order, each with its key. *)
Definition graph_entries (graph : graph_t) : list (string * edge) :=
  flat_map (fun '(sourceId, es) => map (pair sourceId) es) graph.

(** ** Evaluation state *)

(** [boolean | number] *)
Inductive value :=
| VBool (b : bool)
| VNum (q : Q).

(** [if (v)] on a result of [evaluateBlock] *)
Definition truthy (v : value) : bool :=
  match v with
  | VBool b => b
  | VNum q => negb (Qeq_bool q 0)
  end.

Inductive indicator := FnMA | FnRSI | FnStdDev.

(** What one run leaves behind besides its result: the console lines of the
    resolver, of the trades and of [evaluateBlock], and two marks that the
    source does not print: a block's [switch] being entered and an indicator
    function being called, each with the cache key of the block. *)
Inductive event :=
| LogNoExplicitEntry                       (* 'No explicit entry blocks found, ...' *)
| LogUsingAsEntry (blockType : string)     (* 'Using ... block as entry condition' *)
| LogNoSuitableEntry                       (* 'No suitable entry blocks found, will use default entry strategy' *)
| LogStrategyHas (nEntry nExit : nat)
| LogBuy (date : string) (price : Q)
| LogSell (date : string) (price : Q)
| LogDefaultSell (date : string) (price : Q)
| LogFinalSell (date : string) (price : Q)
| WarnInvalidBlock
| WarnNoBlockType (blockId : string)
| WarnMissingValues (blockId : string) (value1 value2 : option Q)
| WarnInvalidMAPeriod (blockId : string)
| WarnInvalidRSIPeriod (blockId : string)
| WarnInvalidBB (blockId : string)
| WarnUnsupported (blockType : string)
| ErrorEvaluating (blockId blockType : string)
| Dispatch (key : string * nat)
| Call (fn : indicator) (key : string * nat).

(** The indicator cache and the trace, newest event first. *)
Record evalState := mkEvalState {
  cache : gmap (string * nat) value;
  trace : list event
}.

Inductive outcome (A : Type) :=
| Returned (a : A)
| Thrown.
Arguments Returned {A} a.
Arguments Thrown {A}.

(** A computation that reads and writes the state and may throw. *)
Definition Eval (A : Type) : Type := evalState -> outcome A * evalState.

Definition ret {A} (a : A) : Eval A := fun st => (Returned a, st).
Definition throw {A} : Eval A := fun st => (Thrown, st).
Definition bind {A B} (m : Eval A) (f : A -> Eval B) : Eval B :=
  fun st =>
    match m st with
    | (Returned a, st') => f a st'
    | (Thrown, st') => (Thrown, st')
    end.
Definition emit (e : event) : Eval unit :=
  fun st => (Returned tt, mkEvalState (cache st) (e :: trace st)).
Definition cacheGet (key : string * nat) : Eval (option value) :=
  fun st => (Returned (cache st !! key), st).
Definition cacheSet (key : string * nat) (v : value) : Eval unit :=
  fun st => (Returned tt, mkEvalState (<[key := v]> (cache st)) (trace st)).
(** [try { m } catch (error) { handler }] *)
Definition tryCatch {A} (m : Eval A) (handler : Eval A) : Eval A :=
  fun st =>
    match m st with
    | (Returned a, st') => (Returned a, st')
    | (Thrown, st') => handler st'
    end.

#[global] Instance eval_ret : MRet Eval := @ret.
#[global] Instance eval_bind : MBind Eval := fun A B f m => bind m f.

(** The per-bar [context] of [runBacktest]. *)
Record context := mkContext {
  dataWindow : list MarketData;
  currentData : MarketData;
  currentIndex : nat;
  ctx_position : Q;
  ctx_capital : Q;
  marketData : list MarketData
}.

(** ** The evaluation engine *)

(** [x || dflt] on a string property *)
Definition orDefault (x dflt : string) : string :=
  if String.eqb x "" then dflt else x.

Definition Qlt_bool (x y : Q) : bool := negb (Qle_bool y x).

(** The inner [switch (comparisonType)] of a comparison block. *)
Definition compareValues (comparisonType : string) (value1 value2 : Q) : bool :=
  if String.eqb comparisonType "greater_than" then Qlt_bool value2 value1
  else if String.eqb comparisonType "less_than" then Qlt_bool value1 value2
  else if String.eqb comparisonType "equal_to" then Qlt_bool (Qabs (value1 - value2)) (1 # 100000)
  else if String.eqb comparisonType "greater_than_or_equal" then Qle_bool value2 value1
  else if String.eqb comparisonType "less_than_or_equal" then Qle_bool value1 value2
  else false.

(** [typeof sourceResult === 'number' ? sourceResult : undefined] *)
Definition asNumber (v : value) : option Q :=
  match v with
  | VNum q => Some q
  | VBool _ => None
  end.

(** The value the [catch] of [evaluateBlock] substitutes. *)
Definition fallback (blockType : string) (ctx : context) : value :=
  if String.eqb blockType "moving_average" || String.eqb blockType "bollinger_bands"
     || String.eqb blockType "price"
  then VNum (close (currentData ctx))
  else if String.eqb blockType "rsi" then VNum 50
  else VBool false.

Section Engine.

Variable Math_sqrt : Q -> Q.

Section Evaluate.

Variable ctx : context.
Variable blocksById : gmap string block.
Variable graph : graph_t.

Definition cacheKey (b : block) : string * nat := (id b, currentIndex ctx).

(** The loop of an entry or exit condition over its outgoing connections:
    [true] at the first connected block whose result is the boolean [true]. *)
Fixpoint anyTargetTrue (ev : block -> Eval value) (conns : list edge) : Eval bool :=
  match conns with
  | [] => mret false
  | conn :: rest =>
    match blocksById !! edge_target conn with
    | None => anyTargetTrue ev rest
    | Some targetBlock =>
      targetResult ← ev targetBlock;
      match targetResult with
      | VBool true => mret true
      | _ => anyTargetTrue ev rest
      end
    end
  end.

(** The two nested loops of a comparison over [graph.entries()]: every
    connection into [blockId] has its source evaluated, and the result goes to
    the operand its [targetHandle] names. *)
Fixpoint scanInputs (ev : block -> Eval value) (blockId : string)
    (entries : list (string * edge)) (value1 value2 : option Q)
  : Eval (option Q * option Q) :=
  match entries with
  | [] => mret (value1, value2)
  | (sourceId, conn) :: rest =>
    if String.eqb (edge_target conn) blockId then
      match blocksById !! sourceId with
      | None => scanInputs ev blockId rest value1 value2
      | Some sourceBlock =>
        sourceResult ← ev sourceBlock;
        if String.eqb (edge_targetHandle conn) "input1"
        then scanInputs ev blockId rest (asNumber sourceResult) value2
        else if String.eqb (edge_targetHandle conn) "input2"
        then scanInputs ev blockId rest value1 (asNumber sourceResult)
        else scanInputs ev blockId rest value1 value2
      end
    else scanInputs ev blockId rest value1 value2
  end.

(** The body of the [try]: the [switch (blockType)], with [ev] for the
    recursive calls. *)
Definition evaluateKind (ev : block -> Eval value) (b : block) : Eval value :=
  let blockId := id b in
  let blockType := blockType b in
  if String.eqb blockType "entry_condition" || String.eqb blockType "exit_condition" then
    match graph_get graph blockId with
    | Some conns => r ← anyTargetTrue ev conns; mret (VBool r)
    | None => mret (VBool false)
    end
  else if String.eqb blockType "comparison" then
    let comparisonType := orDefault (comparisonType b) "greater_than" in
    operands ←
      match value1 b, value2 b with
      | Some v1, Some v2 => mret (Some v1, Some v2)
      | v1, v2 => scanInputs ev blockId (graph_entries graph) v1 v2
      end;
    match operands with
    | (Some v1, Some v2) => mret (VBool (compareValues comparisonType v1 v2))
    | (v1, v2) => emit (WarnMissingValues blockId v1 v2);; mret (VBool false)
    end
  else if String.eqb blockType "moving_average" then
    match parseOr (period b) 20%Z with
    | Some maPeriod =>
      if (maPeriod <=? 0)%Z
      then emit (WarnInvalidMAPeriod blockId);; mret (VNum (close (currentData ctx)))
      else emit (Call FnMA (cacheKey b));;
           mret (VNum (calculateMA (map close (dataWindow ctx)) maPeriod))
    | None => emit (WarnInvalidMAPeriod blockId);; mret (VNum (close (currentData ctx)))
    end
  else if String.eqb blockType "rsi" then
    match parseOr (period b) 14%Z with
    | Some rsiPeriod =>
      if (rsiPeriod <=? 0)%Z
      then emit (WarnInvalidRSIPeriod blockId);; mret (VNum 50)
      else emit (Call FnRSI (cacheKey b));;
           match calculateRSI (marketData ctx) (currentIndex ctx) rsiPeriod with
           | Some r => mret (VNum r)
           | None => throw
           end
    | None => emit (WarnInvalidRSIPeriod blockId);; mret (VNum 50)
    end
  else if String.eqb blockType "bollinger_bands" then
    match parseOr (period b) 20%Z, parseOr (stdDev b) 2 with
    | Some bbPeriod, Some stdDevMultiplier =>
      if (bbPeriod <=? 0)%Z
      then emit (WarnInvalidBB blockId);; mret (VNum (close (currentData ctx)))
      else
        let prices := map close (dataWindow ctx) in
        emit (Call FnMA (cacheKey b));;
        let ma := calculateMA prices bbPeriod in
        if (bbPeriod <=? Z.of_nat (length prices))%Z then
          let recentPrices := Js.slice prices (- bbPeriod) in
          emit (Call FnStdDev (cacheKey b));;
          let stdDev := calculateStdDev Math_sqrt recentPrices in
          let bandType := orDefault (outputType b) "middle" in
          if String.eqb bandType "upper" then mret (VNum (ma + stdDevMultiplier * stdDev))
          else if String.eqb bandType "lower" then mret (VNum (ma - stdDevMultiplier * stdDev))
          else mret (VNum ma)
        else mret (VNum (close (currentData ctx)))
    | _, _ => emit (WarnInvalidBB blockId);; mret (VNum (close (currentData ctx)))
    end
  else if String.eqb blockType "price" then
    let priceType := orDefault (priceType b) "close" in
    if String.eqb priceType "open" then mret (VNum (open (currentData ctx)))
    else if String.eqb priceType "high" then mret (VNum (high (currentData ctx)))
    else if String.eqb priceType "low" then mret (VNum (low (currentData ctx)))
    else mret (VNum (close (currentData ctx)))
  else emit (WarnUnsupported blockType);; mret (VBool false).

(** [evaluateBlock(block, context, blocksById, graph, cache)], with [frames]
    call-stack frames left. *)
Fixpoint evaluateBlock (frames : nat) (b : block) {struct frames} : Eval value :=
  match frames with
  | O => throw
  | S frames' =>
    if String.eqb (id b) "" then emit WarnInvalidBlock;; mret (VBool false)
    else if String.eqb (blockType b) "" then emit (WarnNoBlockType (id b));; mret (VBool false)
    else
      cached ← cacheGet (cacheKey b);
      match cached with
      | Some v => mret v
      | None =>
        result ← tryCatch
                   (emit (Dispatch (cacheKey b));; evaluateKind (evaluateBlock frames') b)
                   (emit (ErrorEvaluating (id b) (blockType b));; mret (fallback (blockType b) ctx));
        cacheSet (cacheKey b) result;;
        mret result
      end
  end.

(** The loops of [runBacktest] over the entry and the exit blocks: [true] at
    the first block whose result is truthy. *)
Fixpoint anyTruthy (frames : nat) (candidates : list block) : Eval bool :=
  match candidates with
  | [] => mret false
  | candidate :: rest =>
    should ← evaluateBlock frames candidate;
    if truthy should then mret true else anyTruthy frames rest
  end.

End Evaluate.
End Engine.

(** ** The graph resolver *)

Definition isTerminal (graph : graph_t) (b : block) : bool :=
  match graph_get graph (id b) with
  | None => true
  | Some es => (length es =? 0)%nat
  end.

(** The predicate of [blocks.filter] that gives [entryBlocks]. *)
Definition isEntryBlock (graph : graph_t) (b : block) : bool :=
  if String.eqb (blockType b) "entry_condition" then true
  else if String.eqb (blockType b) "comparison" then
    let notExplicitExit := negb (String.eqb (purpose b) "exit") in
    isTerminal graph b && notExplicitExit
  else false.

(** The predicate of [blocks.filter] that gives [exitBlocks]. *)
Definition isExitBlock (graph : graph_t) (entryBlocks : list block) (b : block) : bool :=
  if String.eqb (blockType b) "exit_condition" then true
  else if String.eqb (blockType b) "comparison" then
    let notExplicitEntry := negb (String.eqb (purpose b) "entry") in
    let isAlsoEntryPoint := existsb (fun eb => String.eqb (id eb) (id b)) entryBlocks in
    isTerminal graph b && notExplicitEntry && negb isAlsoEntryPoint
  else false.

(** [['moving_average', 'price', 'rsi', 'bollinger_bands'].includes(blockType)] *)
Definition isIndicatorOrPrice (b : block) : bool :=
  String.eqb (blockType b) "moving_average" || String.eqb (blockType b) "price"
  || String.eqb (blockType b) "rsi" || String.eqb (blockType b) "bollinger_bands".

Definition dummyEntryBlock : block :=
  mkBlock "default-entry" "price" "" "" None None Falsy Falsy "" "".

(** The two candidate lists of [runBacktest] and the console lines of their
    making (newest first).  The exit list is filtered against the entry list
    as it stands before the two fallbacks. *)
Definition resolve (blocks : list block) (graph : graph_t)
  : list block * list block * list event :=
  let entryBlocks := List.filter (isEntryBlock graph) blocks in
  let exitBlocks := List.filter (isExitBlock graph entryBlocks) blocks in
  let '(entryBlocks1, log1) :=
    match entryBlocks with
    | [] =>
      match find isIndicatorOrPrice blocks with
      | Some b => ([b], [LogUsingAsEntry (blockType b); LogNoExplicitEntry])
      | None => ([], [LogNoExplicitEntry])
      end
    | _ => (entryBlocks, [])
    end in
  let '(entryBlocks2, log2) :=
    match entryBlocks1 with
    | [] => ([dummyEntryBlock], LogNoSuitableEntry :: log1)
    | _ => (entryBlocks1, log1)
    end in
  (entryBlocks2, exitBlocks,
   LogStrategyHas (length entryBlocks2) (length exitBlocks) :: log2).

(** ** The simulator *)

Inductive PriceType := PriceOpen | PriceHigh | PriceLow | PriceClose.

(** [currentData[usePriceType]] *)
Definition priceOf (usePriceType : PriceType) (d : MarketData) : Q :=
  match usePriceType with
  | PriceOpen => open d
  | PriceHigh => high d
  | PriceLow => low d
  | PriceClose => close d
  end.

(** The options the simulation reads; the dates and the token address only
    reach the data provider. *)
Record BacktestOptions := mkOptions {
  initialCapital : Q;
  usePriceType : PriceType
}.

Inductive Action := BUY | SELL.

Record Trade := mkTrade {
  trade_date : string;
  action : Action;
  price : Q
}.

Record BacktestResult := mkResult {
  trades : list Trade;
  finalCapital : Q;
  totalReturn : Q;
  usingSimulatedData : bool
}.

(** The variables of [runBacktest] that the loop over the bars updates, and
    the console. *)
Record runState := mkRunState {
  capital : Q;
  position : Q;
  buyPrice : Q;
  ledger : list Trade;
  console : list event
}.

Inductive runError :=
| FetchFailed        (* 'Could not fetch real market data for ...' *)
| NoMarketData       (* 'No real market data available for the specified period' *)
| Uncaught.          (* an exception that left [evaluateBlock] *)

Section Simulator.

Variable Math_sqrt : Q -> Q.
(** The frames left to the calls of [evaluateBlock] made by [runBacktest]. *)
Variable frames : nat.
Variable usePrice : PriceType.
Variable blocksById : gmap string block.
Variable graph : graph_t.
Variable entryBlocks exitBlocks : list block.
Variable allData : list MarketData.

Definition buy (currentData : MarketData) (st : runState) (log : list event) : runState :=
  let tradePrice := priceOf usePrice currentData in
  mkRunState 0 (capital st / tradePrice) tradePrice
    (ledger st ++ [mkTrade (date currentData) BUY tradePrice])
    (LogBuy (date currentData) tradePrice :: log).

Definition sell (mark : string -> Q -> event) (d : MarketData) (st : runState)
    (log : list event) : runState :=
  let tradePrice := priceOf usePrice d in
  mkRunState (position st * tradePrice) 0 (buyPrice st)
    (ledger st ++ [mkTrade (date d) SELL tradePrice])
    (mark (date d) tradePrice :: log).

Definition keep (st : runState) (log : list event) : runState :=
  mkRunState (capital st) (position st) (buyPrice st) (ledger st) log.

(** One iteration of [for (let i = 0; i < marketData.length; i++)]. *)
Definition processBar (i : nat) (currentData : MarketData) (st : runState)
  : outcome runState :=
  let dataWindow := take (i + 1) allData in
  let ctx := mkContext dataWindow currentData i (position st) (capital st) allData in
  let cleared := mkEvalState ∅ (console st) in
  if Qeq_bool (position st) 0 then
    match anyTruthy Math_sqrt ctx blocksById graph frames entryBlocks cleared with
    | (Returned true, es) => Returned (buy currentData st (trace es))
    | (Returned false, es) => Returned (keep st (trace es))
    | (Thrown, _) => Thrown
    end
  else if Qlt_bool 0 (position st) then
    match exitBlocks with
    | _ :: _ =>
      match anyTruthy Math_sqrt ctx blocksById graph frames exitBlocks cleared with
      | (Returned true, es) => Returned (sell LogSell currentData st (trace es))
      | (Returned false, es) => Returned (keep st (trace es))
      | (Thrown, _) => Thrown
      end
    | [] =>
      if Qlt_bool (priceOf usePrice currentData) (buyPrice st * (95 # 100))
         || Qlt_bool (buyPrice st * (12 # 10)) (priceOf usePrice currentData)
      then Returned (sell LogDefaultSell currentData st (console st))
      else Returned st
    end
  else Returned st.

Fixpoint processBars (i : nat) (bars : list MarketData) (st : runState)
  : outcome runState :=
  match bars with
  | [] => Returned st
  | currentData :: rest =>
    match processBar i currentData st with
    | Returned st' => processBars (S i) rest st'
    | Thrown => Thrown
    end
  end.

(** [if (position > 0)] after the loop: the final exit. *)
Definition finalExit (st : runState) : runState :=
  if Qlt_bool 0 (position st) then
    match last allData with
    | Some lastDay => sell LogFinalSell lastDay st (console st)
    | None => st
    end
  else st.

End Simulator.

(** The resolver and the loop of [runBacktest] over the bars, stopped after
    the bars [bars] (an initial part of [marketData]). *)
Definition simulateBars (Math_sqrt : Q -> Q) (frames : nat) (s : strategy)
    (options : BacktestOptions) (marketData bars : list MarketData) : outcome runState :=
  let blocksById := buildBlocksById (blocks s) in
  let graph := buildGraph (connections s) in
  let '(entryBlocks, exitBlocks, log) := resolve (blocks s) graph in
  let st0 := mkRunState (initialCapital options) 0 0 [] log in
  processBars Math_sqrt frames (usePriceType options) blocksById graph
    entryBlocks exitBlocks marketData 0 bars st0.

(** The part of [runBacktest] that follows the checks of the fetched data:
    the resolver, the loop over all the bars and the final exit. *)
Definition simulate (Math_sqrt : Q -> Q) (frames : nat) (s : strategy)
    (options : BacktestOptions) (marketData : list MarketData) : outcome runState :=
  match simulateBars Math_sqrt frames s options marketData marketData with
  | Thrown => Thrown
  | Returned st => Returned (finalExit (usePriceType options) marketData st)
  end.

(** [runBacktest(strategy, options)].  [fetched] is what
    [fetchHistoricalData] gave, [None] when it threw; [frames] is the call
    stack left to each call of [evaluateBlock].  The result comes with the
    console of the run. *)
Definition runBacktest (Math_sqrt : Q -> Q) (frames : nat) (s : strategy)
    (options : BacktestOptions) (fetched : option (list MarketData))
  : runError + BacktestResult * list event :=
  match fetched with
  | None => inl FetchFailed
  | Some [] => inl NoMarketData
  | Some marketData =>
    match simulate Math_sqrt frames s options marketData with
    | Thrown => inl Uncaught
    | Returned st =>
      let totalReturn :=
        ((capital st - initialCapital options) / initialCapital options) * 100 in
      inr (mkResult (ledger st) (capital st) totalReturn false, console st)
    end
  end.

(** ** Strategy parameters *)

(** A block as [extractStrategyParameters] reads it: its kind, and the
    parameters nested under [block.data.data], each as [parseInt] or
    [parseFloat] makes it ([None] is NaN). *)
Record nestedBlock := mkNested {
  nested_blockType : string;
  nested_period : option Z;
  nested_value2 : option Q;
  nested_stdDev : option Q
}.

Record strategyParams := mkParams {
  maPeriods : list Z;
  rsiPeriod : Z;
  rsiOversold : Q;
  rsiOverbought : Q;
  bollingerBandWidth : Q
}.

(** [strategy.blocks] as [extractStrategyParameters] meets it. *)
Inductive blocksField :=
| BlocksAbsent                                   (* undefined or null *)
| BlocksOther                                    (* a value that has no [filter] method *)
| BlocksArray (elements : list (option nestedBlock)). (* [None]: a null or undefined element *)

(** [elements.filter(block => block.data?.blockType?.id === kind)]; [None]
    when the callback raises, which it does on a null or undefined element. *)
Fixpoint filterKind (kind : string) (elements : list (option nestedBlock))
  : option (list nestedBlock) :=
  match elements with
  | [] => Some []
  | None :: _ => None
  | Some b :: rest =>
    match filterKind kind rest with
    | Some found =>
      Some (if String.eqb (nested_blockType b) kind then b :: found else found)
    | None => None
    end
  end.

(** [strategy.blocks?.filter(...) || []]; [None] when it raises. *)
Definition blocksOfKind (kind : string) (field : blocksField) : option (list nestedBlock) :=
  match field with
  | BlocksAbsent => Some []
  | BlocksOther => None
  | BlocksArray elements => filterKind kind elements
  end.

(** One step of [maBlocks.forEach]: a valid period not yet listed is pushed. *)
Definition pushPeriod (periods : list Z) (b : nestedBlock) : list Z :=
  match nested_period b with
  | Some p => if (0 <? p)%Z && negb (existsb (Z.eqb p) periods)
              then (periods ++ [p])%list else periods
  | None => periods
  end.

(** One step of [comparisonBlocks.forEach] on the two RSI levels. *)
Definition adjustLevels (levels : Q * Q) (b : nestedBlock) : Q * Q :=
  match nested_value2 b with
  | Some v =>
    let oversold := if Qle_bool v 30 then v else levels.1 in
    let overbought := if Qle_bool 70 v then v else levels.2 in
    (oversold, overbought)
  | None => levels
  end.

Definition setPeriods (params : strategyParams) (periods : list Z) : strategyParams :=
  mkParams periods (rsiPeriod params) (rsiOversold params) (rsiOverbought params)
    (bollingerBandWidth params).
Definition setRsiPeriod (params : strategyParams) (p : Z) : strategyParams :=
  mkParams (maPeriods params) p (rsiOversold params) (rsiOverbought params)
    (bollingerBandWidth params).
Definition setLevels (params : strategyParams) (levels : Q * Q) : strategyParams :=
  mkParams (maPeriods params) (rsiPeriod params) levels.1 levels.2
    (bollingerBandWidth params).
Definition setWidth (params : strategyParams) (w : Q) : strategyParams :=
  mkParams (maPeriods params) (rsiPeriod params) (rsiOversold params) (rsiOverbought params) w.

(** The part of the [try] on the RSI blocks; [inl] when it raises, with
    [params] as they are then. *)
Definition extractRsi (field : blocksField) (params : strategyParams)
  : strategyParams + strategyParams :=
  match blocksOfKind "rsi" field with
  | None => inl params
  | Some [] => inr params
  | Some (rsiBlock :: _) =>
    let params :=
      match nested_period rsiBlock with
      | Some p => if (0 <? p)%Z then setRsiPeriod params p else params
      | None => params
      end in
    match blocksOfKind "comparison" field with
    | None => inl params
    | Some comparisonBlocks =>
      inr (setLevels params
             (fold_left adjustLevels comparisonBlocks (rsiOversold params, rsiOverbought params)))
    end
  end.

(** The part of the [try] on the Bollinger blocks. *)
Definition extractBollinger (field : blocksField) (params : strategyParams) : strategyParams :=
  match blocksOfKind "bollinger_bands" field with
  | None | Some [] => params
  | Some (bollingerBlock :: _) =>
    match nested_stdDev bollingerBlock with
    | Some w => if Qlt_bool 0 w then setWidth params w else params
    | None => params
    end
  end.

(** [extractStrategyParameters(strategy)]; [None] is a strategy that is null
    or undefined.  Whatever is raised in the [try] is caught, and [params] is
    returned as it is then. *)
Definition extractStrategyParameters (strategy : option blocksField) : strategyParams :=
  let params := mkParams [] 14 30 70 2 in
  match strategy with
  | None => params
  | Some field =>
    match blocksOfKind "moving_average" field with
    | None => params
    | Some maBlocks =>
      let params := setPeriods params (fold_left pushPeriod maBlocks (maPeriods params)) in
      let params :=
        match maPeriods params with
        | [] => setPeriods params [10; 20]%Z
        | _ => params
        end in
      match extractRsi field params with
      | inl params => params
      | inr params => extractBollinger field params
      end
    end
  end.

(** ** The data provider (marketDataService.ts) *)

(** What one source of data gave: it threw, or it returned a series. *)
Inductive sourceResult :=
| SourceFailed
| SourceData (data : list MarketData).

(** [data && data.length > 0] after a source that did not throw *)
Definition usable (r : sourceResult) : option (list MarketData) :=
  match r with
  | SourceData (d :: rest) => Some (d :: rest)
  | _ => None
  end.

(** [fetchHistoricalData]: the sources are asked in turn, each under its
    guard, and the first non-empty series is returned; [None] is the error
    thrown when all have failed.  [isCrypto] is [isCryptoSymbol(symbol)]. *)
Definition fetchHistoricalData (tokenAddress isCrypto apiKey : bool)
    (byAddress cryptoCompare alphaVantage yahoo : sourceResult)
  : option (list MarketData) :=
  match (if tokenAddress then usable byAddress else None) with
  | Some data => Some data
  | None =>
    match (if isCrypto then usable cryptoCompare else None) with
    | Some data => Some data
    | None =>
      match (if apiKey && negb isCrypto then usable alphaVantage else None) with
      | Some data => Some data
      | None => usable yahoo
      end
    end
  end.

(** One day of [dailyMap]. *)
Record dayAcc := mkDay {
  day_open : Q;
  day_high : Q;
  day_low : Q;
  day_close : Q;
  day_volume : Q;
  day_count : nat
}.

Definition Math_max (x y : Q) : Q := if Qlt_le_dec x y then y else x.
Definition Math_min (x y : Q) : Q := if Qlt_le_dec y x then y else x.

(** One iteration of the grouping loop on [dailyMap], a [Map] in insertion
    order. *)
Fixpoint dailyMap_add (dailyMap : list (string * dayAcc)) (dataPoint : MarketData)
  : list (string * dayAcc) :=
  match dailyMap with
  | [] => [(date dataPoint,
            mkDay (open dataPoint) (high dataPoint) (low dataPoint) (close dataPoint)
              (volume dataPoint) 1)]
  | (key, existing) :: rest =>
    if String.eqb key (date dataPoint)
    then (key, mkDay (day_open existing)
                 (Math_max (day_high existing) (high dataPoint))
                 (Math_min (day_low existing) (low dataPoint))
                 (close dataPoint)
                 (day_volume existing + volume dataPoint)
                 (S (day_count existing))) :: rest
    else (key, existing) :: dailyMap_add rest dataPoint
  end.

Definition dayOf (entry : string * dayAcc) : MarketData :=
  mkMarketData entry.1 (day_open entry.2) (day_high entry.2) (day_low entry.2)
    (day_close entry.2) (day_volume entry.2).

(** [result.sort((a, b) => time(a.date) - time(b.date))]: the sort is stable,
    and is modelled by insertion from the left; [timeOf] is
    [new Date(date).getTime()]. *)
Fixpoint insertByTime (timeOf : string -> Z) (x : MarketData) (sorted : list MarketData)
  : list MarketData :=
  match sorted with
  | [] => [x]
  | y :: rest =>
    if (timeOf (date x) <? timeOf (date y))%Z then x :: y :: rest
    else y :: insertByTime timeOf x rest
  end.

Definition sortByTime (timeOf : string -> Z) (l : list MarketData) : list MarketData :=
  fold_left (fun sorted x => insertByTime timeOf x sorted) l [].

(** [aggregateHourlyToDaily(hourlyData)] *)
Definition aggregateHourlyToDaily (timeOf : string -> Z) (hourlyData : list MarketData)
  : list MarketData :=
  sortByTime timeOf (map dayOf (fold_left dailyMap_add hourlyData [])).

(** * The same engine over binary64

    A JavaScript [number] is an IEEE-754 double, and the kernel's primitive
    floats are that type with the same correctly rounded operations.  The
    module repeats the indicator library, the evaluation engine and the
    simulator with [float] for [Q], statement by statement; what holds no
    number (connections, edges, the graph, the outcome of a computation) is
    shared with the definitions above.  Here [NaN] and the infinities are
    values like any other, and every test of the source on a number is the
    IEEE test. *)

Module Binary64.

Import Floats.
#[local] Set Warnings "-inexact-float".
Local Open Scope float_scope.

Module Js.

(** [values.reduce((a, b) => a + b, 0)] *)
Definition sum (values : list float) : float := fold_left PrimFloat.add values 0.

(** [values.slice(start)] for an integral [start] *)
Definition slice (values : list float) (start : Z) : list float :=
  let len := Z.of_nat (length values) in
  let k := if (start <? 0)%Z then Z.max (len + start) 0 else Z.min start len in
  drop (Z.to_nat k) values.

(** [Math.min(a, b)] on an integer and a length *)
Definition min (period : Z) (len : nat) : Z := Z.min period (Z.of_nat len).

(** The double of an integer: the nearest one. *)
Definition ofZ (z : Z) : float := SF2Prim (binary_normalize prec emax z 0 false).

(** [if (x)] on a number: [0], [-0] and [NaN] are falsy. *)
Definition falsy (x : float) : bool := (x =? 0) || is_nan x.

End Js.

Record MarketData := mkMarketData {
  date : string;
  open : float;
  high : float;
  low : float;
  close : float;
  volume : float
}.

(** [calculateMA(values, period)] *)
Definition calculateMA (values : list float) (period : Z) : float :=
  match values with
  | [] => 0
  | _ => Js.sum (Js.slice values (- period)) / Js.ofZ (Js.min period (length values))
  end.

(** [calculateStdDev(values)] *)
Definition calculateStdDev (values : list float) : float :=
  match values with
  | [] => 0
  | _ =>
    let mean := Js.sum values / Js.ofZ (Z.of_nat (length values)) in
    let squareDiffs := map (fun value => let diff := value - mean in diff * diff) values in
    let avgSquareDiff := Js.sum squareDiffs / Js.ofZ (Z.of_nat (length squareDiffs)) in
    sqrt avgSquareDiff
  end.

(** The loop of [calculateRSI]; [None] is the [TypeError] of a read past the
    end of [marketData]. *)
Fixpoint rsiLoop (marketData : list MarketData) (i count : nat) (gains losses : float)
  : option (float * float) :=
  match count with
  | O => Some (gains, losses)
  | S count' =>
    match nth_error marketData (i + 1), nth_error marketData i with
    | Some next, Some cur =>
      let change := close next - close cur in
      if 0 <? change
      then rsiLoop marketData (S i) count' (gains + change) losses
      else rsiLoop marketData (S i) count' gains (losses + abs change)
    | _, _ => None
    end
  end.

(** [x || 0.0001] on a number *)
Definition orFloor (x : float) : float := if Js.falsy x then 0.0001 else x.

(** [calculateRSI(marketData, currentIndex, period)] *)
Definition calculateRSI (marketData : list MarketData) (currentIndex : nat) (period : Z)
  : option float :=
  if (Z.of_nat currentIndex <? period)%Z then Some 50
  else
    match rsiLoop marketData (Z.to_nat (Z.of_nat currentIndex - period))
                  (currentIndex - Z.to_nat (Z.of_nat currentIndex - period)) 0 0 with
    | None => None
    | Some (gains, losses) =>
      let avgGain := gains / Js.ofZ period in
      let avgLoss := orFloor (losses / Js.ofZ period) in
      let rs := avgGain / avgLoss in
      Some (100 - 100 / (1 + rs))
    end.

(** A block of [strategy.blocks].  [value1] and [value2] hold [parseFloat] of
    the literal, and [None] when the literal is undefined or null. *)
Record block := mkBlock {
  id : string;
  blockType : string;
  purpose : string;
  comparisonType : string;
  value1 : option float;
  value2 : option float;
  period : param Z;
  stdDev : param float;
  outputType : string;
  priceType : string
}.

Record strategy := mkStrategy {
  blocks : list block;
  connections : list connection
}.

Definition buildBlocksById (blocks : list block) : gmap string block :=
  fold_left (fun m b => <[id b := b]> m) blocks ∅.

(** [boolean | number] *)
Inductive value :=
| VBool (b : bool)
| VNum (x : float).

(** [if (v)] on a result of [evaluateBlock] *)
Definition truthy (v : value) : bool :=
  match v with
  | VBool b => b
  | VNum x => negb (Js.falsy x)
  end.

Inductive event :=
| LogNoExplicitEntry
| LogUsingAsEntry (blockType : string)
| LogNoSuitableEntry
| LogStrategyHas (nEntry nExit : nat)
| LogBuy (date : string) (price : float)
| LogSell (date : string) (price : float)
| LogDefaultSell (date : string) (price : float)
| LogFinalSell (date : string) (price : float)
| WarnInvalidBlock
| WarnNoBlockType (blockId : string)
| WarnMissingValues (blockId : string) (value1 value2 : option float)
| WarnInvalidMAPeriod (blockId : string)
| WarnInvalidRSIPeriod (blockId : string)
| WarnInvalidBB (blockId : string)
| WarnUnsupported (blockType : string)
| ErrorEvaluating (blockId blockType : string)
| Dispatch (key : string * nat)
| Call (fn : indicator) (key : string * nat).

Record evalState := mkEvalState {
  cache : gmap (string * nat) value;
  trace : list event
}.

Definition Eval (A : Type) : Type := evalState -> outcome A * evalState.

Definition ret {A} (a : A) : Eval A := fun st => (Returned a, st).
Definition throw {A} : Eval A := fun st => (Thrown, st).
Definition bind {A B} (m : Eval A) (f : A -> Eval B) : Eval B :=
  fun st =>
    match m st with
    | (Returned a, st') => f a st'
    | (Thrown, st') => (Thrown, st')
    end.
Definition emit (e : event) : Eval unit :=
  fun st => (Returned tt, mkEvalState (cache st) (e :: trace st)).
Definition cacheGet (key : string * nat) : Eval (option value) :=
  fun st => (Returned (cache st !! key), st).
Definition cacheSet (key : string * nat) (v : value) : Eval unit :=
  fun st => (Returned tt, mkEvalState (<[key := v]> (cache st)) (trace st)).
Definition tryCatch {A} (m : Eval A) (handler : Eval A) : Eval A :=
  fun st =>
    match m st with
    | (Returned a, st') => (Returned a, st')
    | (Thrown, st') => handler st'
    end.

#[global] Instance eval_ret : MRet Eval := @ret.
#[global] Instance eval_bind : MBind Eval := fun A B f m => bind m f.

Record context := mkContext {
  dataWindow : list MarketData;
  currentData : MarketData;
  currentIndex : nat;
  ctx_position : float;
  ctx_capital : float;
  marketData : list MarketData
}.

(** The inner [switch (comparisonType)] of a comparison block. *)
Definition compareValues (comparisonType : string) (value1 value2 : float) : bool :=
  if String.eqb comparisonType "greater_than" then value2 <? value1
  else if String.eqb comparisonType "less_than" then value1 <? value2
  else if String.eqb comparisonType "equal_to" then abs (value1 - value2) <? 0.00001
  else if String.eqb comparisonType "greater_than_or_equal" then value2 <=? value1
  else if String.eqb comparisonType "less_than_or_equal" then value1 <=? value2
  else false.

(** [value = parseFloat(literal); if (isNaN(value)) value = undefined] *)
Definition literal (x : option float) : option float :=
  match x with
  | Some v => if is_nan v then None else Some v
  | None => None
  end.

(** [typeof sourceResult === 'number' ? sourceResult : undefined] *)
Definition asNumber (v : value) : option float :=
  match v with
  | VNum x => Some x
  | VBool _ => None
  end.

(** The value the [catch] of [evaluateBlock] substitutes. *)
Definition fallback (blockType : string) (ctx : context) : value :=
  if String.eqb blockType "moving_average" || String.eqb blockType "bollinger_bands"
     || String.eqb blockType "price"
  then VNum (close (currentData ctx))
  else if String.eqb blockType "rsi" then VNum 50
  else VBool false.

(** [parseFloat(x || dflt)], [None] when [isNaN] holds of it. *)
Definition parseFloatOr (x : param float) (dflt : float) : option float :=
  match parseOr x dflt with
  | Some v => if is_nan v then None else Some v
  | None => None
  end.

Section Evaluate.

Variable ctx : context.
Variable blocksById : gmap string block.
Variable graph : graph_t.

Definition cacheKey (b : block) : string * nat := (id b, currentIndex ctx).

Fixpoint anyTargetTrue (ev : block -> Eval value) (conns : list edge) : Eval bool :=
  match conns with
  | [] => mret false
  | conn :: rest =>
    match blocksById !! edge_target conn with
    | None => anyTargetTrue ev rest
    | Some targetBlock =>
      targetResult ← ev targetBlock;
      match targetResult with
      | VBool true => mret true
      | _ => anyTargetTrue ev rest
      end
    end
  end.

Fixpoint scanInputs (ev : block -> Eval value) (blockId : string)
    (entries : list (string * edge)) (value1 value2 : option float)
  : Eval (option float * option float) :=
  match entries with
  | [] => mret (value1, value2)
  | (sourceId, conn) :: rest =>
    if String.eqb (edge_target conn) blockId then
      match blocksById !! sourceId with
      | None => scanInputs ev blockId rest value1 value2
      | Some sourceBlock =>
        sourceResult ← ev sourceBlock;
        if String.eqb (edge_targetHandle conn) "input1"
        then scanInputs ev blockId rest (asNumber sourceResult) value2
        else if String.eqb (edge_targetHandle conn) "input2"
        then scanInputs ev blockId rest value1 (asNumber sourceResult)
        else scanInputs ev blockId rest value1 value2
      end
    else scanInputs ev blockId rest value1 value2
  end.

(** The body of the [try]: the [switch (blockType)]. *)
Definition evaluateKind (ev : block -> Eval value) (b : block) : Eval value :=
  let blockId := id b in
  let blockType := blockType b in
  if String.eqb blockType "entry_condition" || String.eqb blockType "exit_condition" then
    match graph_get graph blockId with
    | Some conns => r ← anyTargetTrue ev conns; mret (VBool r)
    | None => mret (VBool false)
    end
  else if String.eqb blockType "comparison" then
    let comparisonType := orDefault (comparisonType b) "greater_than" in
    operands ←
      match literal (value1 b), literal (value2 b) with
      | Some v1, Some v2 => mret (Some v1, Some v2)
      | v1, v2 => scanInputs ev blockId (graph_entries graph) v1 v2
      end;
    match operands with
    | (Some v1, Some v2) => mret (VBool (compareValues comparisonType v1 v2))
    | (v1, v2) => emit (WarnMissingValues blockId v1 v2);; mret (VBool false)
    end
  else if String.eqb blockType "moving_average" then
    match parseOr (period b) 20%Z with
    | Some maPeriod =>
      if (maPeriod <=? 0)%Z
      then emit (WarnInvalidMAPeriod blockId);; mret (VNum (close (currentData ctx)))
      else emit (Call FnMA (cacheKey b));;
           mret (VNum (calculateMA (map close (dataWindow ctx)) maPeriod))
    | None => emit (WarnInvalidMAPeriod blockId);; mret (VNum (close (currentData ctx)))
    end
  else if String.eqb blockType "rsi" then
    match parseOr (period b) 14%Z with
    | Some rsiPeriod =>
      if (rsiPeriod <=? 0)%Z
      then emit (WarnInvalidRSIPeriod blockId);; mret (VNum 50)
      else emit (Call FnRSI (cacheKey b));;
           match calculateRSI (marketData ctx) (currentIndex ctx) rsiPeriod with
           | Some r => mret (VNum r)
           | None => throw
           end
    | None => emit (WarnInvalidRSIPeriod blockId);; mret (VNum 50)
    end
  else if String.eqb blockType "bollinger_bands" then
    match parseOr (period b) 20%Z, parseFloatOr (stdDev b) 2 with
    | Some bbPeriod, Some stdDevMultiplier =>
      if (bbPeriod <=? 0)%Z
      then emit (WarnInvalidBB blockId);; mret (VNum (close (currentData ctx)))
      else
        let prices := map close (dataWindow ctx) in
        emit (Call FnMA (cacheKey b));;
        let ma := calculateMA prices bbPeriod in
        if (bbPeriod <=? Z.of_nat (length prices))%Z then
          let recentPrices := Js.slice prices (- bbPeriod) in
          emit (Call FnStdDev (cacheKey b));;
          let stdDev := calculateStdDev recentPrices in
          let bandType := orDefault (outputType b) "middle" in
          if String.eqb bandType "upper" then mret (VNum (ma + stdDevMultiplier * stdDev))
          else if String.eqb bandType "lower" then mret (VNum (ma - stdDevMultiplier * stdDev))
          else mret (VNum ma)
        else mret (VNum (close (currentData ctx)))
    | _, _ => emit (WarnInvalidBB blockId);; mret (VNum (close (currentData ctx)))
    end
  else if String.eqb blockType "price" then
    let priceType := orDefault (priceType b) "close" in
    if String.eqb priceType "open" then mret (VNum (open (currentData ctx)))
    else if String.eqb priceType "high" then mret (VNum (high (currentData ctx)))
    else if String.eqb priceType "low" then mret (VNum (low (currentData ctx)))
    else mret (VNum (close (currentData ctx)))
  else emit (WarnUnsupported blockType);; mret (VBool false).

(** [evaluateBlock(block, context, blocksById, graph, cache)], with [frames]
    call-stack frames left. *)
Fixpoint evaluateBlock (frames : nat) (b : block) {struct frames} : Eval value :=
  match frames with
  | O => throw
  | S frames' =>
    if String.eqb (id b) "" then emit WarnInvalidBlock;; mret (VBool false)
    else if String.eqb (blockType b) "" then emit (WarnNoBlockType (id b));; mret (VBool false)
    else
      cached ← cacheGet (cacheKey b);
      match cached with
      | Some v => mret v
      | None =>
        result ← tryCatch
                   (emit (Dispatch (cacheKey b));; evaluateKind (evaluateBlock frames') b)
                   (emit (ErrorEvaluating (id b) (blockType b));; mret (fallback (blockType b) ctx));
        cacheSet (cacheKey b) result;;
        mret result
      end
  end.

Fixpoint anyTruthy (frames : nat) (candidates : list block) : Eval bool :=
  match candidates with
  | [] => mret false
  | candidate :: rest =>
    should ← evaluateBlock frames candidate;
    if truthy should then mret true else anyTruthy frames rest
  end.

End Evaluate.

(** The graph resolver. *)

Definition isTerminal (graph : graph_t) (b : block) : bool :=
  match graph_get graph (id b) with
  | None => true
  | Some es => (length es =? 0)%nat
  end.

Definition isEntryBlock (graph : graph_t) (b : block) : bool :=
  if String.eqb (blockType b) "entry_condition" then true
  else if String.eqb (blockType b) "comparison" then
    let notExplicitExit := negb (String.eqb (purpose b) "exit") in
    isTerminal graph b && notExplicitExit
  else false.

Definition isExitBlock (graph : graph_t) (entryBlocks : list block) (b : block) : bool :=
  if String.eqb (blockType b) "exit_condition" then true
  else if String.eqb (blockType b) "comparison" then
    let notExplicitEntry := negb (String.eqb (purpose b) "entry") in
    let isAlsoEntryPoint := existsb (fun eb => String.eqb (id eb) (id b)) entryBlocks in
    isTerminal graph b && notExplicitEntry && negb isAlsoEntryPoint
  else false.

Definition isIndicatorOrPrice (b : block) : bool :=
  String.eqb (blockType b) "moving_average" || String.eqb (blockType b) "price"
  || String.eqb (blockType b) "rsi" || String.eqb (blockType b) "bollinger_bands".

Definition dummyEntryBlock : block :=
  mkBlock "default-entry" "price" "" "" None None Falsy Falsy "" "".

Definition resolve (blocks : list block) (graph : graph_t)
  : list block * list block * list event :=
  let entryBlocks := List.filter (isEntryBlock graph) blocks in
  let exitBlocks := List.filter (isExitBlock graph entryBlocks) blocks in
  let '(entryBlocks1, log1) :=
    match entryBlocks with
    | [] =>
      match find isIndicatorOrPrice blocks with
      | Some b => ([b], [LogUsingAsEntry (blockType b); LogNoExplicitEntry])
      | None => ([], [LogNoExplicitEntry])
      end
    | _ => (entryBlocks, [])
    end in
  let '(entryBlocks2, log2) :=
    match entryBlocks1 with
    | [] => ([dummyEntryBlock], LogNoSuitableEntry :: log1)
    | _ => (entryBlocks1, log1)
    end in
  (entryBlocks2, exitBlocks,
   LogStrategyHas (length entryBlocks2) (length exitBlocks) :: log2).

(** The simulator. *)

Definition priceOf (usePriceType : PriceType) (d : MarketData) : float :=
  match usePriceType with
  | PriceOpen => open d
  | PriceHigh => high d
  | PriceLow => low d
  | PriceClose => close d
  end.

Record BacktestOptions := mkOptions {
  initialCapital : float;
  usePriceType : PriceType
}.

Record Trade := mkTrade {
  trade_date : string;
  action : Action;
  price : float
}.

Record BacktestResult := mkResult {
  trades : list Trade;
  finalCapital : float;
  totalReturn : float;
  usingSimulatedData : bool
}.

Record runState := mkRunState {
  capital : float;
  position : float;
  buyPrice : float;
  ledger : list Trade;
  console : list event
}.

Section Simulator.

Variable frames : nat.
Variable usePrice : PriceType.
Variable blocksById : gmap string block.
Variable graph : graph_t.
Variable entryBlocks exitBlocks : list block.
Variable allData : list MarketData.

Definition buy (currentData : MarketData) (st : runState) (log : list event) : runState :=
  let tradePrice := priceOf usePrice currentData in
  mkRunState 0 (capital st / tradePrice) tradePrice
    (ledger st ++ [mkTrade (date currentData) BUY tradePrice])
    (LogBuy (date currentData) tradePrice :: log).

Definition sell (mark : string -> float -> event) (d : MarketData) (st : runState)
    (log : list event) : runState :=
  let tradePrice := priceOf usePrice d in
  mkRunState (position st * tradePrice) 0 (buyPrice st)
    (ledger st ++ [mkTrade (date d) SELL tradePrice])
    (mark (date d) tradePrice :: log).

Definition keep (st : runState) (log : list event) : runState :=
  mkRunState (capital st) (position st) (buyPrice st) (ledger st) log.

(** One iteration of [for (let i = 0; i < marketData.length; i++)]. *)
Definition processBar (i : nat) (currentData : MarketData) (st : runState)
  : outcome runState :=
  let dataWindow := take (i + 1) allData in
  let ctx := mkContext dataWindow currentData i (position st) (capital st) allData in
  let cleared := mkEvalState ∅ (console st) in
  if position st =? 0 then
    match anyTruthy ctx blocksById graph frames entryBlocks cleared with
    | (Returned true, es) => Returned (buy currentData st (trace es))
    | (Returned false, es) => Returned (keep st (trace es))
    | (Thrown, _) => Thrown
    end
  else if 0 <? position st then
    match exitBlocks with
    | _ :: _ =>
      match anyTruthy ctx blocksById graph frames exitBlocks cleared with
      | (Returned true, es) => Returned (sell LogSell currentData st (trace es))
      | (Returned false, es) => Returned (keep st (trace es))
      | (Thrown, _) => Thrown
      end
    | [] =>
      if (priceOf usePrice currentData <? buyPrice st * 0.95)
         || (buyPrice st * 1.2 <? priceOf usePrice currentData)
      then Returned (sell LogDefaultSell currentData st (console st))
      else Returned st
    end
  else Returned st.

Fixpoint processBars (i : nat) (bars : list MarketData) (st : runState)
  : outcome runState :=
  match bars with
  | [] => Returned st
  | currentData :: rest =>
    match processBar i currentData st with
    | Returned st' => processBars (S i) rest st'
    | Thrown => Thrown
    end
  end.

(** [if (position > 0)] after the loop: the final exit. *)
Definition finalExit (st : runState) : runState :=
  if 0 <? position st then
    match last allData with
    | Some lastDay => sell LogFinalSell lastDay st (console st)
    | None => st
    end
  else st.

End Simulator.

Definition simulateBars (frames : nat) (s : strategy) (options : BacktestOptions)
    (marketData bars : list MarketData) : outcome runState :=
  let blocksById := buildBlocksById (blocks s) in
  let graph := buildGraph (connections s) in
  let '(entryBlocks, exitBlocks, log) := resolve (blocks s) graph in
  let st0 := mkRunState (initialCapital options) 0 0 [] log in
  processBars frames (usePriceType options) blocksById graph
    entryBlocks exitBlocks marketData 0 bars st0.

Definition simulate (frames : nat) (s : strategy) (options : BacktestOptions)
    (marketData : list MarketData) : outcome runState :=
  match simulateBars frames s options marketData marketData with
  | Thrown => Thrown
  | Returned st => Returned (finalExit (usePriceType options) marketData st)
  end.

(** [runBacktest(strategy, options)] *)
Definition runBacktest (frames : nat) (s : strategy) (options : BacktestOptions)
    (fetched : option (list MarketData))
  : runError + BacktestResult * list event :=
  match fetched with
  | None => inl FetchFailed
  | Some [] => inl NoMarketData
  | Some marketData =>
    match simulate frames s options marketData with
    | Thrown => inl Uncaught
    | Returned st =>
      let totalReturn :=
        ((capital st - initialCapital options) / initialCapital options) * 100 in
      inr (mkResult (ledger st) (capital st) totalReturn false, console st)
    end
  end.

(** Vocabulary and sample inputs of the statements about this engine. *)

(** What one bar can do to the variables of the run: buy when
    [position === 0], sell when [position > 0], or leave capital, position and
    ledger as they are. *)
Inductive transition (usePrice : PriceType) (d : MarketData) (st : runState)
  : runState -> Prop :=
| transition_buy log :
    (position st =? 0) = true -> transition usePrice d st (buy usePrice d st log)
| transition_sell mark log :
    (position st =? 0) = false -> (0 <? position st) = true ->
    transition usePrice d st (sell usePrice mark d st log)
| transition_keep log : transition usePrice d st (keep st log)
| transition_none : transition usePrice d st st.

(** The last [n] elements of a list (all of it when it is shorter). *)
Definition lastN (n : nat) (l : list float) : list float := drop (length l - n) l.

(** The terms of a list added one after the other to [acc], from the first
    to the last, and the arithmetic mean of a list: the sum that starts from
    [0], over the number of terms. *)
Fixpoint totalFrom (acc : float) (l : list float) : float :=
  match l with
  | [] => acc
  | x :: rest => totalFrom (acc + x) rest
  end.
Definition arithmeticMean (l : list float) : float :=
  totalFrom 0 l / Js.ofZ (Z.of_nat (length l)).

Definition isBuy (t : Trade) : bool :=
  match action t with BUY => true | SELL => false end.
Definition isSell (t : Trade) : bool :=
  match action t with BUY => false | SELL => true end.
Definition buys (l : list Trade) : nat := length (List.filter isBuy l).
Definition sells (l : list Trade) : nat := length (List.filter isSell l).

(** Buys minus sells is 0 or 1. *)
Definition balanced (l : list Trade) : Prop :=
  buys l = sells l \/ buys l = S (sells l).

(** [capital > 0 || position > 0], [capital > 0 && position > 0] and exactly
    one of the two. *)
Definition funded (st : runState) : bool := (0 <? capital st) || (0 <? position st).
Definition doubled (st : runState) : bool := (0 <? capital st) && (0 <? position st).
Definition exactlyOne (st : runState) : bool := xorb (0 <? capital st) (0 <? position st).

(** Flat with an even ledger, or holding with one more buy than sells; and
    every initial part of the ledger is balanced. *)
Definition singlePosition (st : runState) : Prop :=
  ((position st = 0 /\ buys (ledger st) = sells (ledger st)) \/
   (capital st = 0 /\ (position st =? 0) = false /\
    buys (ledger st) = S (sells (ledger st)))) /\
  forall n, balanced (take n (ledger st)).

(** A bar with one price in every field. *)
Definition bar (day : string) (p : float) : MarketData := mkMarketData day p p p p 0.

Definition emptyStrategy : strategy := mkStrategy [] [].
Definition tenThousand : BacktestOptions := mkOptions 10000 PriceClose.

Definition fourBars : list MarketData :=
  [bar "2024-01-01" 10; bar "2024-01-02" 12; bar "2024-01-03" 11; bar "2024-01-04" 15].

(** Values whose sum is not a double. *)
Definition tenths : list float := [0; 0.1; 0.1; 0.1].

(** A single bar. *)
Definition oneBar : list MarketData := [bar "2024-03-01" 10].

(** A price so high that the units bought are tiny, then one so low that the
    proceeds of their sale are below the smallest double. *)
Definition underflowBars : list MarketData :=
  [bar "2024-03-01" 1e300; bar "2024-03-02" 1e-300; bar "2024-03-03" 1; bar "2024-03-04" 1].


(** An RSI block of period 2, and the call on the last of [fourBars]. *)
Definition rsiBlock : block := mkBlock "r" "rsi" "" "" None None (Parsed 2%Z) Falsy "" "".
Definition fourthBar : context :=
  mkContext fourBars (bar "2024-01-04" 15) 3 0 10000 fourBars.


End Binary64.

(** ** Vocabulary of the statements *)

(** The arithmetic mean of a list. *)
Definition mean (l : list Q) : Q := Js.sum l / inject_Z (Z.of_nat (length l)).

(** The last [n] elements of a list (all of it when it is shorter). *)
Definition lastN (n : nat) (l : list Q) : list Q := drop (length l - n) l.

(** The terms of a list added one after the other to [acc], from the first
    to the last, and the arithmetic mean of a list: the sum that starts from
    [0], over the number of terms. *)
Fixpoint totalFrom (acc : Q) (l : list Q) : Q :=
  match l with
  | [] => acc
  | x :: rest => totalFrom (acc + x) rest
  end.
Definition arithmeticMean (l : list Q) : Q :=
  totalFrom 0 l / inject_Z (Z.of_nat (length l)).

(** The [p] bar-to-bar changes of the close that end at bar [atIndex]. *)
Definition changes (series : list MarketData) (atIndex p : nat) : list Q :=
  map (fun i => match nth_error series (i + 1), nth_error series i with
                | Some next, Some cur => close next - close cur
                | _, _ => 0
                end)
      (seq (atIndex - p) p).

Definition gainOf (change : Q) : Q := if Qlt_le_dec 0 change then change else 0.
Definition lossOf (change : Q) : Q := if Qlt_le_dec 0 change then 0 else Qabs change.

(** Average gain and average loss over those changes, the loss floored at
    0.0001 when it is zero, and their ratio. *)
Definition averageGain (series : list MarketData) (atIndex p : nat) : Q :=
  Js.sum (map gainOf (changes series atIndex p)) / inject_Z (Z.of_nat p).
Definition averageLoss (series : list MarketData) (atIndex p : nat) : Q :=
  let l := Js.sum (map lossOf (changes series atIndex p)) / inject_Z (Z.of_nat p) in
  if Qeq_dec l 0 then 1 # 10000 else l.
Definition relativeStrength (series : list MarketData) (atIndex p : nat) : Q :=
  averageGain series atIndex p / averageLoss series atIndex p.

(** The two lists the resolver hands to the simulation. *)
Definition entryCandidates (blocks : list block) (graph : graph_t) : list block :=
  (resolve blocks graph).1.1.
Definition exitCandidates (blocks : list block) (graph : graph_t) : list block :=
  (resolve blocks graph).1.2.

(** What one bar can do to the variables of the run: buy when flat, sell when
    long, or leave capital, position and ledger as they are; the console only
    grows. *)
Inductive transition (usePrice : PriceType) (d : MarketData) (st : runState)
  : runState -> Prop :=
| transition_buy log :
    position st == 0 -> console st `suffix_of` log ->
    transition usePrice d st (buy usePrice d st log)
| transition_sell mark log :
    0 < position st -> console st `suffix_of` log ->
    transition usePrice d st (sell usePrice mark d st log)
| transition_keep log :
    console st `suffix_of` log -> transition usePrice d st (keep st log)
| transition_none : transition usePrice d st st.

(** A computation that only adds to the trace, whether it returns or throws. *)
Definition extends {A} (m : Eval A) : Prop :=
  forall st, trace st `suffix_of` trace (m st).2.

(** Every string the returned object holds: the dates and the actions of its
    trades. *)
Definition actionName (a : Action) : string :=
  match a with BUY => "BUY" | SELL => "SELL" end.
Definition resultStrings (r : BacktestResult) : list string :=
  flat_map (fun t => [trade_date t; actionName (action t)]) (trades r).

(** [hay.includes(needle)] *)
Definition mentions (needle hay : string) : bool :=
  match String.index 0 needle hay with Some _ => true | None => false end.

(** A computation that cannot throw. *)
Definition returns {A} (m : Eval A) : Prop :=
  forall st, exists a st', m st = (Returned a, st').


(** The id [k] is the id of a block of [blocksById]. *)
Definition isKnown (blocksById : gmap string block) (k : string) : bool :=
  match blocksById !! k with Some _ => true | None => false end.

(** The graph without its dangling connections: the keys that are the id of
    no block are dropped, and so is every edge to such an id. *)
Definition withoutDangling (blocksById : gmap string block) (graph : graph_t) : graph_t :=
  map (fun '(k, es) => (k, List.filter (fun e => isKnown blocksById (edge_target e)) es))
      (List.filter (fun '(k, _) => isKnown blocksById k) graph).

(** Every block is found under its own id. *)
Definition keyedById (blocksById : gmap string block) : Prop :=
  forall k b, blocksById !! k = Some b -> id b = k.

(** Some connection names a source or a target that is the id of no block. *)
Definition hasDanglingConnection (s : strategy) : bool :=
  existsb (fun c => negb (existsb (fun b => String.eqb (id b) (source c)) (blocks s))
                    || negb (existsb (fun b => String.eqb (id b) (target c)) (blocks s)))
          (connections s).

(** The cache keys whose [switch] a trace saw entered. *)
Definition dispatched (tr : list event) : list (string * nat) :=
  omap (fun e => match e with Dispatch k => Some k | _ => None end) tr.

Definition sameIndicator (f g : indicator) : bool :=
  match f, g with
  | FnMA, FnMA | FnRSI, FnRSI | FnStdDev, FnStdDev => true
  | _, _ => false
  end.

(** The cache keys for which a trace saw the indicator function [fn] called. *)
Definition calls (fn : indicator) (tr : list event) : list (string * nat) :=
  omap (fun e => match e with
                 | Call f k => if sameIndicator f fn then Some k else None
                 | _ => None
                 end) tr.

Definition isError (e : event) : bool :=
  match e with ErrorEvaluating _ _ => true | _ => false end.

(** A trace without a line of the [catch] of [evaluateBlock]. *)
Definition clean (tr : list event) : Prop := Forall (fun e => isError e = false) tr.

(** The blocks a call of [evaluateBlock] on [b] may call in turn: the blocks
    an entry or exit condition points to, and the blocks that point to a
    comparison without two literals. *)
Definition deps (blocksById : gmap string block) (graph : graph_t) (b : block)
  : list block :=
  if String.eqb (blockType b) "entry_condition" || String.eqb (blockType b) "exit_condition"
  then match graph_get graph (id b) with
       | Some conns => omap (fun conn => blocksById !! edge_target conn) conns
       | None => []
       end
  else if String.eqb (blockType b) "comparison"
  then match value1 b, value2 b with
       | Some _, Some _ => []
       | _, _ =>
         omap (fun '(sourceId, conn) =>
                 if String.eqb (edge_target conn) (id b) then blocksById !! sourceId else None)
              (graph_entries graph)
       end
  else [].

(** Every block [b] may call has a smaller rank than [b]. *)
Definition settled (blocksById : gmap string block) (graph : graph_t)
    (rank : string -> nat) (b : block) : Prop :=
  Forall (fun d => (rank (id d) < rank (id b))%nat) (deps blocksById graph b).

(** From [st] to [st']: no cache entry changed, the trace grew by [new], no
    [catch] ran, each key entered its [switch] at most once and exactly the
    keys that did are the new cache entries, their ranks are below [bound],
    and each indicator function was called at most once per key, for keys
    that entered. *)
Definition advances (rank : string -> nat) (bound : nat) (st st' : evalState)
    (new : list event) : Prop :=
  (forall k v, cache st !! k = Some v -> cache st' !! k = Some v) /\
  trace st' = (new ++ trace st)%list /\
  clean new /\
  NoDup (dispatched new) /\
  (forall k, k ∈ dispatched new <-> cache st !! k = None /\ is_Some (cache st' !! k)) /\
  (forall k, k ∈ dispatched new -> (rank k.1 < bound)%nat) /\
  (forall fn, NoDup (calls fn new) /\ forall k, k ∈ calls fn new -> k ∈ dispatched new).

(** A computation that returns and [advances] the state. *)
Definition evaluates {A} (rank : string -> nat) (bound : nat) (m : Eval A) : Prop :=
  forall st, exists a st' new, m st = (Returned a, st') /\ advances rank bound st st' new.

(** A console line that is no mark and not the line of the [catch]. *)
Definition plain (e : event) : bool :=
  match e with
  | Dispatch _ | Call _ _ | ErrorEvaluating _ _ => false
  | _ => true
  end.

(** The events a block adds for itself, after those of the blocks it called:
    warnings, and at most one call of each indicator function, under its own
    key. *)
Definition ownEvents (key : string * nat) (own : list event) : Prop :=
  clean own /\ dispatched own = [] /\
  forall fn, calls fn own = [] \/ calls fn own = [key].

(** The [switch] of a block: the blocks it calls advance the state, then it
    adds its own events and leaves the cache alone. *)
Definition kindSpec (rank : string -> nat) (bound : nat) (key : string * nat)
    (m : Eval value) : Prop :=
  forall st, exists v stm st' inner own,
    m st = (Returned v, st') /\ advances rank bound st stm inner /\
    cache st' = cache stm /\ trace st' = (own ++ trace stm)%list /\ ownEvents key own.

(** A computation that only adds events of the block itself. *)
Definition leaf (key : string * nat) (m : Eval value) : Prop :=
  forall st, exists v own st',
    m st = (Returned v, st') /\ cache st' = cache st /\
    trace st' = (own ++ trace st)%list /\ ownEvents key own.

(** Every trade of the ledger is dated on a bar of the series. *)
Definition datedOnBars (marketData : list MarketData) (l : list Trade) : Prop :=
  Forall (fun t => exists d, d ∈ marketData /\ trade_date t = date d) l.

(** The edge [graph] keeps of a connection, and the edges of the connections
    whose source is [key], in the order of the connections. *)
Definition edgeOf (c : connection) : edge :=
  mkEdge (target c) (sourceHandle c) (targetHandle c).
Definition edgesFrom (key : string) (connections : list connection) : list edge :=
  map edgeOf (List.filter (fun c => String.eqb (source c) key) connections).

(** Every trade of the ledger carries the date of a bar of the series and
    the price of that bar in the selected field. *)
Definition pricedOnBars (usePrice : PriceType) (marketData : list MarketData)
    (l : list Trade) : Prop :=
  Forall (fun t => exists d, d ∈ marketData /\ trade_date t = date d /\
                             price t = priceOf usePrice d) l.

(** No trade yet, with capital and position as at the start; or some trade. *)
Definition untouched (cap : Q) (st : runState) : Prop :=
  (ledger st = [] /\ capital st = cap /\ position st = 0) \/ ledger st <> [].

(** No connection into [blockId] names one of the two operand ports. *)
Definition portsUnused (graph : graph_t) (blockId : string) : Prop :=
  Forall (fun '(_, conn) =>
            edge_target conn = blockId ->
            edge_targetHandle conn <> "input1" /\ edge_targetHandle conn <> "input2")
         (graph_entries graph).

(** From [st] to [st'], through throws as well: the trace grew by [new], no
    cache entry went away, and each indicator function was called at most once
    per key, each time for a key that was not cached and is cached now. *)
Definition tracked (st st' : evalState) (new : list event) : Prop :=
  trace st' = (new ++ trace st)%list /\
  (forall k, is_Some (cache st !! k) -> is_Some (cache st' !! k)) /\
  forall fn, NoDup (calls fn new) /\
             forall k, k ∈ calls fn new -> cache st !! k = None /\ is_Some (cache st' !! k).

Definition tracks {A} (m : Eval A) : Prop :=
  forall st, exists new, tracked st (m st).2 new.

(** The [switch] of a block either keeps track, or leaves the cache alone and
    adds at most one call of each indicator function, under the key of the
    block. *)
Definition tracksKind (key : string * nat) (m : Eval value) : Prop :=
  forall st,
    (exists new, tracked st (m st).2 new) \/
    (cache (m st).2 = cache st /\
     exists own, trace (m st).2 = (own ++ trace st)%list /\
                 forall fn, calls fn own = [] \/ calls fn own = [key]).

Definition noCall (e : event) : bool :=
  match e with Call _ _ => false | _ => true end.

(** Parameters of which all but the length of the list of periods is as the
    indicators need it. *)
Definition usableParams (params : strategyParams) : Prop :=
  NoDup (maPeriods params) /\
  Forall (fun p => (0 < p)%Z) (maPeriods params) /\
  (0 < rsiPeriod params)%Z /\
  rsiOversold params <= 30 /\
  70 <= rsiOverbought params /\
  0 < bollingerBandWidth params.

(** What makes the [try] of [extractStrategyParameters] raise: a strategy
    that is null or undefined, blocks that are no array, or a block that is
    null or undefined. *)
Definition raises (strategy : option blocksField) : Prop :=
  strategy = None \/ strategy = Some BlocksOther \/
  exists elements, strategy = Some (BlocksArray elements) /\ None ∈ elements.

(** A series in the order of its dates. *)
Definition inTimeOrder (timeOf : string -> Z) (l : list MarketData) : Prop :=
  StronglySorted (fun a b => (timeOf (date a) <= timeOf (date b))%Z) l.

(** What the grouping loop of [aggregateHourlyToDaily] maintains: one entry
    per date seen, and every entry spanning the bars of its date. *)
Definition grouped (bars : list MarketData) (m : list (string * dayAcc)) : Prop :=
  NoDup (map fst m) /\
  (forall k, k ∈ map fst m <-> k ∈ map date bars) /\
  (forall entry p, entry ∈ m -> p ∈ bars -> date p = entry.1 ->
     high p <= day_high entry.2 /\ day_low entry.2 <= low p).

(** ** Sample inputs *)

(** A stand-in for [Math.sqrt] in runs that reach no Bollinger band. *)
Definition sqrtUnused (q : Q) : Q := q.

Definition emptyStrategy : strategy := mkStrategy [] [].

Definition tenThousand : BacktestOptions := mkOptions 10000 PriceClose.


(** A terminal comparison without a purpose tag and one tagged [exit]. *)
Definition untagged : block := mkBlock "c1" "comparison" "" "" None None Falsy Falsy "" "".
Definition taggedExit : block :=
  mkBlock "c2" "comparison" "exit" "" None None Falsy Falsy "" "".

(** A comparison of the price with the literal 11, entry by being terminal,
    whose first incoming connection comes from a block that does not exist;
    and an exit condition whose first connection leads to a block that does
    not exist and whose second leads to a comparison of two literals. *)
Definition danglingStrategy : strategy :=
  mkStrategy
    [mkBlock "c" "comparison" "" "" None (Some 11) Falsy Falsy "" "";
     mkBlock "p" "price" "" "" None None Falsy Falsy "" "";
     mkBlock "x" "exit_condition" "" "" None None Falsy Falsy "" "";
     mkBlock "c2" "comparison" "exit" "" (Some 2) (Some 1) Falsy Falsy "" ""]
    [mkConnection "phantom" "c" "" "input1"; mkConnection "p" "c" "" "input1";
     mkConnection "x" "ghost" "" ""; mkConnection "x" "c2" "" ""].

Definition fourBars : list MarketData :=
  [mkMarketData "2024-01-01" 10 10 10 10 0; mkMarketData "2024-01-02" 12 12 12 12 0;
   mkMarketData "2024-01-03" 11 11 11 11 0; mkMarketData "2024-01-04" 15 15 15 15 0].

(** Two comparisons that both read one moving average and one price block. *)
Definition fanInStrategy : strategy :=
  mkStrategy
    [mkBlock "m" "moving_average" "" "" None None (Parsed 2%Z) Falsy "" "";
     mkBlock "p" "price" "" "" None None Falsy Falsy "" "";
     mkBlock "c1" "comparison" "" "" None None Falsy Falsy "" "";
     mkBlock "c2" "comparison" "" "less_than" None None Falsy Falsy "" ""]
    [mkConnection "m" "c1" "" "input1"; mkConnection "p" "c1" "" "input2";
     mkConnection "p" "c2" "" "input1"; mkConnection "m" "c2" "" "input2"].

Definition fanInBlocks : gmap string block := buildBlocksById (blocks fanInStrategy).
Definition fanInGraph : graph_t := buildGraph (connections fanInStrategy).
Definition fanInRank (blockId : string) : nat :=
  if String.eqb blockId "c1" || String.eqb blockId "c2" then 1 else 0.
Definition comparison1 : block := mkBlock "c1" "comparison" "" "" None None Falsy Falsy "" "".
Definition comparison2 : block :=
  mkBlock "c2" "comparison" "" "less_than" None None Falsy Falsy "" "".

(** The context of the second of [fourBars]. *)
Definition secondBar : context :=
  mkContext (take 2 fourBars) (mkMarketData "2024-01-02" 12 12 12 12 0) 1 0 10000 fourBars.

(** Two comparisons, each the input of the other. *)
Definition cyclicStrategy : strategy :=
  mkStrategy
    [mkBlock "A" "comparison" "" "" None None Falsy Falsy "" "";
     mkBlock "B" "comparison" "" "" None None Falsy Falsy "" ""]
    [mkConnection "A" "B" "" "input1"; mkConnection "B" "A" "" "input1"].
Definition blockA : block := mkBlock "A" "comparison" "" "" None None Falsy Falsy "" "".

(** An entry condition that points to a comparison of the literal 20 with a
    price block: the connections have no cycle. *)
Definition entryBlockE : block :=
  mkBlock "E" "entry_condition" "" "" None None Falsy Falsy "" "".
Definition reentrantStrategy : strategy :=
  mkStrategy
    [entryBlockE;
     mkBlock "C" "comparison" "" "" (Some 20) None Falsy Falsy "" "";
     mkBlock "P" "price" "" "" None None Falsy Falsy "" ""]
    [mkConnection "E" "C" "" ""; mkConnection "P" "C" "" "input2"].

(** Four bars of falling close. *)
Definition fallingBars : list MarketData :=
  [mkMarketData "2024-02-01" 15 15 15 15 0; mkMarketData "2024-02-02" 12 12 12 12 0;
   mkMarketData "2024-02-03" 11 11 11 11 0; mkMarketData "2024-02-04" 10 10 10 10 0].

Definition averageBlock : block :=
  mkBlock "m" "moving_average" "" "" None None (Parsed 2%Z) Falsy "" "".
Definition priceBlock : block := mkBlock "p" "price" "" "" None None Falsy Falsy "" "".

(** An entry condition without connections: it never fires. *)
Definition idleStrategy : strategy := mkStrategy [entryBlockE] [].

(** The moving-average crossover of the strategy templates: the comparison
    is fed through ports named [value1] and [value2]. *)
Definition templateComparison : block :=
  mkBlock "cmp" "comparison" "" "greater_than" None None Falsy Falsy "" "".
Definition templateStrategy : strategy :=
  mkStrategy
    [mkBlock "fast" "moving_average" "" "" None None (Parsed 2%Z) Falsy "" "";
     mkBlock "slow" "moving_average" "" "" None None (Parsed 3%Z) Falsy "" "";
     templateComparison]
    [mkConnection "fast" "cmp" "ma" "value1"; mkConnection "slow" "cmp" "ma" "value2"].

Definition literalComparison : block :=
  mkBlock "c" "comparison" "" "" (Some 2) (Some 1) Falsy Falsy "" "".

(** Three hourly bars of two days, the later day first. *)
Definition hourlyBars : list MarketData :=
  [ mkMarketData "2024-01-02" 10 12 9 11 100;
    mkMarketData "2024-01-01" 5 6 4 5 50;
    mkMarketData "2024-01-02" 11 15 10 14 200 ].

Definition januaryDay (d : string) : Z :=
  if String.eqb d "2024-01-01" then 1 else if String.eqb d "2024-01-02" then 2 else 0.

(** * Properties *)

Ltac solve_elem := repeat (apply elem_of_cons; ((left; reflexivity) || right)).

(** ** The indicator library *)

Section Indicators.

Lemma sum_acc (l : list Q) (a : Q) : fold_left Qplus l a == a + Js.sum l.
Proof.
  unfold Js.sum. revert a.
  induction l as [|x l IH]; intros a; simpl.
  - ring.
  - rewrite (IH (a + x)), (IH (0 + x)). ring.
Qed.

Lemma sum_cons (x : Q) (l : list Q) : Js.sum (x :: l) == x + Js.sum l.
Proof. unfold Js.sum at 1. simpl. rewrite sum_acc. ring. Qed.

Lemma sum_nonneg (l : list Q) : Forall (fun x => 0 <= x) l -> 0 <= Js.sum l.
Proof.
  induction 1 as [|x l Hx _ IH].
  - unfold Js.sum. simpl. lra.
  - rewrite sum_cons. lra.
Qed.

Lemma sum_map_nonneg (f : Q -> Q) (l : list Q) :
  (forall c, 0 <= f c) -> 0 <= Js.sum (map f l).
Proof.
  intros Hf. apply sum_nonneg. induction l; simpl; constructor; auto.
Qed.

Lemma slice_last (values : list Q) (p : Z) :
  (1 <= p)%Z ->
  Js.slice values (- p) = lastN (Nat.min (Z.to_nat p) (length values)) values.
Proof.
  intros Hp. unfold Js.slice, lastN.
  destruct (Z.ltb_spec (- p) 0) as [_|H]; [|lia].
  f_equal. lia.
Qed.

Lemma length_lastN (n : nat) (l : list Q) :
  (n <= length l)%nat -> length (lastN n l) = n.
Proof. intros H. unfold lastN. rewrite length_drop. lia. Qed.

Lemma calculateMA_is_mean (values : list Q) (p : Z) :
  (1 <= p)%Z -> values <> [] ->
  calculateMA values p = mean (lastN (Nat.min (Z.to_nat p) (length values)) values).
Proof.
  intros Hp Hne. unfold calculateMA, mean.
  destruct values as [|v values]; [congruence|].
  rewrite slice_last by assumption.
  rewrite length_lastN by lia.
  unfold Js.min. do 2 f_equal. lia.
Qed.

(** The accumulators of the loop of [calculateRSI] are the sums of the gains
    and of the losses of the changes it walks over. *)
Lemma rsiLoop_sums (series : list MarketData) (count i : nat) (gains losses : Q) :
  (i + count < length series)%nat ->
  exists g l,
    rsiLoop series i count gains losses = Some (g, l) /\
    g == gains + Js.sum (map gainOf (changes series (i + count) count)) /\
    l == losses + Js.sum (map lossOf (changes series (i + count) count)).
Proof.
  revert i gains losses.
  induction count as [|count IH]; intros i gains losses Hlen.
  - exists gains, losses. unfold changes, Js.sum. simpl. repeat split; ring.
  - simpl rsiLoop.
    destruct (nth_error series (i + 1)) as [next|] eqn:Hnext;
      [|apply nth_error_None in Hnext; lia].
    destruct (nth_error series i) as [cur|] eqn:Hcur;
      [|apply nth_error_None in Hcur; lia].
    assert (Hch : changes series (i + S count) (S count)
                  = (close next - close cur) :: changes series (S i + count) count).
    { unfold changes.
      replace (i + S count - S count)%nat with i by lia.
      replace (S i + count - count)%nat with (S i) by lia.
      simpl seq. simpl map. rewrite Hnext, Hcur. reflexivity. }
    rewrite Hch. simpl map.
    unfold gainOf at 1, lossOf at 1.
    destruct (Qlt_le_dec 0 (close next - close cur)) as [Hpos|Hneg].
    + destruct (IH (S i) (gains + (close next - close cur)) losses) as (g & l & Hrun & Hg & Hl);
        [lia|].
      exists g, l. split; [exact Hrun|].
      change (S i + count)%nat with (S (i + count)) in *.
      rewrite !sum_cons, Hg, Hl. split; ring.
    + destruct (IH (S i) gains (losses + Qabs (close next - close cur)))
        as (g & l & Hrun & Hg & Hl); [lia|].
      exists g, l. split; [exact Hrun|].
      change (S i + count)%nat with (S (i + count)) in *.
      rewrite !sum_cons, Hg, Hl. split; ring.
Qed.

Lemma gainOf_nonneg (c : Q) : 0 <= gainOf c.
Proof. unfold gainOf. destruct (Qlt_le_dec 0 c); lra. Qed.

Lemma lossOf_nonneg (c : Q) : 0 <= lossOf c.
Proof. unfold lossOf. destruct (Qlt_le_dec 0 c); [lra | apply Qabs_nonneg]. Qed.

Lemma averageGain_nonneg (series : list MarketData) (atIndex p : nat) :
  (1 <= p)%nat -> 0 <= averageGain series atIndex p.
Proof.
  intros Hp. unfold averageGain.
  apply Qle_shift_div_l.
  - change 0 with (inject_Z 0). rewrite <- Zlt_Qlt. lia.
  - rewrite Qmult_0_l. apply sum_map_nonneg, gainOf_nonneg.
Qed.

Lemma averageLoss_pos (series : list MarketData) (atIndex p : nat) :
  (1 <= p)%nat -> 0 < averageLoss series atIndex p.
Proof.
  intros Hp. unfold averageLoss.
  set (l := Js.sum (map lossOf (changes series atIndex p)) / inject_Z (Z.of_nat p)).
  assert (Hl : 0 <= l).
  { apply Qle_shift_div_l.
    - change 0 with (inject_Z 0). rewrite <- Zlt_Qlt. lia.
    - rewrite Qmult_0_l. apply sum_map_nonneg, lossOf_nonneg. }
  destruct (Qeq_dec l 0) as [_|Hne]; [reflexivity|].
  apply Qle_lteq in Hl as [Hlt|Heq]; [exact Hlt|]. symmetry in Heq. contradiction.
Qed.

Lemma relativeStrength_nonneg (series : list MarketData) (atIndex p : nat) :
  (1 <= p)%nat -> 0 <= relativeStrength series atIndex p.
Proof.
  intros Hp. unfold relativeStrength.
  apply Qle_shift_div_l; [apply averageLoss_pos; exact Hp|].
  rewrite Qmult_0_l. apply averageGain_nonneg, Hp.
Qed.

Lemma orFloor_spec (x : Q) : orFloor x == if Qeq_dec x 0 then 1 # 10000 else x.
Proof.
  unfold orFloor. destruct (Qeq_dec x 0) as [H|H].
  - apply Qeq_bool_iff in H. rewrite H. reflexivity.
  - destruct (Qeq_bool x 0) eqn:E; [|reflexivity].
    apply Qeq_bool_iff in E. contradiction.
Qed.

Lemma orFloor_proper (x y : Q) : x == y -> orFloor x == orFloor y.
Proof.
  intros H. rewrite !orFloor_spec.
  destruct (Qeq_dec x 0) as [Hx|Hx], (Qeq_dec y 0) as [Hy|Hy]; try reflexivity.
  - exfalso. apply Hy. rewrite <- H. exact Hx.
  - exfalso. apply Hx. rewrite H. exact Hy.
  - exact H.
Qed.

(** The result of [calculateRSI] once [period] bars precede the index. *)
Lemma calculateRSI_run (series : list MarketData) (atIndex : nat) (p : Z) :
  (1 <= p)%Z -> (p <= Z.of_nat atIndex)%Z -> (atIndex < length series)%nat ->
  exists r,
    calculateRSI series atIndex p = Some r /\
    r == 100 - 100 / (1 + relativeStrength series atIndex (Z.to_nat p)).
Proof.
  intros Hp Hge Hlen. unfold calculateRSI.
  destruct (Z.ltb_spec (Z.of_nat atIndex) p) as [Hlt|_]; [lia|].
  replace (Z.to_nat (Z.of_nat atIndex - p)) with (atIndex - Z.to_nat p)%nat by lia.
  replace (atIndex - (atIndex - Z.to_nat p))%nat with (Z.to_nat p) by lia.
  destruct (rsiLoop_sums series (Z.to_nat p) (atIndex - Z.to_nat p) 0 0)
    as (g & l & Hrun & Hg & Hl); [lia|].
  replace (atIndex - Z.to_nat p + Z.to_nat p)%nat with atIndex in Hg, Hl by lia.
  rewrite Hrun. eexists. split; [reflexivity|].
  unfold relativeStrength, averageGain, averageLoss.
  rewrite Z2Nat.id by lia.
  rewrite Qplus_0_l in Hg, Hl.
  set (lossSum := Js.sum (map lossOf (changes series atIndex (Z.to_nat p)))) in *.
  set (gainSum := Js.sum (map gainOf (changes series atIndex (Z.to_nat p)))) in *.
  assert (Hfloor : orFloor (l / inject_Z p)
                   == if Qeq_dec (lossSum / inject_Z p) 0 then 1 # 10000
                      else lossSum / inject_Z p).
  { rewrite <- orFloor_spec. apply orFloor_proper. rewrite Hl. reflexivity. }
  rewrite Hfloor, Hg. reflexivity.
Qed.

Lemma calculateRSI_short (series : list MarketData) (atIndex : nat) (p : Z) :
  (Z.of_nat atIndex < p)%Z -> calculateRSI series atIndex p = Some 50.
Proof.
  intros Hlt. unfold calculateRSI.
  destruct (Z.ltb_spec (Z.of_nat atIndex) p); [reflexivity|lia].
Qed.



Lemma calculateRSI_in_range (series : list MarketData) (atIndex : nat) (p : Z) :
  (1 <= p)%Z -> (atIndex < length series)%nat ->
  exists r, calculateRSI series atIndex p = Some r /\ 0 <= r /\ r < 100.
Proof.
  intros Hp Hlen.
  destruct (Z.lt_ge_cases (Z.of_nat atIndex) p) as [Hlt|Hge].
  - exists 50. split; [|lra]. apply calculateRSI_short, Hlt.
  - destruct (calculateRSI_run series atIndex p Hp Hge Hlen) as (r & Hr & Heq).
    exists r. split; [exact Hr|]. rewrite Heq.
    assert (Hrs : 0 <= relativeStrength series atIndex (Z.to_nat p))
      by (apply relativeStrength_nonneg; lia).
    set (rs := relativeStrength series atIndex (Z.to_nat p)) in *.
    assert (Hden : 0 < 1 + rs) by lra.
    assert (Hpos : 0 < 100 / (1 + rs)) by (apply Qlt_shift_div_l; lra).
    assert (Hle : 100 / (1 + rs) <= 100) by (apply Qle_shift_div_r; lra).
    split; lra.
Qed.



End Indicators.

(** ** The range of the relative strength index *)

Section RangeOfRSI.

Import Floats.

(** Over binary64 too the loop of [calculateRSI] reads inside the series and
    returns its two sums. *)
Lemma rsiLoop64_returns (series : list Binary64.MarketData) (count i : nat)
    (gains losses : float) :
  (i + count < length series)%nat ->
  exists g l, Binary64.rsiLoop series i count gains losses = Some (g, l).
Proof.
  revert i gains losses.
  induction count as [|count IH]; intros i gains losses Hlen; cbn [Binary64.rsiLoop].
  - exists gains, losses. reflexivity.
  - destruct (nth_error series (i + 1)) as [next|] eqn:Hnext;
      [|apply nth_error_None in Hnext; lia].
    destruct (nth_error series i) as [cur|] eqn:Hcur;
      [|apply nth_error_None in Hcur; lia].
    destruct (PrimFloat.ltb 0 (PrimFloat.sub (Binary64.close next) (Binary64.close cur)));
      apply IH; lia.
Qed.

(** [x || 0.0001] is never [0] and never [NaN]. *)
Lemma orFloor64_truthy (x : float) : Binary64.Js.falsy (Binary64.orFloor x) = false.
Proof.
  unfold Binary64.orFloor. destruct (Binary64.Js.falsy x) eqn:E; [reflexivity | exact E].
Qed.



End RangeOfRSI.

(** ** The moving average is the mean of its window *)

Section MeanOfWindow.

Import Floats.

Lemma sum_totalFrom (l : list Q) (acc : Q) : fold_left Qplus l acc = totalFrom acc l.
Proof. revert acc. induction l as [|x l IH]; intros acc; [reflexivity | apply IH]. Qed.

Lemma sum64_totalFrom (l : list float) (acc : float) :
  fold_left PrimFloat.add l acc = Binary64.totalFrom acc l.
Proof. revert acc. induction l as [|x l IH]; intros acc; [reflexivity | apply IH]. Qed.

Lemma slice64_last (values : list float) (p : Z) :
  (1 <= p)%Z ->
  Binary64.Js.slice values (- p)
  = Binary64.lastN (Nat.min (Z.to_nat p) (length values)) values.
Proof.
  intros Hp. unfold Binary64.Js.slice, Binary64.lastN.
  destruct (Z.ltb_spec (- p) 0) as [_|H]; [|lia].
  f_equal. lia.
Qed.

(** C7.  For a period [p >= 1], [calculateMA] of the empty list is [0], and
    of a non-empty list it is the arithmetic mean of its last
    [min(p, length)] values, their sum taken from the first to the last: a
    short history is averaged as it is.  So it is over the rationals and, to
    the last bit, over binary64. *)
Theorem calculateMA_mean (values : list Q) (doubles : list float) (p : Z) :
  (1 <= p)%Z ->
  calculateMA [] p = 0 /\
  (values <> [] ->
   calculateMA values p
   = arithmeticMean (lastN (Nat.min (Z.to_nat p) (length values)) values)) /\
  Binary64.calculateMA [] p = 0%float /\
  (doubles <> [] ->
   Binary64.calculateMA doubles p
   = Binary64.arithmeticMean
       (Binary64.lastN (Nat.min (Z.to_nat p) (length doubles)) doubles)).
Proof.
  intros Hp. split; [reflexivity|]. split; [|split; [reflexivity|]].
  - intros Hne. unfold calculateMA, arithmeticMean, Js.sum.
    destruct values as [|v values]; [congruence|].
    rewrite slice_last by assumption. rewrite sum_totalFrom.
    rewrite length_lastN by lia. unfold Js.min. do 2 f_equal. lia.
  - intros Hne. unfold Binary64.calculateMA, Binary64.arithmeticMean, Binary64.Js.sum.
    destruct doubles as [|v doubles]; [congruence|].
    rewrite slice64_last by assumption. rewrite sum64_totalFrom.
    unfold Binary64.lastN, Binary64.Js.min. rewrite length_drop.
    do 2 f_equal. cbn [length]. lia.
Qed.

Lemma calculateMA_mean_witness :
  (1 <= 2)%Z /\ calculateMA [] 2 = 0 /\
  calculateMA [1; 2; 6] 2 = arithmeticMean (lastN (Nat.min (Z.to_nat 2) 3) [1; 2; 6]) /\
  calculateMA [1; 2; 6] 2 == 4 /\
  Binary64.calculateMA Binary64.tenths 3
  = Binary64.arithmeticMean
      (Binary64.lastN (Nat.min (Z.to_nat 3) (length Binary64.tenths)) Binary64.tenths).
Proof.
  destruct (calculateMA_mean [1; 2; 6] Binary64.tenths 2) as (Hempty & Hmean & _);
    [lia|].
  destruct (calculateMA_mean [1; 2; 6] Binary64.tenths 3) as (_ & _ & _ & Hmean64);
    [lia|].
  split; [lia|]. split; [exact Hempty|]. split; [apply Hmean; discriminate|].
  split; [reflexivity|]. apply Hmean64. discriminate.
Defined.

End MeanOfWindow.

(** ** The graph resolver *)

Section Resolver.

Variable blocks : list block.
Variable graph : graph_t.

Let entry0 := List.filter (isEntryBlock graph) blocks.

Lemma exitCandidates_eq :
  exitCandidates blocks graph = List.filter (isExitBlock graph entry0) blocks.
Proof.
  unfold exitCandidates, resolve. fold entry0.
  destruct entry0; [destruct (find isIndicatorOrPrice blocks)|]; reflexivity.
Qed.

(** The entry list is the filtered list, or one indicator or price block, or
    the dummy block. *)
Lemma entryCandidates_cases :
  (entry0 <> [] /\ entryCandidates blocks graph = entry0) \/
  (exists b, isIndicatorOrPrice b = true /\ entryCandidates blocks graph = [b]).
Proof.
  unfold entryCandidates, resolve. fold entry0.
  destruct entry0 as [|e rest] eqn:E.
  - right. destruct (find isIndicatorOrPrice blocks) as [b|] eqn:F.
    + exists b. split; [|reflexivity]. apply find_some in F. apply F.
    + exists dummyEntryBlock. split; reflexivity.
  - left. split; [discriminate|reflexivity].
Qed.

Lemma isExitBlock_type (entry : list block) (b : block) :
  isExitBlock graph entry b = true ->
  blockType b = "exit_condition" \/
  (blockType b = "comparison" /\ isTerminal graph b = true /\ purpose b <> "entry" /\
   forall eb, In eb entry -> id eb <> id b).
Proof.
  unfold isExitBlock.
  destruct (String.eqb_spec (blockType b) "exit_condition") as [Hx|_]; [auto|].
  destruct (String.eqb_spec (blockType b) "comparison") as [Hc|_]; [|discriminate].
  intros H. apply andb_true_iff in H as [H Hnot]. apply andb_true_iff in H as [Hterm Htag].
  right. repeat split; try assumption.
  - destruct (String.eqb_spec (purpose b) "entry"); [discriminate|assumption].
  - intros eb Hin Heq. apply negb_true_iff in Hnot.
    assert (existsb (fun eb => String.eqb (id eb) (id b)) entry = true).
    { apply existsb_exists. exists eb. split; [exact Hin|]. apply String.eqb_eq, Heq. }
    congruence.
Qed.

Lemma isEntryBlock_type (b : block) :
  isEntryBlock graph b = true ->
  blockType b = "entry_condition" \/ blockType b = "comparison".
Proof.
  unfold isEntryBlock.
  destruct (String.eqb_spec (blockType b) "entry_condition"); [auto|].
  destruct (String.eqb_spec (blockType b) "comparison"); [auto|discriminate].
Qed.

Lemma isIndicatorOrPrice_type (b : block) :
  isIndicatorOrPrice b = true ->
  blockType b <> "exit_condition" /\ blockType b <> "comparison".
Proof.
  unfold isIndicatorOrPrice. intros H.
  repeat (apply orb_true_iff in H as [H|H]);
    apply String.eqb_eq in H; rewrite H; split; discriminate.
Qed.

(** C9.  No block is both an entry and an exit candidate.  A terminal
    comparison with neither purpose tag is an entry candidate and no exit
    candidate; a comparison among the exit candidates is terminal, is not
    tagged [entry] and is no entry candidate. *)
Theorem resolver_exclusive :
  (forall b, In b (entryCandidates blocks graph) -> ~ In b (exitCandidates blocks graph)) /\
  (forall b, In b blocks -> blockType b = "comparison" -> isTerminal graph b = true ->
             purpose b <> "exit" -> purpose b <> "entry" ->
             In b (entryCandidates blocks graph) /\ ~ In b (exitCandidates blocks graph)) /\
  (forall b, In b (exitCandidates blocks graph) -> blockType b = "comparison" ->
             isTerminal graph b = true /\ purpose b <> "entry" /\
             ~ In b (entryCandidates blocks graph)).
Proof.
  assert (Hexcl : forall b, In b (entryCandidates blocks graph) ->
                            ~ In b (exitCandidates blocks graph)).
  { intros b Hentry Hexit.
    rewrite exitCandidates_eq in Hexit. apply filter_In in Hexit as [_ Hexit].
    apply isExitBlock_type in Hexit.
    destruct entryCandidates_cases as [[_ Heq]|(b' & Hind & Heq)]; rewrite Heq in Hentry.
    - pose proof Hentry as Hin. apply filter_In in Hentry as [_ Hentry].
      apply isEntryBlock_type in Hentry.
      destruct Hexit as [Hx|(Hc & _ & _ & Hid)].
      + destruct Hentry as [He|He]; rewrite He in Hx; discriminate.
      + apply (Hid b Hin). reflexivity.
    - destruct Hentry as [<-|[]]. apply isIndicatorOrPrice_type in Hind as [H1 H2].
      destruct Hexit as [Hx|(Hc & _)]; contradiction. }
  split; [exact Hexcl|]. split.
  - intros b Hin Hc Hterm Hexit Hentry.
    assert (He : In b (entryCandidates blocks graph)).
    { assert (H0 : In b entry0).
      { apply filter_In. split; [exact Hin|]. unfold isEntryBlock. rewrite Hc. simpl.
        rewrite Hterm. simpl. apply negb_true_iff.
        destruct (String.eqb_spec (purpose b) "exit"); [contradiction|reflexivity]. }
      unfold entryCandidates, resolve. fold entry0.
      destruct entry0 as [|e rest]; [contradiction|exact H0]. }
    split; [exact He | apply Hexcl, He].
  - intros b Hexit Hc.
    pose proof Hexit as Hx. rewrite exitCandidates_eq in Hx.
    apply filter_In in Hx as [_ Hx]. apply isExitBlock_type in Hx.
    destruct Hx as [Hx|(_ & Hterm & Htag & _)]; [rewrite Hc in Hx; discriminate|].
    repeat split; try assumption.
    intros He. exact (Hexcl b He Hexit).
Qed.

End Resolver.

Lemma resolver_exclusive_witness :
  (In untagged (entryCandidates [untagged; taggedExit] []) ->
   ~ In untagged (exitCandidates [untagged; taggedExit] [])) /\
  (In untagged (entryCandidates [untagged; taggedExit] []) /\
   ~ In untagged (exitCandidates [untagged; taggedExit] [])) /\
  (isTerminal [] taggedExit = true /\ purpose taggedExit <> "entry" /\
   ~ In taggedExit (entryCandidates [untagged; taggedExit] [])).
Proof.
  destruct (resolver_exclusive [untagged; taggedExit] []) as (H1 & H2 & H3).
  split; [exact (H1 untagged)|]. split.
  - apply H2; [simpl; auto | reflexivity | reflexivity | discriminate | discriminate].
  - apply H3; [vm_compute; auto | reflexivity].
Defined.

(** ** Evaluation never leaves an exception behind *)

Section Returns.

Variable Math_sqrt : Q -> Q.
Variable ctx : context.
Variable blocksById : gmap string block.
Variable graph : graph_t.

Lemma returns_ret {A} (a : A) : returns (mret a).
Proof. intros st. eexists _, _; reflexivity. Qed.

Lemma returns_emit (e : event) : returns (emit e).
Proof. intros st. eexists _, _; reflexivity. Qed.

Lemma returns_cacheGet (k : string * nat) : returns (cacheGet k).
Proof. intros st. eexists _, _; reflexivity. Qed.

Lemma returns_cacheSet (k : string * nat) (v : value) : returns (cacheSet k v).
Proof. intros st. eexists _, _; reflexivity. Qed.

Lemma returns_bind {A B} (m : Eval A) (f : A -> Eval B) :
  returns m -> (forall a, returns (f a)) -> returns (m ≫= f).
Proof.
  intros Hm Hf st. unfold mbind, eval_bind, bind.
  destruct (Hm st) as (a & st1 & ->). apply Hf.
Qed.

Lemma returns_tryCatch {A} (m handler : Eval A) :
  returns handler -> returns (tryCatch m handler).
Proof.
  intros Hh st. unfold tryCatch.
  destruct (m st) as [[a|] st1]; [eexists _, _; reflexivity | apply Hh].
Qed.

(** With a frame left for it, a call of [evaluateBlock] returns: whatever is
    thrown below it ends in its [catch]. *)
Lemma evaluateBlock_returns (frames : nat) (b : block) :
  returns (evaluateBlock Math_sqrt ctx blocksById graph (S frames) b).
Proof.
  cbn [evaluateBlock].
  destruct (String.eqb (id b) "");
    [apply returns_bind; [apply returns_emit | intros; apply returns_ret]|].
  destruct (String.eqb (blockType b) "");
    [apply returns_bind; [apply returns_emit | intros; apply returns_ret]|].
  apply returns_bind; [apply returns_cacheGet|].
  intros [v|]; [apply returns_ret|].
  apply returns_bind.
  - apply returns_tryCatch, returns_bind; [apply returns_emit | intros; apply returns_ret].
  - intros v. apply returns_bind; [apply returns_cacheSet | intros; apply returns_ret].
Qed.

Lemma anyTruthy_returns (frames : nat) (candidates : list block) :
  returns (anyTruthy Math_sqrt ctx blocksById graph (S frames) candidates).
Proof.
  induction candidates as [|c rest IH]; cbn [anyTruthy].
  - apply returns_ret.
  - apply returns_bind; [apply evaluateBlock_returns|].
    intros v. destruct (truthy v); [apply returns_ret | exact IH].
Qed.

Lemma extends_ret {A} (a : A) : extends (mret a).
Proof. intros st. reflexivity. Qed.

Lemma extends_throw {A} : extends (@throw A).
Proof. intros st. reflexivity. Qed.

Lemma extends_emit (e : event) : extends (emit e).
Proof. intros st. simpl. apply suffix_cons_r. reflexivity. Qed.

Lemma extends_cacheSet (k : string * nat) (v : value) : extends (cacheSet k v).
Proof. intros st. reflexivity. Qed.

Lemma extends_bind {A B} (m : Eval A) (f : A -> Eval B) :
  extends m -> (forall a, extends (f a)) -> extends (m ≫= f).
Proof.
  intros Hm Hf st. unfold mbind, eval_bind, bind.
  specialize (Hm st). destruct (m st) as [[a|] st1]; simpl in Hm; [|exact Hm].
  etransitivity; [exact Hm | apply Hf].
Qed.

Lemma extends_tryCatch {A} (m handler : Eval A) :
  extends m -> extends handler -> extends (tryCatch m handler).
Proof.
  intros Hm Hh st. unfold tryCatch.
  specialize (Hm st). destruct (m st) as [[a|] st1]; simpl in Hm; [exact Hm|].
  etransitivity; [exact Hm | apply Hh].
Qed.

Ltac extends_step :=
  first
    [ apply extends_ret | apply extends_throw | apply extends_emit | apply extends_cacheSet
    | apply extends_bind; [|intros ?]
    | match goal with
      | |- extends (if ?c then _ else _) => destruct c
      | |- extends (match ?x with _ => _ end) => destruct x
      | |- extends (let _ := _ in _) => cbv zeta
      end ].

Lemma extends_anyTargetTrue (ev : block -> Eval value) (conns : list edge) :
  (forall d, extends (ev d)) -> extends (anyTargetTrue blocksById ev conns).
Proof.
  intros Hev. induction conns as [|conn rest IH]; cbn [anyTargetTrue].
  - apply extends_ret.
  - destruct (blocksById !! edge_target conn); [|exact IH].
    apply extends_bind; [apply Hev|]. intros [[|]|q]; [apply extends_ret|exact IH..].
Qed.

Lemma extends_scanInputs (ev : block -> Eval value) (blockId : string)
    (entries : list (string * edge)) (value1 value2 : option Q) :
  (forall d, extends (ev d)) -> extends (scanInputs blocksById ev blockId entries value1 value2).
Proof.
  intros Hev. revert value1 value2.
  induction entries as [|[sourceId conn] rest IH]; intros value1 value2; cbn [scanInputs].
  - apply extends_ret.
  - destruct (String.eqb (edge_target conn) blockId); [|apply IH].
    destruct (blocksById !! sourceId); [|apply IH].
    apply extends_bind; [apply Hev|]. intros sourceResult.
    destruct (String.eqb (edge_targetHandle conn) "input1"); [apply IH|].
    destruct (String.eqb (edge_targetHandle conn) "input2"); apply IH.
Qed.

Lemma extends_evaluateKind (ev : block -> Eval value) (b : block) :
  (forall d, extends (ev d)) -> extends (evaluateKind Math_sqrt ctx blocksById graph ev b).
Proof.
  intros Hev. unfold evaluateKind.
  repeat first [ apply extends_anyTargetTrue, Hev | apply extends_scanInputs, Hev
               | extends_step ].
Qed.

(** A call of [evaluateBlock] only adds to the trace. *)
Lemma extends_evaluateBlock (frames : nat) (b : block) :
  extends (evaluateBlock Math_sqrt ctx blocksById graph frames b).
Proof.
  revert b. induction frames as [|frames IH]; intros b; cbn [evaluateBlock].
  - apply extends_throw.
  - destruct (String.eqb (id b) ""); [repeat extends_step|].
    destruct (String.eqb (blockType b) ""); [repeat extends_step|].
    apply extends_bind; [intros st; reflexivity|].
    intros [v|]; [apply extends_ret|].
    apply extends_bind; [|intros v; repeat extends_step].
    apply extends_tryCatch; [|repeat extends_step].
    apply extends_bind; [apply extends_emit|]. intros _. apply extends_evaluateKind, IH.
Qed.

Lemma extends_anyTruthy (frames : nat) (candidates : list block) :
  extends (anyTruthy Math_sqrt ctx blocksById graph frames candidates).
Proof.
  induction candidates as [|c rest IH]; cbn [anyTruthy].
  - apply extends_ret.
  - apply extends_bind; [apply extends_evaluateBlock|].
    intros v. destruct (truthy v); [apply extends_ret | exact IH].
Qed.

End Returns.

(** ** The simulator *)

Lemma Qlt_bool_iff (x y : Q) : Qlt_bool x y = true <-> x < y.
Proof.
  unfold Qlt_bool. rewrite negb_true_iff. split.
  - intros H. apply Qnot_le_lt. intros Hle. apply Qle_bool_iff in Hle. congruence.
  - intros H. destruct (Qle_bool y x) eqn:E; [|reflexivity].
    apply Qle_bool_iff in E. lra.
Qed.

Section Bars.

Variable Math_sqrt : Q -> Q.
Variable frames : nat.
Variable usePrice : PriceType.
Variable blocksById : gmap string block.
Variable graph : graph_t.
Variable entryBlocks exitBlocks : list block.
Variable allData : list MarketData.

Let step := processBar Math_sqrt (S frames) usePrice blocksById graph entryBlocks exitBlocks
              allData.
Let run := processBars Math_sqrt (S frames) usePrice blocksById graph entryBlocks exitBlocks
             allData.

(** A bar returns, and what it does is one [transition]. *)
Lemma processBar_transition (i : nat) (d : MarketData) (st : runState) :
  exists st', step i d st = Returned st' /\ transition usePrice d st st'.
Proof.
  unfold step, processBar.
  set (ctx := mkContext (take (i + 1) allData) d i (position st) (capital st) allData).
  set (cleared := mkEvalState ∅ (console st)).
  assert (Hgrow : forall candidates,
             console st `suffix_of`
               trace (anyTruthy Math_sqrt ctx blocksById graph (S frames) candidates cleared).2).
  { intros candidates.
    exact (extends_anyTruthy Math_sqrt ctx blocksById graph (S frames) candidates cleared). }
  destruct (Qeq_bool (position st) 0) eqn:Hflat.
  - apply Qeq_bool_iff in Hflat. specialize (Hgrow entryBlocks).
    destruct (anyTruthy_returns Math_sqrt ctx blocksById graph frames entryBlocks cleared)
      as (r & es & Heq).
    rewrite Heq in Hgrow |- *.
    destruct r; eexists; (split; [reflexivity|]);
      [apply transition_buy | apply transition_keep]; assumption.
  - destruct (Qlt_bool 0 (position st)) eqn:Hlong;
      [|eexists; split; [reflexivity | apply transition_none]].
    apply Qlt_bool_iff in Hlong.
    destruct exitBlocks as [|x xs] eqn:Hexit.
    + match goal with |- context [if ?c then _ else _] => destruct c end;
        eexists; (split; [reflexivity|]);
        [apply transition_sell; [exact Hlong | reflexivity] | apply transition_none].
    + specialize (Hgrow (x :: xs)).
      destruct (anyTruthy_returns Math_sqrt ctx blocksById graph frames (x :: xs) cleared)
        as (r & es & Heq).
      rewrite Heq in Hgrow |- *.
      destruct r; eexists; (split; [reflexivity|]);
        [apply transition_sell | apply transition_keep]; assumption.
Qed.

(** The loop over the bars returns and keeps what every transition keeps. *)
Lemma processBars_invariant (P : runState -> Prop) (okBar : MarketData -> Prop) :
  (forall d st st', okBar d -> P st -> transition usePrice d st st' -> P st') ->
  forall bars i st, Forall okBar bars -> P st ->
  exists st', run i bars st = Returned st' /\ P st'.
Proof.
  intros Hstep. induction bars as [|d bars IH]; intros i st Hok HP.
  - exists st. split; [reflexivity | exact HP].
  - apply Forall_cons in Hok as [Hd Hok]. unfold run. cbn [processBars].
    destruct (processBar_transition i d st) as (st1 & Hrun & Htr).
    unfold step in Hrun. rewrite Hrun.
    apply (IH (S i) st1 Hok). exact (Hstep d st st1 Hd HP Htr).
Qed.

End Bars.

Section Ledger.

Variable usePrice : PriceType.
Variable allData : list MarketData.

End Ledger.

Section Run.

Variable Math_sqrt : Q -> Q.
Variable frames : nat.
Variable s : strategy.
Variable options : BacktestOptions.
Variable marketData : list MarketData.

Let usePrice := usePriceType options.

(** The loop keeps, over any initial part of the bars, what every transition
    on a bar allowed by [okBar] keeps. *)
Lemma simulateBars_invariant (P : runState -> Prop) (okBar : MarketData -> Prop)
    (bars : list MarketData) :
  (forall d st st', okBar d -> P st -> transition usePrice d st st' -> P st') ->
  P (mkRunState (initialCapital options) 0 0 []
       (resolve (blocks s) (buildGraph (connections s))).2) ->
  Forall okBar bars ->
  exists st, simulateBars Math_sqrt (S frames) s options marketData bars = Returned st /\ P st.
Proof.
  intros Hstep Hinit Hok. unfold simulateBars.
  destruct (resolve (blocks s) (buildGraph (connections s))) as [[entry exit] log].
  apply (processBars_invariant Math_sqrt frames usePrice _ _ entry exit marketData P
           okBar Hstep bars 0%nat _ Hok Hinit).
Qed.



Lemma transition_console (d : MarketData) (st st' : runState) :
  transition usePrice d st st' -> console st `suffix_of` console st'.
Proof.
  intros [log _ Hlog|mark log _ Hlog|log Hlog|]; simpl;
    [apply suffix_cons_r, Hlog | apply suffix_cons_r, Hlog | exact Hlog | reflexivity].
Qed.

Lemma finalExit_console (st : runState) :
  console st `suffix_of` console (finalExit usePrice marketData st).
Proof.
  unfold finalExit. destruct (Qlt_bool 0 (position st)); [|reflexivity].
  destruct (last marketData); [|reflexivity]. simpl. apply suffix_cons_r. reflexivity.
Qed.

Lemma transition_dated (d : MarketData) (st st' : runState) :
  d ∈ marketData -> datedOnBars marketData (ledger st) -> transition usePrice d st st' ->
  datedOnBars marketData (ledger st').
Proof.
  intros Hd Hl [log _ _|mark log _ _|log _|]; simpl; try exact Hl;
    apply Forall_app; (split; [exact Hl|]); repeat constructor; exists d; auto.
Qed.

Lemma finalExit_dated (st : runState) :
  datedOnBars marketData (ledger st) -> datedOnBars marketData (ledger (finalExit usePrice marketData st)).
Proof.
  intros Hl. unfold finalExit. destruct (Qlt_bool 0 (position st)); [|exact Hl].
  destruct (last marketData) as [lastDay|] eqn:Hlast; [|exact Hl]. simpl.
  apply Forall_app. split; [exact Hl|]. repeat constructor. exists lastDay. split; [|reflexivity].
  apply last_Some in Hlast as (l' & ->). apply elem_of_app. right.
  apply list_elem_of_singleton. reflexivity.
Qed.

(** The run returns; its console ends with the lines of the resolver, and its
    trades are dated on bars of the series. *)
Lemma simulate_returns :
  exists st,
    simulate Math_sqrt (S frames) s options marketData = Returned st /\
    (resolve (blocks s) (buildGraph (connections s))).2 `suffix_of` console st /\
    datedOnBars marketData (ledger st).
Proof.
  destruct (simulateBars_invariant
              (fun st => (resolve (blocks s) (buildGraph (connections s))).2
                           `suffix_of` console st /\ datedOnBars marketData (ledger st))
              (fun d => d ∈ marketData) marketData) as (st & Hrun & Hlog & Hdated).
  - intros d st st' Hd [Hlog Hdated] Htr. split.
    + etransitivity; [exact Hlog | exact (transition_console d st st' Htr)].
    + exact (transition_dated d st st' Hd Hdated Htr).
  - simpl. split; [reflexivity | constructor].
  - apply Forall_forall. auto.
  - exists (finalExit usePrice marketData st). unfold simulate. rewrite Hrun.
    split; [reflexivity|]. split.
    + etransitivity; [exact Hlog | apply finalExit_console].
    + apply finalExit_dated, Hdated.
Qed.

Lemma runBacktest_some :
  marketData <> [] ->
  runBacktest Math_sqrt (S frames) s options (Some marketData)
  = match simulate Math_sqrt (S frames) s options marketData with
    | Thrown => inl Uncaught
    | Returned st =>
      inr (mkResult (ledger st) (capital st)
             (((capital st - initialCapital options) / initialCapital options) * 100) false,
           console st)
    end.
Proof. intros Hne. destruct marketData; [contradiction | reflexivity]. Qed.

Lemma runBacktest_returns :
  marketData <> [] ->
  exists r log, runBacktest Math_sqrt (S frames) s options (Some marketData) = inr (r, log).
Proof.
  intros Hne. destruct simulate_returns as (st & Hrun & _).
  rewrite (runBacktest_some Hne), Hrun. eexists _, _. reflexivity.
Qed.

End Run.




(** ** The single position, over binary64 *)

Section Doubles.

Import Floats.
Local Open Scope float_scope.

Lemma returns64_bind {A B} (m : Binary64.Eval A) (f : A -> Binary64.Eval B) :
  (forall st, exists a st', m st = (Returned a, st')) ->
  (forall a st, exists b st', f a st = (Returned b, st')) ->
  forall st, exists b st', (m ≫= f) st = (Returned b, st').
Proof.
  intros Hm Hf st. unfold mbind, Binary64.eval_bind, Binary64.bind.
  destruct (Hm st) as (a & st1 & ->). apply Hf.
Qed.

(** With a frame left for it, a call of [evaluateBlock] returns. *)
Lemma evaluateBlock64_returns (ctx : Binary64.context) (blocksById : gmap string Binary64.block)
    (graph : graph_t) (frames : nat) (b : Binary64.block) (st : Binary64.evalState) :
  exists v st', Binary64.evaluateBlock ctx blocksById graph (S frames) b st = (Returned v, st').
Proof.
  cbn [Binary64.evaluateBlock].
  destruct (String.eqb (Binary64.id b) ""); [eexists _, _; reflexivity|].
  destruct (String.eqb (Binary64.blockType b) ""); [eexists _, _; reflexivity|].
  unfold mbind, Binary64.eval_bind, Binary64.bind, Binary64.cacheGet.
  destruct (Binary64.cache st !! Binary64.cacheKey ctx b) as [v|]; [eexists _, _; reflexivity|].
  unfold Binary64.tryCatch, Binary64.emit.
  match goal with
  | |- context [Binary64.evaluateKind ?c ?m ?g ?ev ?blk ?s] =>
    destruct (Binary64.evaluateKind c m g ev blk s) as [[v|] st1]
  end; eexists _, _; reflexivity.
Qed.

Lemma anyTruthy64_returns (ctx : Binary64.context) (blocksById : gmap string Binary64.block)
    (graph : graph_t) (frames : nat) (candidates : list Binary64.block)
    (st : Binary64.evalState) :
  exists r st', Binary64.anyTruthy ctx blocksById graph (S frames) candidates st
                = (Returned r, st').
Proof.
  revert st. induction candidates as [|c rest IH]; intros st; cbn [Binary64.anyTruthy].
  - eexists _, _; reflexivity.
  - apply returns64_bind; [apply evaluateBlock64_returns|].
    intros v st1. destruct (Binary64.truthy v); [eexists _, _; reflexivity | apply IH].
Qed.

(** A positive double is not [0]: the two tests of the loop exclude each
    other. *)
Lemma positive_not_zero (x : float) : (0 <? x) = true -> (x =? 0) = false.
Proof.
  rewrite ltb_spec, eqb_spec. change (Prim2SF 0) with (S754_zero false).
  destruct (Prim2SF x) as [sx|sx| |sx m e]; try destruct sx; cbn; congruence.
Qed.

Section Bars64.

Variable frames : nat.
Variable usePrice : PriceType.
Variable blocksById : gmap string Binary64.block.
Variable graph : graph_t.
Variable entryBlocks exitBlocks : list Binary64.block.
Variable allData : list Binary64.MarketData.

Let step := Binary64.processBar (S frames) usePrice blocksById graph entryBlocks exitBlocks
              allData.
Let run := Binary64.processBars (S frames) usePrice blocksById graph entryBlocks exitBlocks
             allData.

(** A bar returns, and what it does is one [transition]. *)
Lemma processBar64_transition (i : nat) (d : Binary64.MarketData) (st : Binary64.runState) :
  exists st', step i d st = Returned st' /\ Binary64.transition usePrice d st st'.
Proof.
  unfold step, Binary64.processBar.
  set (ctx := Binary64.mkContext _ _ _ _ _ _).
  set (cleared := Binary64.mkEvalState _ _).
  destruct (Binary64.position st =? 0) eqn:Hflat.
  - destruct (anyTruthy64_returns ctx blocksById graph frames entryBlocks cleared)
      as (r & es & ->).
    destruct r; eexists; (split; [reflexivity|]);
      [apply Binary64.transition_buy; exact Hflat | apply Binary64.transition_keep].
  - destruct (0 <? Binary64.position st) eqn:Hlong;
      [|eexists; split; [reflexivity | apply Binary64.transition_none]].
    destruct exitBlocks as [|x xs] eqn:Hexit.
    + match goal with |- context [if ?c then _ else _] => destruct c end;
        eexists; (split; [reflexivity|]);
        [apply Binary64.transition_sell; assumption | apply Binary64.transition_none].
    + destruct (anyTruthy64_returns ctx blocksById graph frames (x :: xs) cleared)
        as (r & es & ->).
      destruct r; eexists; (split; [reflexivity|]);
        [apply Binary64.transition_sell; assumption | apply Binary64.transition_keep].
Qed.

(** The loop over bars that end with [d] is the loop over the bars before
    [d], then the iteration for [d]. *)
Lemma processBars64_snoc (bars : list Binary64.MarketData) (d : Binary64.MarketData) (i : nat)
    (st : Binary64.runState) :
  run i (bars ++ [d])%list st
  = match run i bars st with
    | Returned st1 => step (i + length bars) d st1
    | Thrown => Thrown
    end.
Proof.
  unfold run, step. revert i st. induction bars as [|b bars IH]; intros i st.
  - cbn [app Binary64.processBars length]. rewrite Nat.add_0_r.
    destruct (Binary64.processBar _ _ _ _ _ _ _ i d st); reflexivity.
  - cbn [app Binary64.processBars length].
    destruct (Binary64.processBar _ _ _ _ _ _ _ i b st) as [st1|]; [|reflexivity].
    rewrite IH. replace (S i + length bars)%nat with (i + S (length bars))%nat by lia.
    reflexivity.
Qed.

End Bars64.

Lemma buys64_app (l : list Binary64.Trade) (t : Binary64.Trade) :
  Binary64.buys (l ++ [t]) = (Binary64.buys l + (if Binary64.isBuy t then 1 else 0))%nat.
Proof.
  unfold Binary64.buys. rewrite List.filter_app, length_app. simpl.
  destruct (Binary64.isBuy t); reflexivity.
Qed.

Lemma sells64_app (l : list Binary64.Trade) (t : Binary64.Trade) :
  Binary64.sells (l ++ [t]) = (Binary64.sells l + (if Binary64.isSell t then 1 else 0))%nat.
Proof.
  unfold Binary64.sells. rewrite List.filter_app, length_app. simpl.
  destruct (Binary64.isSell t); reflexivity.
Qed.

Lemma balanced64_prefixes_app (l : list Binary64.Trade) (t : Binary64.Trade) :
  (forall n, Binary64.balanced (take n l)) -> Binary64.balanced (l ++ [t]) ->
  forall n, Binary64.balanced (take n (l ++ [t])).
Proof.
  intros Hl Ht n. destruct (le_lt_dec n (length l)) as [Hle|Hgt].
  - rewrite take_app_le by exact Hle. apply Hl.
  - rewrite take_ge; [exact Ht|]. rewrite length_app. simpl. lia.
Qed.

(** One of [capital] and [position] is always the literal [0] the code
    assigns. *)
Lemma oneIsZero_transition (usePrice : PriceType) (d : Binary64.MarketData)
    (st st' : Binary64.runState) :
  Binary64.position st = 0 \/ Binary64.capital st = 0 ->
  Binary64.transition usePrice d st st' ->
  Binary64.position st' = 0 \/ Binary64.capital st' = 0.
Proof.
  intros H [log _|mark log _ _|log|]; [right; reflexivity | left; reflexivity | exact H..].
Qed.

Lemma oneIsZero_notDoubled (st : Binary64.runState) :
  Binary64.position st = 0 \/ Binary64.capital st = 0 -> Binary64.doubled st = false.
Proof.
  unfold Binary64.doubled. intros [->| ->]; [apply andb_false_r | reflexivity].
Qed.

(** A sale closes the position that is held. *)
Lemma singlePosition64_sell (usePrice : PriceType) (mark : string -> float -> Binary64.event)
    (d : Binary64.MarketData) (st : Binary64.runState) (log : list Binary64.event) :
  Binary64.singlePosition st -> (Binary64.position st =? 0) = false ->
  Binary64.singlePosition (Binary64.sell usePrice mark d st log).
Proof.
  intros [[(Hpos & _)|(_ & _ & Hbal)] Hpre] Hheld.
  { rewrite Hpos in Hheld. discriminate. }
  assert (Hb : Binary64.buys (Binary64.ledger (Binary64.sell usePrice mark d st log))
               = Binary64.sells (Binary64.ledger (Binary64.sell usePrice mark d st log))).
  { cbn [Binary64.sell Binary64.ledger]. rewrite buys64_app, sells64_app. simpl. lia. }
  split.
  - left. split; [reflexivity | exact Hb].
  - apply balanced64_prefixes_app; [exact Hpre | left; exact Hb].
Qed.

(** What a bar keeps when the state after it still holds cash or units. *)
Lemma singlePosition64_transition (usePrice : PriceType) (d : Binary64.MarketData)
    (st st' : Binary64.runState) :
  Binary64.singlePosition st -> Binary64.transition usePrice d st st' ->
  Binary64.funded st' = true -> Binary64.singlePosition st'.
Proof.
  intros HP [log Hflat|mark log Hheld Hlong|log|] Hfunded.
  - destruct HP as [[(_ & Hbal)|(_ & Hheld & _)] Hpre]; [|congruence].
    assert (Hb : Binary64.buys (Binary64.ledger (Binary64.buy usePrice d st log))
                 = S (Binary64.sells (Binary64.ledger (Binary64.buy usePrice d st log)))).
    { cbn [Binary64.buy Binary64.ledger]. rewrite buys64_app, sells64_app. simpl. lia. }
    split.
    + right. split; [reflexivity|]. split; [|exact Hb].
      apply positive_not_zero. exact Hfunded.
    + apply balanced64_prefixes_app; [exact Hpre | right; exact Hb].
  - apply singlePosition64_sell; assumption.
  - exact HP.
  - exact HP.
Qed.

Lemma singlePosition64_exactlyOne (st : Binary64.runState) :
  Binary64.singlePosition st -> Binary64.funded st = true -> Binary64.exactlyOne st = true.
Proof.
  unfold Binary64.funded, Binary64.exactlyOne.
  intros [[(Hpos & _)|(Hcap & _)] _]; [rewrite Hpos | rewrite Hcap];
    change (0 <? 0) with false; [rewrite orb_false_r | rewrite orb_false_l];
    intros ->; reflexivity.
Qed.

Section Run64.

Variable frames : nat.
Variable s : Binary64.strategy.
Variable options : Binary64.BacktestOptions.
Variable marketData : list Binary64.MarketData.

Let usePrice := Binary64.usePriceType options.
Let afterBars (k : nat) : outcome Binary64.runState :=
  Binary64.simulateBars (S frames) s options marketData (take k marketData).

Lemma afterBars_zero :
  exists log, afterBars 0 = Returned (Binary64.mkRunState (Binary64.initialCapital options)
                                        0 0 [] log).
Proof.
  unfold afterBars, Binary64.simulateBars.
  destruct (Binary64.resolve _ _) as [[entry exit] log]. exists log. reflexivity.
Qed.

(** One more bar of the series is one more iteration. *)
Lemma afterBars_step (k : nat) (d : Binary64.MarketData) (st : Binary64.runState) :
  marketData !! k = Some d -> afterBars k = Returned st ->
  exists st', afterBars (S k) = Returned st' /\ Binary64.transition usePrice d st st'.
Proof.
  unfold afterBars, Binary64.simulateBars. intros Hd.
  destruct (Binary64.resolve _ _) as [[entry exit] log].
  rewrite (take_S_r _ _ _ Hd), processBars64_snoc. intros ->.
  apply lookup_lt_Some in Hd. rewrite length_take, Nat.min_l by lia.
  apply processBar64_transition.
Qed.

Lemma afterBars_end (k : nat) : marketData !! k = None -> afterBars (S k) = afterBars k.
Proof.
  intros Hk. apply lookup_ge_None in Hk. unfold afterBars.
  rewrite !take_ge by lia. reflexivity.
Qed.

(** What every transition keeps holds after any number of bars; [Q] may be
    assumed of the states the run passes through. *)
Lemma afterBars_invariant (P Q : Binary64.runState -> Prop) :
  (forall log, P (Binary64.mkRunState (Binary64.initialCapital options) 0 0 [] log)) ->
  (forall d st st', P st -> Binary64.transition usePrice d st st' -> Q st' -> P st') ->
  (forall k st, afterBars k = Returned st -> Q st) ->
  forall k, exists st, afterBars k = Returned st /\ P st.
Proof.
  intros Hinit Hstep HQ. induction k as [|k (st & Hrun & HP)].
  - destruct afterBars_zero as (log & Hrun). eexists. split; [exact Hrun | apply Hinit].
  - destruct (marketData !! k) as [d|] eqn:Hd.
    + destruct (afterBars_step k d st Hd Hrun) as (st' & Hrun' & Htr).
      exists st'. split; [exact Hrun'|]. exact (Hstep d st st' HP Htr (HQ _ _ Hrun')).
    + exists st. split; [|exact HP]. rewrite afterBars_end; assumption.
Qed.

Lemma singlePosition64_initial (log : list Binary64.event) :
  Binary64.singlePosition (Binary64.mkRunState (Binary64.initialCapital options) 0 0 [] log).
Proof.
  split.
  - left. split; reflexivity.
  - intros n. cbn [Binary64.ledger]. rewrite take_nil. left. reflexivity.
Qed.

(** C2, as the code has it over binary64.  (1) After any number of bars
    [capital > 0] and [position > 0] never hold together.  (2) As long as the
    run, between the bars, always holds cash or units, exactly one of the two
    is positive, every initial part of the ledger has as many buys as sells
    or one more, and so has the ledger of the whole run, final exit included.
    (3) One iteration of the loop adds at most one trade.  (4) The final exit
    adds nothing or one sale, dated on the last bar and priced at its
    selected field. *)
Theorem single_position :
  (forall k, exists st, afterBars k = Returned st /\ Binary64.doubled st = false) /\
  ((forall k st, afterBars k = Returned st -> Binary64.funded st = true) ->
   (forall k, exists st,
       afterBars k = Returned st /\ Binary64.exactlyOne st = true /\
       forall n, Binary64.balanced (take n (Binary64.ledger st))) /\
   exists st,
     Binary64.simulate (S frames) s options marketData = Returned st /\
     forall n, Binary64.balanced (take n (Binary64.ledger st))) /\
  (forall blocksById graph entryBlocks exitBlocks i d st, exists st' new,
      Binary64.processBar (S frames) usePrice blocksById graph entryBlocks exitBlocks
        marketData i d st = Returned st' /\
      Binary64.ledger st' = (Binary64.ledger st ++ new)%list /\ (length new <= 1)%nat) /\
  (exists st st',
      afterBars (length marketData) = Returned st /\
      Binary64.simulate (S frames) s options marketData = Returned st' /\
      (Binary64.ledger st' = Binary64.ledger st \/
       exists lastDay,
         last marketData = Some lastDay /\
         Binary64.ledger st'
         = (Binary64.ledger st
            ++ [Binary64.mkTrade (Binary64.date lastDay) SELL
                  (Binary64.priceOf usePrice lastDay)])%list)).
Proof.
  assert (Hsim : forall st, afterBars (length marketData) = Returned st ->
            Binary64.simulate (S frames) s options marketData
            = Returned (Binary64.finalExit usePrice marketData st)).
  { intros st. unfold afterBars, Binary64.simulate. rewrite take_ge by lia.
    intros ->. reflexivity. }
  split; [|split; [|split]].
  - intros k.
    destruct (afterBars_invariant
                (fun st => Binary64.position st = 0 \/ Binary64.capital st = 0)
                (fun _ => True)) with (k := k) as (st & Hrun & HP).
    + intros log. left. reflexivity.
    + intros d st st' HP Htr _. exact (oneIsZero_transition usePrice d st st' HP Htr).
    + intros; exact I.
    + exists st. split; [exact Hrun | apply oneIsZero_notDoubled, HP].
  - intros Hfunded.
    assert (Hinv : forall k, exists st,
               afterBars k = Returned st /\ Binary64.singlePosition st).
    { apply (afterBars_invariant Binary64.singlePosition
               (fun st => Binary64.funded st = true)).
      - apply singlePosition64_initial.
      - intros d st st'. apply singlePosition64_transition.
      - exact Hfunded. }
    split.
    + intros k. destruct (Hinv k) as (st & Hrun & HP).
      exists st. split; [exact Hrun|]. split; [|apply HP].
      apply singlePosition64_exactlyOne; [exact HP | exact (Hfunded k st Hrun)].
    + destruct (Hinv (length marketData)) as (st & Hrun & HP).
      exists (Binary64.finalExit usePrice marketData st). split; [apply Hsim, Hrun|].
      unfold Binary64.finalExit.
      destruct (0 <? Binary64.position st) eqn:Hlong; [|apply HP].
      destruct (last marketData) as [lastDay|]; [|apply HP].
      apply singlePosition64_sell; [exact HP | apply positive_not_zero, Hlong].
  - intros blocksById graph entryBlocks exitBlocks i d st.
    destruct (processBar64_transition frames usePrice blocksById graph entryBlocks exitBlocks
                marketData i d st) as (st' & Hrun & Htr).
    exists st'. destruct Htr as [log _|mark log _ _|log|].
    + eexists [_]. split; [exact Hrun|]. split; [reflexivity | simpl; lia].
    + eexists [_]. split; [exact Hrun|]. split; [reflexivity | simpl; lia].
    + exists []. split; [exact Hrun|]. split; [simpl; rewrite app_nil_r; reflexivity | simpl; lia].
    + exists []. split; [exact Hrun|]. split; [rewrite app_nil_r; reflexivity | simpl; lia].
  - destruct (afterBars_invariant (fun _ => True) (fun _ => True))
      with (k := length marketData) as (st & Hrun & _); [done..|].
    exists st, (Binary64.finalExit usePrice marketData st).
    split; [exact Hrun|]. split; [apply Hsim, Hrun|].
    unfold Binary64.finalExit.
    destruct (0 <? Binary64.position st); [|left; reflexivity].
    destruct (last marketData) as [lastDay|]; [|left; reflexivity].
    right. exists lastDay. split; reflexivity.
Qed.

End Run64.

Lemma single_position_witness :
  (forall k st,
      Binary64.simulateBars 8 Binary64.emptyStrategy Binary64.tenThousand Binary64.fourBars
        (take k Binary64.fourBars) = Returned st ->
      Binary64.funded st = true) /\
  (forall k, exists st,
      Binary64.simulateBars 8 Binary64.emptyStrategy Binary64.tenThousand Binary64.fourBars
        (take k Binary64.fourBars) = Returned st /\
      Binary64.exactlyOne st = true /\
      forall n, Binary64.balanced (take n (Binary64.ledger st))) /\
  exists st,
    Binary64.simulate 8 Binary64.emptyStrategy Binary64.tenThousand Binary64.fourBars
    = Returned st /\
    forall n, Binary64.balanced (take n (Binary64.ledger st)).
Proof.
  assert (Hfunded : forall k st,
             Binary64.simulateBars 8 Binary64.emptyStrategy Binary64.tenThousand
               Binary64.fourBars (take k Binary64.fourBars) = Returned st ->
             Binary64.funded st = true).
  { intros k st. destruct k as [|[|[|[|k]]]]; cbn [take Binary64.fourBars];
      rewrite ?take_nil; vm_compute; intros H; injection H as <-; reflexivity. }
  split; [exact Hfunded|].
  exact (proj1 (proj2 (single_position 7 Binary64.emptyStrategy Binary64.tenThousand
                         Binary64.fourBars)) Hfunded).
Defined.

(** C2 as stated fails.  On a series of one bar the default entry buys on
    the bar and the final exit sells on the same bar: two transitions on one
    bar.  And with a positive capital and positive prices: units bought at
    1e300 and sold at 1e-300 bring proceeds that underflow to 0, so that after
    the second bar neither cash nor units are held; every later bar buys
    again, and the ledger of the run has three buys and one sale. *)
Lemma single_position_fails :
  (exists st,
      Binary64.simulate 8 Binary64.emptyStrategy Binary64.tenThousand Binary64.oneBar
      = Returned st /\
      Binary64.ledger st = [Binary64.mkTrade "2024-03-01" BUY 10;
                            Binary64.mkTrade "2024-03-01" SELL 10]) /\
  (0 <? Binary64.initialCapital Binary64.tenThousand) = true /\
  forallb (fun d => 0 <? Binary64.priceOf PriceClose d) Binary64.underflowBars = true /\
  (exists st,
      Binary64.simulateBars 8 Binary64.emptyStrategy Binary64.tenThousand
        Binary64.underflowBars (take 2 Binary64.underflowBars) = Returned st /\
      Binary64.exactlyOne st = false) /\
  (exists st,
      Binary64.simulate 8 Binary64.emptyStrategy Binary64.tenThousand Binary64.underflowBars
      = Returned st /\
      map Binary64.action (Binary64.ledger st) = [BUY; SELL; BUY; BUY] /\
      ~ Binary64.balanced (Binary64.ledger st)).
Proof.
  split; [eexists; split; [vm_compute; reflexivity | reflexivity]|].
  split; [reflexivity|]. split; [reflexivity|]. split.
  - eexists. split; [vm_compute; reflexivity | reflexivity].
  - eexists. split; [vm_compute; reflexivity|]. split; [reflexivity|].
    intros [H|H]; vm_compute in H; discriminate.
Qed.


End Doubles.

(** ** Evaluation over well-founded dependencies *)

Section Advances.

Variable rank : string -> nat.

Lemma dispatched_app (l1 l2 : list event) :
  dispatched (l1 ++ l2) = (dispatched l1 ++ dispatched l2)%list.
Proof. apply omap_app. Qed.

Lemma calls_app (fn : indicator) (l1 l2 : list event) :
  calls fn (l1 ++ l2) = (calls fn l1 ++ calls fn l2)%list.
Proof. apply omap_app. Qed.

Lemma advances_refl (bound : nat) (st : evalState) : advances rank bound st st [].
Proof.
  split; [auto|]. split; [reflexivity|]. split; [constructor|]. split; [constructor|].
  split; [|split].
  - intros k. split.
    + intros H. inversion H.
    + intros [Hnone [v Hv]]. congruence.
  - intros k H. inversion H.
  - intros fn. split; [constructor|]. intros k H. inversion H.
Qed.

Lemma advances_mono (bound bound' : nat) (st st' : evalState) (new : list event) :
  (bound <= bound')%nat -> advances rank bound st st' new -> advances rank bound' st st' new.
Proof.
  intros Hle (Hc & Ht & Hcl & Hnd & Hiff & Hrk & Hcalls).
  do 5 (split; [assumption|]). split; [|assumption].
  intros k Hk. specialize (Hrk k Hk). lia.
Qed.

Lemma advances_trans (bound : nat) (st st1 st2 : evalState) (new1 new2 : list event) :
  advances rank bound st st1 new1 -> advances rank bound st1 st2 new2 ->
  advances rank bound st st2 (new2 ++ new1).
Proof.
  intros (Hc1 & Ht1 & Hcl1 & Hnd1 & Hiff1 & Hrk1 & Hcalls1)
         (Hc2 & Ht2 & Hcl2 & Hnd2 & Hiff2 & Hrk2 & Hcalls2).
  assert (Hdisj : forall k, k ∈ dispatched new2 -> k ∉ dispatched new1).
  { intros k H2 H1. apply Hiff2 in H2 as [Hnone _]. apply Hiff1 in H1 as [_ [v Hv]].
    congruence. }
  split; [auto|]. split; [rewrite Ht2, Ht1, app_assoc; reflexivity|].
  split; [apply Forall_app; split; assumption|].
  split; [rewrite dispatched_app; apply NoDup_app; auto|].
  split; [|split].
  - intros k. rewrite dispatched_app, elem_of_app, Hiff1, Hiff2. split.
    + intros [[Hnone Hsome]|[Hnone [v Hv]]].
      * split; [|exact Hsome]. destruct (cache st !! k) eqn:E; [|reflexivity].
        apply Hc1 in E. congruence.
      * split; [exact Hnone|]. exists v. auto.
    + intros [Hnone Hsome]. destruct (cache st1 !! k) eqn:E; [right|left]; eauto.
  - intros k. rewrite dispatched_app, elem_of_app. intros [H|H]; auto.
  - intros fn. destruct (Hcalls1 fn) as [Hn1 Hin1], (Hcalls2 fn) as [Hn2 Hin2].
    rewrite calls_app, dispatched_app. split.
    + apply NoDup_app. repeat split; try assumption.
      intros k H2 H1. exact (Hdisj k (Hin2 k H2) (Hin1 k H1)).
    + intros k. rewrite !elem_of_app. intros [H|H]; auto.
Qed.

Lemma evaluates_ret {A} (bound : nat) (a : A) : evaluates rank bound (mret a).
Proof. intros st. exists a, st, []. split; [reflexivity | apply advances_refl]. Qed.

Lemma evaluates_bind {A B} (bound : nat) (m : Eval A) (f : A -> Eval B) :
  evaluates rank bound m -> (forall a, evaluates rank bound (f a)) ->
  evaluates rank bound (m ≫= f).
Proof.
  intros Hm Hf st. unfold mbind, eval_bind, bind.
  destruct (Hm st) as (a & st1 & new1 & -> & H1).
  destruct (Hf a st1) as (b & st2 & new2 & -> & H2).
  exists b, st2, (new2 ++ new1)%list. split; [reflexivity|].
  exact (advances_trans bound st st1 st2 new1 new2 H1 H2).
Qed.

Lemma advances_plain (bound : nat) (e : event) (st : evalState) :
  plain e = true -> advances rank bound st (mkEvalState (cache st) (e :: trace st)) [e].
Proof.
  intros He.
  assert (Hd : dispatched [e] = []) by (destruct e; try discriminate; reflexivity).
  assert (Hcalls : forall fn, calls fn [e] = [])
    by (intros fn; destruct e; try discriminate; reflexivity).
  split; [auto|]. split; [reflexivity|].
  split; [constructor; [destruct e; try discriminate; reflexivity | constructor]|].
  rewrite Hd. split; [constructor|]. split; [|split].
  - intros k. split.
    + intros H. inversion H.
    + simpl. intros [Hnone [v Hv]]. congruence.
  - intros k H. inversion H.
  - intros fn. rewrite Hcalls. split; [constructor|]. intros k H. inversion H.
Qed.

End Advances.

Ltac solve_leaf own :=
  let st := fresh "st" in
  intros st; eexists _, own, _;
  split; [reflexivity |
          split; [reflexivity |
                  split; [reflexivity |
                          split; [repeat constructor |
                                  split; [reflexivity |
                                          let fn := fresh "fn" in
                                          intros fn; destruct fn; simpl; auto]]]]].

Section Acyclic.

Variable Math_sqrt : Q -> Q.
Variable ctx : context.
Variable blocksById : gmap string block.
Variable graph : graph_t.
Variable rank : string -> nat.

(** The blocks of the graph have well-founded dependencies, and the bar under
    evaluation is a bar of the series. *)
Hypothesis known_settled :
  forall k b, blocksById !! k = Some b -> settled blocksById graph rank b.
Hypothesis index_in_series : (currentIndex ctx < length (marketData ctx))%nat.

Lemma kindSpec_leaf (bound : nat) (key : string * nat) (m : Eval value) :
  leaf key m -> kindSpec rank bound key m.
Proof.
  intros Hm st. destruct (Hm st) as (v & own & st' & Heq & Hc & Ht & Hown).
  exists v, st, st', [], own.
  split; [exact Heq|]. split; [apply advances_refl|]. auto.
Qed.

Lemma kindSpec_bind {A} (bound : nat) (key : string * nat) (m : Eval A) (f : A -> Eval value) :
  evaluates rank bound m -> (forall a, leaf key (f a)) -> kindSpec rank bound key (m ≫= f).
Proof.
  intros Hm Hf st. unfold mbind, eval_bind, bind.
  destruct (Hm st) as (a & stm & inner & -> & Hadv).
  destruct (Hf a stm) as (v & own & st' & -> & Hc & Ht & Hown).
  exists v, stm, st', inner, own. auto.
Qed.

Lemma anyTargetTrue_evaluates (bound : nat) (ev : block -> Eval value) (conns : list edge) :
  (forall d, d ∈ omap (fun conn => blocksById !! edge_target conn) conns ->
             evaluates rank bound (ev d)) ->
  evaluates rank bound (anyTargetTrue blocksById ev conns).
Proof.
  induction conns as [|conn rest IH]; intros Hev; cbn [anyTargetTrue].
  - apply evaluates_ret.
  - cbn [omap list_omap] in Hev.
    destruct (blocksById !! edge_target conn) as [targetBlock|].
    + apply evaluates_bind.
      * apply Hev. left.
      * intros [[|]|q]; [apply evaluates_ret | | ];
          apply IH; intros d Hd; apply Hev; right; exact Hd.
    + apply IH, Hev.
Qed.

Lemma scanInputs_evaluates (bound : nat) (ev : block -> Eval value) (blockId : string)
    (entries : list (string * edge)) (value1 value2 : option Q) :
  (forall d, d ∈ omap (fun '(sourceId, conn) =>
                         if String.eqb (edge_target conn) blockId
                         then blocksById !! sourceId else None) entries ->
             evaluates rank bound (ev d)) ->
  evaluates rank bound (scanInputs blocksById ev blockId entries value1 value2).
Proof.
  revert value1 value2.
  induction entries as [|[sourceId conn] rest IH]; intros value1 value2 Hev; cbn [scanInputs].
  - apply evaluates_ret.
  - cbn [omap list_omap] in Hev.
    destruct (String.eqb (edge_target conn) blockId); [|apply IH, Hev].
    destruct (blocksById !! sourceId) as [sourceBlock|]; [|apply IH, Hev].
    apply evaluates_bind.
    + apply Hev. left.
    + intros sourceResult.
      destruct (String.eqb (edge_targetHandle conn) "input1");
        [apply IH; intros d Hd; apply Hev; right; exact Hd|].
      destruct (String.eqb (edge_targetHandle conn) "input2");
        apply IH; intros d Hd; apply Hev; right; exact Hd.
Qed.

(** The [switch] of [evaluateBlock], given that the calls it makes advance
    the state. *)
Lemma evaluateKind_spec (bound : nat) (ev : block -> Eval value) (b : block) :
  (forall d, d ∈ deps blocksById graph b -> evaluates rank bound (ev d)) ->
  kindSpec rank bound (cacheKey ctx b) (evaluateKind Math_sqrt ctx blocksById graph ev b).
Proof.
  intros Hev. unfold evaluateKind. unfold deps in Hev.
  destruct (String.eqb (blockType b) "entry_condition"
            || String.eqb (blockType b) "exit_condition").
  { destruct (graph_get graph (id b)) as [conns|].
    - apply kindSpec_bind; [apply anyTargetTrue_evaluates, Hev|].
      intros r. solve_leaf (@nil event).
    - apply kindSpec_leaf. solve_leaf (@nil event). }
  destruct (String.eqb (blockType b) "comparison").
  { apply kindSpec_bind.
    - destruct (value1 b) as [v1|], (value2 b) as [v2|];
        [apply evaluates_ret | apply scanInputs_evaluates, Hev ..].
    - intros [[v1|] [v2|]];
        [solve_leaf (@nil event)
        | solve_leaf [WarnMissingValues (id b) (Some v1) None]
        | solve_leaf [WarnMissingValues (id b) None (Some v2)]
        | solve_leaf [WarnMissingValues (id b) None None]]. }
  apply kindSpec_leaf.
  destruct (String.eqb (blockType b) "moving_average").
  { destruct (parseOr (period b) 20%Z) as [maPeriod|];
      [destruct (maPeriod <=? 0)%Z|].
    - solve_leaf [WarnInvalidMAPeriod (id b)].
    - solve_leaf [Call FnMA (cacheKey ctx b)].
    - solve_leaf [WarnInvalidMAPeriod (id b)]. }
  destruct (String.eqb (blockType b) "rsi").
  { destruct (parseOr (period b) 14%Z) as [rsiPeriod|];
      [destruct (Z.leb_spec rsiPeriod 0)|].
    - solve_leaf [WarnInvalidRSIPeriod (id b)].
    - destruct (calculateRSI_in_range (marketData ctx) (currentIndex ctx) rsiPeriod)
        as (r & Hr & _); [lia | exact index_in_series|].
      unfold mbind, eval_bind, bind. rewrite Hr.
      solve_leaf [Call FnRSI (cacheKey ctx b)].
    - solve_leaf [WarnInvalidRSIPeriod (id b)]. }
  destruct (String.eqb (blockType b) "bollinger_bands").
  { destruct (parseOr (period b) 20%Z) as [bbPeriod|];
      [destruct (parseOr (stdDev b) 2) as [stdDevMultiplier|]|].
    - destruct (bbPeriod <=? 0)%Z; [solve_leaf [WarnInvalidBB (id b)]|].
      destruct (bbPeriod <=? Z.of_nat (length (map close (dataWindow ctx))))%Z;
        [|solve_leaf [Call FnMA (cacheKey ctx b)]].
      destruct (String.eqb (orDefault (outputType b) "middle") "upper");
        [solve_leaf [Call FnStdDev (cacheKey ctx b); Call FnMA (cacheKey ctx b)]|].
      destruct (String.eqb (orDefault (outputType b) "middle") "lower");
        solve_leaf [Call FnStdDev (cacheKey ctx b); Call FnMA (cacheKey ctx b)].
    - solve_leaf [WarnInvalidBB (id b)].
    - solve_leaf [WarnInvalidBB (id b)]. }
  destruct (String.eqb (blockType b) "price").
  { destruct (String.eqb (orDefault (priceType b) "close") "open");
      [solve_leaf (@nil event)|].
    destruct (String.eqb (orDefault (priceType b) "close") "high");
      [solve_leaf (@nil event)|].
    destruct (String.eqb (orDefault (priceType b) "close") "low");
      solve_leaf (@nil event). }
  solve_leaf [WarnUnsupported (blockType b)].
Qed.

Lemma deps_known (b d : block) :
  d ∈ deps blocksById graph b -> exists k, blocksById !! k = Some d.
Proof.
  unfold deps.
  destruct (String.eqb (blockType b) "entry_condition"
            || String.eqb (blockType b) "exit_condition").
  { destruct (graph_get graph (id b)) as [conns|]; [|intros H; inversion H].
    intros H. apply list_elem_of_omap in H as (conn & _ & H). eauto. }
  destruct (String.eqb (blockType b) "comparison"); [|intros H; inversion H].
  assert (Hscan : d ∈ omap (fun '(sourceId, conn) =>
                              if String.eqb (edge_target conn) (id b)
                              then blocksById !! sourceId else None) (graph_entries graph) ->
                  exists k, blocksById !! k = Some d).
  { intros H. apply list_elem_of_omap in H as ([sourceId conn] & _ & H).
    destruct (String.eqb (edge_target conn) (id b)); [eauto|discriminate]. }
  destruct (value1 b), (value2 b); auto. intros H. inversion H.
Qed.

(** What a call of [evaluateBlock] on a valid block that misses the cache
    comes to, when its [switch] returns. *)
Lemma evaluateBlock_miss (n : nat) (b : block) (st st' : evalState) (v : value) :
  id b <> "" -> blockType b <> "" -> cache st !! cacheKey ctx b = None ->
  evaluateKind Math_sqrt ctx blocksById graph
    (evaluateBlock Math_sqrt ctx blocksById graph n) b
    (mkEvalState (cache st) (Dispatch (cacheKey ctx b) :: trace st)) = (Returned v, st') ->
  evaluateBlock Math_sqrt ctx blocksById graph (S n) b st
  = (Returned v, mkEvalState (<[cacheKey ctx b := v]> (cache st')) (trace st')).
Proof.
  intros Hid Hty Hmiss Hkind. cbn [evaluateBlock].
  destruct (String.eqb_spec (id b) ""); [contradiction|].
  destruct (String.eqb_spec (blockType b) ""); [contradiction|].
  unfold mbind, eval_bind, bind, cacheGet, tryCatch, emit. rewrite Hmiss, Hkind. reflexivity.
Qed.

(** Over well-founded dependencies and with more frames than the rank of the
    block, a call of [evaluateBlock] returns and advances the state; the value
    of a valid block is in the cache afterwards. *)
Lemma evaluateBlock_advances (n : nat) (b : block) (st : evalState) :
  settled blocksById graph rank b -> (rank (id b) < n)%nat ->
  exists v st' new,
    evaluateBlock Math_sqrt ctx blocksById graph n b st = (Returned v, st') /\
    advances rank (S (rank (id b))) st st' new /\
    (id b <> "" -> blockType b <> "" -> cache st' !! cacheKey ctx b = Some v).
Proof.
  revert b st. induction n as [|n IH]; intros b st Hsettled Hrank; [lia|].
  destruct (String.eqb_spec (id b) "") as [Hid|Hid].
  { exists (VBool false), (mkEvalState (cache st) (WarnInvalidBlock :: trace st)),
      [WarnInvalidBlock].
    split; [cbn [evaluateBlock]; rewrite Hid; reflexivity|].
    split; [apply advances_plain; reflexivity | contradiction]. }
  destruct (String.eqb_spec (blockType b) "") as [Hty|Hty].
  { exists (VBool false), (mkEvalState (cache st) (WarnNoBlockType (id b) :: trace st)),
      [WarnNoBlockType (id b)].
    split.
    - cbn [evaluateBlock]. apply String.eqb_neq in Hid. rewrite Hid, Hty. reflexivity.
    - split; [apply advances_plain; reflexivity | contradiction]. }
  destruct (cache st !! cacheKey ctx b) as [cached|] eqn:Hmiss.
  { exists cached, st, []. split.
    - cbn [evaluateBlock]. apply String.eqb_neq in Hid, Hty. rewrite Hid, Hty.
      unfold mbind, eval_bind, bind, cacheGet. rewrite Hmiss. reflexivity.
    - split; [apply advances_refl | auto]. }
  set (key := cacheKey ctx b) in *.
  set (st0 := mkEvalState (cache st) (Dispatch key :: trace st)).
  destruct (evaluateKind_spec (rank (id b))
              (evaluateBlock Math_sqrt ctx blocksById graph n) b) with (st := st0)
    as (v & stm & st' & inner & own & Hkind & Hadv & Hcache & Htrace & Hown).
  { intros d Hd st1.
    destruct (deps_known b d Hd) as (k & Hk).
    assert (Hlt : (rank (id d) < rank (id b))%nat).
    { unfold settled in Hsettled. rewrite Forall_forall in Hsettled. auto. }
    destruct (IH d st1 (known_settled k d Hk)) as (w & st2 & new & Heq & Hnew & _); [lia|].
    exists w, st2, new. split; [exact Heq|].
    apply (advances_mono rank (S (rank (id d)))); [lia | exact Hnew]. }
  fold key in Hkind, Hown.
  destruct Hadv as (Hc & Ht & Hcl & Hnd & Hiff & Hrk & Hcalls).
  destruct Hown as (Hocl & Hod & Hocalls).
  assert (Hfresh : key ∉ dispatched inner).
  { intros Hin. apply Hrk in Hin. unfold key, cacheKey in Hin. simpl in Hin. lia. }
  exists v, (mkEvalState (<[key := v]> (cache st')) (trace st')),
    (own ++ inner ++ [Dispatch key])%list.
  split; [apply evaluateBlock_miss; assumption|].
  split; [|intros _ _; simpl; apply lookup_insert_eq].
  assert (Hdisp : dispatched (own ++ inner ++ [Dispatch key])
                  = (dispatched inner ++ [key])%list).
  { rewrite !dispatched_app, Hod. reflexivity. }
  split; [|split; [|split; [|split; [|split; [|split]]]]]; simpl.
  - intros k w Hk. destruct (decide (k = key)) as [->|Hne]; [congruence|].
    rewrite lookup_insert_ne by auto. rewrite Hcache. apply Hc. exact Hk.
  - rewrite Htrace, Ht. simpl. rewrite <- !app_assoc. reflexivity.
  - apply Forall_app. split; [exact Hocl|]. apply Forall_app. split; [exact Hcl|].
    repeat constructor.
  - rewrite Hdisp. apply NoDup_app. split; [exact Hnd|]. split.
    + intros k Hk Hk'. apply list_elem_of_singleton in Hk'. subst k. contradiction.
    + apply NoDup_singleton.
  - intros k. rewrite Hdisp, elem_of_app, list_elem_of_singleton, Hiff. simpl. split.
    + intros [[Hnone Hsome]|Heq]; [|subst k].
      * split; [exact Hnone|]. destruct (decide (k = key)) as [->|Hne].
        -- rewrite lookup_insert_eq. eauto.
        -- rewrite lookup_insert_ne by auto. rewrite Hcache. exact Hsome.
      * split; [exact Hmiss|]. rewrite lookup_insert_eq. eauto.
    + intros [Hnone Hsome]. destruct (decide (k = key)) as [->|Hne]; [right; reflexivity|].
      left. split; [exact Hnone|].
      rewrite lookup_insert_ne in Hsome by auto. rewrite Hcache in Hsome. exact Hsome.
  - intros k. rewrite Hdisp, elem_of_app, list_elem_of_singleton. intros [Hk|Heq]; [|subst k].
    + specialize (Hrk k Hk). lia.
    + unfold key, cacheKey. simpl. lia.
  - intros fn. destruct (Hcalls fn) as [Hn Hin].
    rewrite Hdisp, !calls_app. simpl (calls fn [Dispatch key]). rewrite app_nil_r.
    destruct (Hocalls fn) as [-> | ->]; simpl.
    + split; [exact Hn|]. intros k Hk. apply elem_of_app. left. auto.
    + split.
      * apply NoDup_cons. split; [|exact Hn]. intros Hk. apply Hfresh, Hin, Hk.
      * intros k Hk. apply elem_of_cons in Hk as [Heq|Hk]; [subst k|]; apply elem_of_app;
          [right; apply list_elem_of_singleton; reflexivity | left; auto].
Qed.

Lemma anyTruthy_advances (n : nat) (candidates : list block) :
  Forall (fun b => settled blocksById graph rank b /\ (rank (id b) < n)%nat) candidates ->
  evaluates rank n (anyTruthy Math_sqrt ctx blocksById graph n candidates).
Proof.
  induction 1 as [|c rest [Hs Hr] _ IH]; cbn [anyTruthy].
  - apply evaluates_ret.
  - apply evaluates_bind.
    + intros st. destruct (evaluateBlock_advances n c st Hs Hr) as (v & st' & new & Heq & Hadv & _).
      exists v, st', new. split; [exact Heq|].
      apply (advances_mono rank (S (rank (id c)))); [lia | exact Hadv].
    + intros v. destruct (truthy v); [apply evaluates_ret | exact IH].
Qed.

(** C6, for well-founded dependencies and enough frames.  (1) In the
    evaluation of the candidates of one bar, from the cleared cache, no cache
    key enters its [switch] twice, the keys that enter are as many as the
    entries of the cache, and each indicator function is called at most once
    per key, for a key that entered.  (2) After a request for a valid block,
    and any other request after it, a request for a block of the same id
    returns the value of the first and leaves cache and trace as they are. *)
Theorem memoization (n : nat) (candidates : list block) (tr : list event) :
  Forall (fun b => settled blocksById graph rank b /\ (rank (id b) < n)%nat) candidates ->
  (exists r st' new,
      anyTruthy Math_sqrt ctx blocksById graph n candidates (mkEvalState ∅ tr)
      = (Returned r, st') /\
      trace st' = (new ++ tr)%list /\
      NoDup (dispatched new) /\
      length (dispatched new) = size (cache st') /\
      forall fn, NoDup (calls fn new) /\ forall k, k ∈ calls fn new -> k ∈ dispatched new) /\
  (forall b b' c n1 n2 m st,
      settled blocksById graph rank b -> (rank (id b) < n1)%nat ->
      settled blocksById graph rank c -> (rank (id c) < m)%nat ->
      id b <> "" -> blockType b <> "" -> id b' = id b -> blockType b' <> "" ->
      exists v st1 w st2,
        evaluateBlock Math_sqrt ctx blocksById graph n1 b st = (Returned v, st1) /\
        evaluateBlock Math_sqrt ctx blocksById graph m c st1 = (Returned w, st2) /\
        evaluateBlock Math_sqrt ctx blocksById graph (S n2) b' st2 = (Returned v, st2)).
Proof.
  intros Hcand. split.
  - destruct (anyTruthy_advances n candidates Hcand (mkEvalState ∅ tr))
      as (r & st' & new & Heq & Hc & Ht & Hcl & Hnd & Hiff & Hrk & Hcalls).
    exists r, st', new. split; [exact Heq|]. split; [exact Ht|]. split; [exact Hnd|].
    split; [|exact Hcalls].
    assert (Hdom : dom (cache st') = (list_to_set (dispatched new) : gset (string * nat))).
    { apply set_eq. intros k. rewrite elem_of_dom, elem_of_list_to_set, Hiff. simpl.
      rewrite lookup_empty. tauto. }
    rewrite <- size_dom, Hdom, size_list_to_set by exact Hnd. reflexivity.
  - intros b b' c n1 n2 m st Hsb Hrb Hsc Hrc Hid Hty Hid' Hty'.
    destruct (evaluateBlock_advances n1 b st Hsb Hrb) as (v & st1 & new1 & Heq1 & _ & Hcached).
    destruct (evaluateBlock_advances m c st1 Hsc Hrc) as (w & st2 & new2 & Heq2 & Hadv & _).
    exists v, st1, w, st2. split; [exact Heq1|]. split; [exact Heq2|].
    destruct Hadv as (Hmono & _).
    specialize (Hmono _ _ (Hcached Hid Hty)).
    cbn [evaluateBlock]. rewrite <- Hid' in Hid. apply String.eqb_neq in Hid, Hty'.
    rewrite Hid, Hty'. unfold mbind, eval_bind, bind, cacheGet.
    unfold cacheKey in *. rewrite Hid', Hmono. reflexivity.
Qed.

End Acyclic.

(** ** What the result carries *)

Lemma resultStrings_dated (marketData : list MarketData) (r : BacktestResult) (w : string) :
  datedOnBars marketData (trades r) -> In w (resultStrings r) ->
  w = "BUY" \/ w = "SELL" \/ exists d, d ∈ marketData /\ w = date d.
Proof.
  intros Hdated Hw. unfold resultStrings in Hw.
  apply in_flat_map in Hw as (t & Ht & Hw).
  unfold datedOnBars in Hdated. rewrite Forall_forall in Hdated.
  apply list_elem_of_In, Hdated in Ht as (d & Hd & Hdate).
  destruct Hw as [<-|[<-|[]]].
  - right. right. exists d. auto.
  - destruct (action t); auto.
Qed.

(** C4, as the code has it.  The result of a run has the four fields
    [trades], [finalCapital], [totalReturn] and [usingSimulatedData] and no
    list of warnings: for a strategy without blocks over a non-empty series
    the entry list is the synthesized default block, the run returns, the only
    strings in its result are the dates of bars and the two action names, and
    the lines about the missing entry blocks are on the console. *)
Theorem empty_graph_default_entry (Math_sqrt : Q -> Q) (frames : nat)
    (conns : list connection) (options : BacktestOptions) (marketData : list MarketData) :
  marketData <> [] ->
  entryCandidates [] (buildGraph conns) = [dummyEntryBlock] /\
  exists r log,
    runBacktest Math_sqrt (S frames) (mkStrategy [] conns) options (Some marketData)
    = inr (r, log) /\
    usingSimulatedData r = false /\
    (forall w, In w (resultStrings r) ->
               w = "BUY" \/ w = "SELL" \/ exists d, d ∈ marketData /\ w = date d) /\
    LogNoExplicitEntry ∈ log /\ LogNoSuitableEntry ∈ log.
Proof.
  intros Hne. split; [reflexivity|].
  destruct (simulate_returns Math_sqrt frames (mkStrategy [] conns) options marketData)
    as (st & Hrun & [new Hlog] & Hdated).
  rewrite (runBacktest_some Math_sqrt frames _ options marketData Hne), Hrun.
  eexists _, _. split; [reflexivity|]. split; [reflexivity|]. split.
  - intros w Hw. apply (resultStrings_dated marketData _ w) in Hw; [exact Hw | exact Hdated].
  - rewrite Hlog. split; apply elem_of_app; right; simpl; solve_elem.
Qed.

Lemma empty_graph_default_entry_witness :
  fourBars <> [] /\
  entryCandidates [] (buildGraph []) = [dummyEntryBlock] /\
  exists r log,
    runBacktest sqrtUnused 8 emptyStrategy tenThousand (Some fourBars) = inr (r, log) /\
    usingSimulatedData r = false /\
    (forall w, In w (resultStrings r) ->
               w = "BUY" \/ w = "SELL" \/ exists d, d ∈ fourBars /\ w = date d) /\
    LogNoExplicitEntry ∈ log /\ LogNoSuitableEntry ∈ log.
Proof.
  split; [discriminate|].
  apply (empty_graph_default_entry sqrtUnused 7 [] tenThousand fourBars). discriminate.
Defined.

(** C4 as stated fails: the result of a run on the empty strategy holds the
    strings of two trades and none that mentions blocks; the line about the
    default entry is on the console only. *)
Lemma empty_graph_no_warning :
  exists r log,
    runBacktest sqrtUnused 8 emptyStrategy tenThousand (Some fourBars) = inr (r, log) /\
    resultStrings r = ["2024-01-01"; "BUY"; "2024-01-04"; "SELL"] /\
    Forall (fun w => mentions "block" w = false) (resultStrings r) /\
    LogNoSuitableEntry ∈ log.
Proof.
  eexists _, _. split; [vm_compute; reflexivity|]. split; [reflexivity|].
  split; [repeat constructor | vm_compute; solve_elem].
Qed.

(** ** Cycles *)

(** C5, as the code has it.  (1) With a frame left for it, a call of
    [evaluateBlock] returns a value, for every graph.  (2) A call with no
    frame left raises.  (3) A call on a valid block that misses the cache and
    whose [switch] raises, the exhausted stack of a runaway recursion included,
    returns the fallback of the kind of its block and caches it.  (4) Over
    well-founded dependencies, with more frames than the rank of the block, no
    [catch] runs and no block enters its [switch] twice. *)
Theorem cycle_safety (Math_sqrt : Q -> Q) (ctx : context) (blocksById : gmap string block)
    (graph : graph_t) :
  (forall frames b st, exists v st',
      evaluateBlock Math_sqrt ctx blocksById graph (S frames) b st = (Returned v, st')) /\
  (forall b st, evaluateBlock Math_sqrt ctx blocksById graph 0 b st = (Thrown, st)) /\
  (forall frames b st st',
      id b <> "" -> blockType b <> "" -> cache st !! cacheKey ctx b = None ->
      evaluateKind Math_sqrt ctx blocksById graph
        (evaluateBlock Math_sqrt ctx blocksById graph frames) b
        (mkEvalState (cache st) (Dispatch (cacheKey ctx b) :: trace st)) = (Thrown, st') ->
      evaluateBlock Math_sqrt ctx blocksById graph (S frames) b st
      = (Returned (fallback (blockType b) ctx),
         mkEvalState (<[cacheKey ctx b := fallback (blockType b) ctx]> (cache st'))
           (ErrorEvaluating (id b) (blockType b) :: trace st'))) /\
  (forall rank,
      (forall k b, blocksById !! k = Some b -> settled blocksById graph rank b) ->
      (currentIndex ctx < length (marketData ctx))%nat ->
      forall n b st,
        settled blocksById graph rank b -> (rank (id b) < n)%nat ->
        exists v st' new,
          evaluateBlock Math_sqrt ctx blocksById graph n b st = (Returned v, st') /\
          trace st' = (new ++ trace st)%list /\ clean new /\ NoDup (dispatched new)).
Proof.
  split; [|split; [|split]].
  - intros frames b st. apply evaluateBlock_returns.
  - reflexivity.
  - intros frames b st st' Hid Hty Hmiss Hkind. cbn [evaluateBlock].
    destruct (String.eqb_spec (id b) ""); [contradiction|].
    destruct (String.eqb_spec (blockType b) ""); [contradiction|].
    unfold mbind, eval_bind, bind, cacheGet, tryCatch, emit. rewrite Hmiss, Hkind. reflexivity.
  - intros rank Hknown Hidx n b st Hs Hr.
    destruct (evaluateBlock_advances Math_sqrt ctx blocksById graph rank Hknown Hidx n b st Hs Hr)
      as (v & st' & new & Heq & (_ & Ht & Hcl & Hnd & _) & _).
    exists v, st', new. auto.
Qed.

Ltac solve_settled :=
  unfold settled;
  match goal with
  | |- Forall _ ?l => let l' := eval vm_compute in l in change l with l'
  end;
  repeat (constructor; [vm_compute; lia|]); constructor.

Lemma fanIn_settled (k : string) (b : block) :
  fanInBlocks !! k = Some b -> settled fanInBlocks fanInGraph fanInRank b.
Proof.
  unfold fanInBlocks, buildBlocksById. simpl. intros H.
  do 4 (apply lookup_insert_Some in H as [[_ <-]|[_ H]]; [solve_settled|]).
  rewrite lookup_empty in H. discriminate.
Qed.

Lemma comparison1_settled : settled fanInBlocks fanInGraph fanInRank comparison1.
Proof. solve_settled. Qed.

Lemma comparison2_settled : settled fanInBlocks fanInGraph fanInRank comparison2.
Proof. solve_settled. Qed.

Lemma cycle_safety_witness :
  (forall frames b st, exists v st',
      evaluateBlock sqrtUnused secondBar fanInBlocks fanInGraph (S frames) b st
      = (Returned v, st')) /\
  exists v st' new,
    evaluateBlock sqrtUnused secondBar fanInBlocks fanInGraph 2 comparison1 (mkEvalState ∅ [])
    = (Returned v, st') /\
    trace st' = (new ++ [])%list /\ clean new /\ NoDup (dispatched new).
Proof.
  destruct (cycle_safety sqrtUnused secondBar fanInBlocks fanInGraph)
    as (Hret & _ & _ & Hacyclic).
  split; [exact Hret|].
  apply (Hacyclic fanInRank fanIn_settled);
    [simpl; lia | exact comparison1_settled | vm_compute; lia].
Defined.

Lemma memoization_witness :
  (exists r st' new,
      anyTruthy sqrtUnused secondBar fanInBlocks fanInGraph 2 [comparison1; comparison2]
        (mkEvalState ∅ []) = (Returned r, st') /\
      trace st' = (new ++ [])%list /\
      NoDup (dispatched new) /\
      length (dispatched new) = size (cache st') /\
      forall fn, NoDup (calls fn new) /\ forall k, k ∈ calls fn new -> k ∈ dispatched new) /\
  exists v st1 w st2,
    evaluateBlock sqrtUnused secondBar fanInBlocks fanInGraph 2 comparison1 (mkEvalState ∅ [])
    = (Returned v, st1) /\
    evaluateBlock sqrtUnused secondBar fanInBlocks fanInGraph 2 comparison2 st1
    = (Returned w, st2) /\
    evaluateBlock sqrtUnused secondBar fanInBlocks fanInGraph 1 comparison1 st2
    = (Returned v, st2).
Proof.
  destruct (memoization sqrtUnused secondBar fanInBlocks fanInGraph fanInRank fanIn_settled)
    with (n := 2%nat) (candidates := [comparison1; comparison2]) (tr := @nil event)
    as [Hbar Hagain].
  - simpl. lia.
  - repeat constructor;
      first [exact comparison1_settled | exact comparison2_settled | vm_compute; lia].
  - split; [exact Hbar|].
    apply (Hagain comparison1 comparison1 comparison2 2%nat 0%nat 2%nat);
      first [exact comparison1_settled | exact comparison2_settled | vm_compute; lia
            | discriminate | reflexivity].
Defined.

(** C5 as stated fails: on two comparisons that feed each other, one call
    with six frames enters the [switch] of each block three times, the blocks
    being on the stack, and ends in the [catch] of the call that found the
    stack exhausted. *)
Lemma cycle_revisits :
  exists v st',
    evaluateBlock sqrtUnused secondBar (buildBlocksById (blocks cyclicStrategy))
      (buildGraph (connections cyclicStrategy)) 6 blockA (mkEvalState ∅ [])
    = (Returned v, st') /\
    dispatched (trace st')
    = [("B", 1%nat); ("A", 1%nat); ("B", 1%nat); ("A", 1%nat); ("B", 1%nat); ("A", 1%nat)] /\
    ~ NoDup (dispatched (trace st')) /\
    ErrorEvaluating "B" "comparison" ∈ trace st'.
Proof.
  eexists _, _. split; [vm_compute; reflexivity|]. split; [reflexivity|]. split.
  - simpl. intros H. apply NoDup_cons in H as [Hnot _]. apply Hnot. solve_elem.
  - simpl. solve_elem.
Qed.

(** C6 as stated fails, and without a cycle among the connections: an entry
    condition evaluates the comparison it points to, and the comparison
    evaluates every block that points to it, the entry condition among them.
    In one bar the [switch] of the entry condition is entered three times
    with five frames; the innermost of these calls ends in its [catch] and
    caches [false], the outermost returns [true]. *)
Lemma entry_condition_reentered :
  exists st',
    evaluateBlock sqrtUnused secondBar (buildBlocksById (blocks reentrantStrategy))
      (buildGraph (connections reentrantStrategy)) 5 entryBlockE (mkEvalState ∅ [])
    = (Returned (VBool true), st') /\
    dispatched (trace st')
    = [("P", 1%nat); ("E", 1%nat); ("C", 1%nat); ("E", 1%nat); ("C", 1%nat); ("E", 1%nat)] /\
    ~ NoDup (dispatched (trace st')) /\
    ErrorEvaluating "E" "entry_condition" ∈ trace st'.
Proof.
  eexists. split; [vm_compute; reflexivity|]. split; [reflexivity|]. split.
  - simpl. intros H. apply NoDup_cons in H as [_ H]. apply NoDup_cons in H as [Hnot _].
    apply Hnot. solve_elem.
  - simpl. solve_elem.
Qed.

(** * Further properties of the indicator library *)

Section MovingAverage.

(** X2.  Only the last [p] values count: values older than the window do not
    change the moving average. *)
Theorem calculateMA_window (older window : list Q) (p : Z) :
  (1 <= p)%Z -> Z.of_nat (length window) = p ->
  calculateMA (older ++ window) p = calculateMA window p.
Proof.
  intros Hp Hlen.
  assert (Hw : window <> []) by (destruct window; [simpl in Hlen; lia | discriminate]).
  assert (Hne : (older ++ window)%list <> []) by (destruct older; [exact Hw | discriminate]).
  rewrite (calculateMA_is_mean (older ++ window) p Hp Hne).
  rewrite (calculateMA_is_mean window p Hp Hw).
  f_equal. unfold lastN. rewrite !length_app.
  replace (Nat.min (Z.to_nat p) (length older + length window)) with (length window) by lia.
  replace (Nat.min (Z.to_nat p) (length window)) with (length window) by lia.
  replace (length older + length window - length window)%nat with (length older) by lia.
  rewrite Nat.sub_diag, drop_app_length. reflexivity.
Qed.

Lemma calculateMA_window_witness :
  (1 <= 2)%Z /\ Z.of_nat (length [12; 11]) = 2%Z /\
  calculateMA ([10; 50] ++ [12; 11]) 2 = calculateMA [12; 11] 2.
Proof.
  split; [lia|]. split; [reflexivity|].
  apply (calculateMA_window [10; 50] [12; 11] 2); [lia | reflexivity].
Defined.

End MovingAverage.

Section RelativeStrength.

Lemma sum_map_zero (f : Q -> Q) (l : list Q) :
  (forall c, In c l -> f c == 0) -> Js.sum (map f l) == 0.
Proof.
  induction l as [|c l IH]; intros H.
  - reflexivity.
  - assert (H1 : f c == 0) by (apply H; simpl; auto).
    assert (H2 : Js.sum (map f l) == 0) by (apply IH; intros c' Hc'; apply H; simpl; auto).
    simpl map. rewrite sum_cons, H1, H2. ring.
Qed.

(** X3.  When no bar of the window closed higher than the bar before it, the RSI
    is 0. *)
Theorem calculateRSI_no_gain (series : list MarketData) (atIndex : nat) (p : Z) :
  (1 <= p)%Z -> (p <= Z.of_nat atIndex)%Z -> (atIndex < length series)%nat ->
  (forall c, In c (changes series atIndex (Z.to_nat p)) -> c <= 0) ->
  exists r, calculateRSI series atIndex p = Some r /\ r == 0.
Proof.
  intros Hp Hge Hlen Hdown.
  destruct (calculateRSI_run series atIndex p Hp Hge Hlen) as (r & Hr & Heq).
  exists r. split; [exact Hr|]. rewrite Heq.
  assert (Hgain : averageGain series atIndex (Z.to_nat p) == 0).
  { unfold averageGain. rewrite sum_map_zero; [reflexivity|].
    intros c Hc. unfold gainOf. destruct (Qlt_le_dec 0 c) as [Hpos|_]; [|reflexivity].
    specialize (Hdown c Hc). lra. }
  unfold relativeStrength. rewrite Hgain.
  assert (Hloss : 0 < averageLoss series atIndex (Z.to_nat p))
    by (apply averageLoss_pos; lia).
  field. lra.
Qed.

Lemma calculateRSI_no_gain_witness :
  (1 <= 2)%Z /\ (2 <= Z.of_nat 3)%Z /\ (3 < length fallingBars)%nat /\
  (forall c, In c (changes fallingBars 3 (Z.to_nat 2)) -> c <= 0) /\
  exists r, calculateRSI fallingBars 3 2 = Some r /\ r == 0.
Proof.
  assert (H : forall c, In c (changes fallingBars 3 (Z.to_nat 2)) -> c <= 0).
  { intros c Hc. vm_compute in Hc. destruct Hc as [<-|[<-|[]]]; discriminate. }
  split; [lia|]. split; [lia|]. split; [simpl; lia|]. split; [exact H|].
  apply (calculateRSI_no_gain fallingBars 3 2); [lia | lia | simpl; lia | exact H].
Defined.

End RelativeStrength.

(** * Further properties of the graph model and the resolver *)

Section GraphModel.

Lemma graph_get_push (g : graph_t) (key k : string) (e : edge) :
  graph_get (graph_push g key e) k
  = if String.eqb key k then Some (default [] (graph_get g k) ++ [e])%list
    else graph_get g k.
Proof.
  induction g as [|[k0 es] g IH]; simpl.
  - destruct (String.eqb key k); reflexivity.
  - destruct (String.eqb_spec k0 key) as [->|Hk0]; simpl.
    + destruct (String.eqb key k); reflexivity.
    + destruct (String.eqb_spec k0 k) as [->|Hk].
      * destruct (String.eqb_spec key k) as [->|_]; [congruence | reflexivity].
      * exact IH.
Qed.

Lemma graph_get_fold (conns : list connection) (g : graph_t) (k : string) :
  graph_get (fold_left (fun g c => graph_push g (source c) (edgeOf c)) conns g) k
  = match graph_get g k, edgesFrom k conns with
    | None, [] => None
    | og, es => Some (default [] og ++ es)%list
    end.
Proof.
  revert g. induction conns as [|c conns IH]; intros g.
  - simpl. destruct (graph_get g k); [rewrite app_nil_r|]; reflexivity.
  - cbn [fold_left]. rewrite IH, graph_get_push. unfold edgesFrom. cbn [List.filter].
    destruct (String.eqb (source c) k); [|reflexivity].
    cbn [map]. fold (edgesFrom k conns).
    destruct (graph_get g k) as [es|]; simpl; rewrite <- ?app_assoc; reflexivity.
Qed.

Lemma graph_get_buildGraph (conns : list connection) (k : string) :
  graph_get (buildGraph conns) k
  = match edgesFrom k conns with
    | [] => None
    | es => Some es
    end.
Proof.
  unfold buildGraph. change (fun g c => graph_push g (source c)
                               (mkEdge (target c) (sourceHandle c) (targetHandle c)))
    with (fun g c => graph_push g (source c) (edgeOf c)).
  rewrite graph_get_fold. simpl. destruct (edgesFrom k conns); reflexivity.
Qed.

(** X4.  [graph] groups the connections by their source and keeps their order:
    the array under a key holds the edges of the connections from that key,
    and a key without a connection is absent. *)
Theorem buildGraph_get (conns : list connection) (k : string) :
  graph_get (buildGraph conns) k
  = match edgesFrom k conns with
    | [] => None
    | es => Some es
    end.
Proof. exact (graph_get_buildGraph conns k). Qed.

(** X5.  A block is terminal exactly when no connection leaves it. *)
Theorem isTerminal_buildGraph (conns : list connection) (b : block) :
  isTerminal (buildGraph conns) b = true <-> forall c, In c conns -> source c <> id b.
Proof.
  unfold isTerminal. rewrite graph_get_buildGraph. unfold edgesFrom. split.
  - intros H c Hc Heq.
    assert (Hin : In c (List.filter (fun c => String.eqb (source c) (id b)) conns)).
    { apply filter_In. split; [exact Hc|]. apply String.eqb_eq, Heq. }
    destruct (List.filter (fun c => String.eqb (source c) (id b)) conns); [inversion Hin|].
    simpl in H. discriminate.
  - intros H.
    destruct (List.filter (fun c => String.eqb (source c) (id b)) conns) as [|c l] eqn:E;
      [reflexivity|].
    assert (Hin : In c (List.filter (fun c => String.eqb (source c) (id b)) conns))
      by (rewrite E; left; reflexivity).
    apply filter_In in Hin as [Hc Heq]. apply String.eqb_eq in Heq.
    exfalso. exact (H c Hc Heq).
Qed.

Lemma isTerminal_buildGraph_witness :
  (forall c, In c (connections fanInStrategy) -> source c <> id comparison1) /\
  isTerminal (buildGraph (connections fanInStrategy)) comparison1 = true.
Proof.
  assert (H : forall c, In c (connections fanInStrategy) -> source c <> id comparison1).
  { intros c Hc. simpl in Hc. destruct Hc as [<-|[<-|[<-|[<-|[]]]]]; discriminate. }
  split; [exact H|].
  apply (isTerminal_buildGraph (connections fanInStrategy) comparison1), H.
Defined.

Lemma graph_entries_push (g : graph_t) (key : string) (e : edge) :
  graph_entries (graph_push g key e) ≡ₚ (key, e) :: graph_entries g.
Proof.
  induction g as [|[k0 es] g IH]; simpl.
  - reflexivity.
  - destruct (String.eqb_spec k0 key) as [->|_]; simpl.
    + rewrite map_app. simpl. rewrite <- app_assoc. simpl.
      symmetry. apply Permutation_middle.
    + rewrite IH. symmetry. apply Permutation_middle.
Qed.

(** X6.  No connection is lost or doubled on the way into [graph]: its entries
    are the connections, each with its source, up to their order. *)
Theorem graph_entries_buildGraph (conns : list connection) :
  graph_entries (buildGraph conns) ≡ₚ map (fun c => (source c, edgeOf c)) conns.
Proof.
  unfold buildGraph. change (fun g c => graph_push g (source c)
                               (mkEdge (target c) (sourceHandle c) (targetHandle c)))
    with (fun g c => graph_push g (source c) (edgeOf c)).
  assert (H : forall g,
             graph_entries (fold_left (fun g c => graph_push g (source c) (edgeOf c)) conns g)
             ≡ₚ (graph_entries g ++ map (fun c => (source c, edgeOf c)) conns)%list).
  { induction conns as [|c conns IH]; intros g; cbn [fold_left map].
    - rewrite app_nil_r. reflexivity.
    - rewrite IH, graph_entries_push. simpl. apply Permutation_middle. }
  rewrite H. reflexivity.
Qed.

Lemma find_last (k : string) (l : list block) (b : block) :
  List.find (fun x => String.eqb (id x) k) (l ++ [b])
  = match List.find (fun x => String.eqb (id x) k) l with
    | Some x => Some x
    | None => if String.eqb (id b) k then Some b else None
    end.
Proof.
  induction l as [|x l IH]; simpl; [reflexivity|].
  destruct (String.eqb (id x) k); [reflexivity | exact IH].
Qed.

Lemma blocksById_fold (l : list block) (m : gmap string block) (k : string) :
  fold_left (fun m b => <[id b := b]> m) l m !! k
  = match List.find (fun x => String.eqb (id x) k) (rev l) with
    | Some x => Some x
    | None => m !! k
    end.
Proof.
  revert m. induction l as [|b l IH]; intros m; [reflexivity|].
  cbn [fold_left rev]. rewrite IH, find_last.
  destruct (List.find (fun x => String.eqb (id x) k) (rev l)); [reflexivity|].
  destruct (String.eqb_spec (id b) k) as [<-|Hne].
  - apply lookup_insert_eq.
  - apply lookup_insert_ne, Hne.
Qed.

Lemma blocksById_later (later : list block) (m : gmap string block) (k : string) :
  (forall b, In b later -> id b <> k) ->
  fold_left (fun m b => <[id b := b]> m) later m !! k = m !! k.
Proof.
  revert m. induction later as [|b later IH]; intros m Hnone; [reflexivity|].
  cbn [fold_left]. rewrite IH by (intros b' Hb'; apply Hnone; right; exact Hb').
  apply lookup_insert_ne, Hnone. left. reflexivity.
Qed.

(** X7.  [blocksById] maps an id to the last block of the strategy that carries
    it: a block found under a key is a block of the strategy with that id; a
    block that no later block shares its id with is found under its id,
    whatever comes before it; and so, when the ids are distinct, is every
    block. *)
Theorem buildBlocksById_lookup (l : list block) :
  (forall k b, buildBlocksById l !! k = Some b -> In b l /\ id b = k) /\
  (forall earlier b later,
      l = (earlier ++ b :: later)%list -> (forall b', In b' later -> id b' <> id b) ->
      buildBlocksById l !! id b = Some b) /\
  (NoDup (map id l) -> forall b, In b l -> buildBlocksById l !! id b = Some b).
Proof.
  unfold buildBlocksById. split; [|split].
  2:{ intros earlier b later -> Hlater.
      rewrite fold_left_app. cbn [fold_left].
      rewrite (blocksById_later later _ (id b) Hlater). apply lookup_insert_eq. }
  - intros k b H. rewrite blocksById_fold, lookup_empty in H.
    destruct (List.find (fun x => String.eqb (id x) k) (rev l)) as [x|] eqn:F; [|discriminate].
    injection H as ->. apply find_some in F as [Hin Heq].
    split; [apply in_rev, Hin | apply String.eqb_eq, Heq].
  - intros Hnd b Hb. rewrite blocksById_fold.
    destruct (List.find (fun x => String.eqb (id x) (id b)) (rev l)) as [x|] eqn:F.
    + apply find_some in F as [Hin Heq]. apply in_rev in Hin. apply String.eqb_eq in Heq.
      f_equal. clear -Hnd Hb Hin Heq.
      induction l as [|y l IH]; [inversion Hb|].
      simpl in Hnd. apply NoDup_cons in Hnd as [Hy Hnd].
      destruct Hb as [->|Hb], Hin as [->|Hin]; auto.
      * exfalso. apply Hy. rewrite <- Heq. apply list_elem_of_In, in_map, Hin.
      * exfalso. apply Hy. rewrite Heq. apply list_elem_of_In, in_map, Hb.
    + exfalso. pose proof (find_none _ _ F b (proj1 (in_rev l b) Hb)) as Hf.
      simpl in Hf. rewrite String.eqb_refl in Hf. discriminate.
Qed.

End GraphModel.

Lemma buildBlocksById_lookup_witness :
  (buildBlocksById (blocks fanInStrategy) !! "c1" = Some comparison1 ->
   In comparison1 (blocks fanInStrategy) /\ id comparison1 = "c1") /\
  buildBlocksById [taggedExit; comparison2] !! id comparison2 = Some comparison2 /\
  buildBlocksById (blocks fanInStrategy) !! id comparison1 = Some comparison1.
Proof.
  destruct (buildBlocksById_lookup (blocks fanInStrategy)) as (Hfound & _ & Hall).
  destruct (buildBlocksById_lookup [taggedExit; comparison2]) as (_ & Hlast & _).
  split; [apply Hfound|].
  split; [apply (Hlast [taggedExit] comparison2 []); [reflexivity | intros b' []]|].
  apply Hall; [|simpl; auto].
  apply (bool_decide_unpack _). vm_compute. exact I.
Defined.

Section ResolverRules.

Variable blocks : list block.
Variable graph : graph_t.

(** X8.  The entry list is never empty; it holds blocks of the strategy, or the
    synthesized default block alone; the exit list holds blocks of the
    strategy. *)
Theorem resolver_provenance :
  entryCandidates blocks graph <> [] /\
  (forall b, In b (entryCandidates blocks graph) -> In b blocks \/ b = dummyEntryBlock) /\
  (forall b, In b (exitCandidates blocks graph) -> In b blocks).
Proof.
  split; [|split].
  - destruct (entryCandidates_cases blocks graph) as [[Hne ->]|(b & _ & ->)];
      [exact Hne | discriminate].
  - intros b Hb. unfold entryCandidates, resolve in Hb.
    destruct (List.filter (isEntryBlock graph) blocks) as [|e rest] eqn:E.
    + destruct (find isIndicatorOrPrice blocks) as [x|] eqn:F; simpl in Hb.
      * destruct Hb as [<-|[]]. left. apply find_some in F. apply F.
      * destruct Hb as [<-|[]]. right. reflexivity.
    + left. assert (H : In b (e :: rest)) by exact Hb.
      rewrite <- E in H. apply filter_In in H. apply H.
  - intros b Hb. rewrite exitCandidates_eq in Hb. apply filter_In in Hb. apply Hb.
Qed.

(** X9.  A block of kind [entry_condition] is always an entry candidate and a
    block of kind [exit_condition] always an exit candidate. *)
Theorem resolver_explicit (b : block) :
  In b blocks ->
  (blockType b = "entry_condition" -> In b (entryCandidates blocks graph)) /\
  (blockType b = "exit_condition" -> In b (exitCandidates blocks graph)).
Proof.
  intros Hb. split; intros Hty.
  - assert (H0 : In b (List.filter (isEntryBlock graph) blocks)).
    { apply filter_In. split; [exact Hb|]. unfold isEntryBlock. rewrite Hty. reflexivity. }
    unfold entryCandidates, resolve.
    destruct (List.filter (isEntryBlock graph) blocks); [contradiction | exact H0].
  - rewrite exitCandidates_eq. apply filter_In. split; [exact Hb|].
    unfold isExitBlock. rewrite Hty. reflexivity.
Qed.

(** X10.  Without an entry condition and without a terminal comparison that may
    serve as entry, the entry list is the first block, in the order of the
    strategy, of kind [moving_average], [price], [rsi] or [bollinger_bands],
    and the default block when there is none. *)
Theorem resolver_fallback :
  (forall x, In x blocks -> isEntryBlock graph x = false) ->
  (forall before b after,
      blocks = (before ++ b :: after)%list ->
      (forall x, In x before -> isIndicatorOrPrice x = false) ->
      isIndicatorOrPrice b = true ->
      entryCandidates blocks graph = [b]) /\
  ((forall x, In x blocks -> isIndicatorOrPrice x = false) ->
   entryCandidates blocks graph = [dummyEntryBlock]).
Proof.
  intros Hnone.
  assert (Hfilter : List.filter (isEntryBlock graph) blocks = []).
  { destruct (List.filter (isEntryBlock graph) blocks) as [|e rest] eqn:E; [reflexivity|].
    assert (He : In e (List.filter (isEntryBlock graph) blocks)) by (rewrite E; left; reflexivity).
    apply filter_In in He as [Hin He]. rewrite (Hnone e Hin) in He. discriminate. }
  unfold entryCandidates, resolve. rewrite Hfilter. split.
  - intros before b after -> Hbefore Hb.
    assert (Hfind : find isIndicatorOrPrice (before ++ b :: after) = Some b).
    { clear -Hbefore Hb. induction before as [|x before IH]; simpl.
      - rewrite Hb. reflexivity.
      - rewrite (Hbefore x) by (left; reflexivity). apply IH.
        intros y Hy. apply Hbefore. right. exact Hy. }
    rewrite Hfind. reflexivity.
  - intros Hno.
    destruct (find isIndicatorOrPrice blocks) as [x|] eqn:F; [|reflexivity].
    apply find_some in F as [Hin Hx]. rewrite (Hno x Hin) in Hx. discriminate.
Qed.

End ResolverRules.

Lemma resolver_provenance_witness :
  entryCandidates [untagged; taggedExit] [] <> [] /\
  (In untagged (entryCandidates [untagged; taggedExit] []) ->
   In untagged [untagged; taggedExit] \/ untagged = dummyEntryBlock) /\
  (In taggedExit (exitCandidates [untagged; taggedExit] []) ->
   In taggedExit [untagged; taggedExit]).
Proof.
  destruct (resolver_provenance [untagged; taggedExit] []) as (H1 & H2 & H3).
  split; [exact H1|]. split; [apply H2 | apply H3].
Defined.

Lemma resolver_explicit_witness :
  In entryBlockE (blocks reentrantStrategy) /\
  In entryBlockE (entryCandidates (blocks reentrantStrategy)
                    (buildGraph (connections reentrantStrategy))).
Proof.
  assert (H : In entryBlockE (blocks reentrantStrategy)) by (left; reflexivity).
  split; [exact H|].
  apply (resolver_explicit (blocks reentrantStrategy)
           (buildGraph (connections reentrantStrategy)) entryBlockE H).
  reflexivity.
Defined.

Lemma resolver_fallback_witness :
  (forall x, In x [averageBlock; priceBlock] -> isEntryBlock [] x = false) /\
  entryCandidates [averageBlock; priceBlock] [] = [averageBlock].
Proof.
  assert (H : forall x, In x [averageBlock; priceBlock] -> isEntryBlock [] x = false).
  { intros x [<-|[<-|[]]]; reflexivity. }
  split; [exact H|].
  destruct (resolver_fallback [averageBlock; priceBlock] [] H) as [Hfirst _].
  apply (Hfirst [] averageBlock [priceBlock]); [reflexivity | intros x [] | reflexivity].
Defined.

(** * Further properties of the simulator *)

Section Trades.

Variable Math_sqrt : Q -> Q.
Variable frames : nat.
Variable s : strategy.
Variable options : BacktestOptions.
Variable marketData : list MarketData.

Let usePrice := usePriceType options.

Lemma transition_priced (d : MarketData) (st st' : runState) :
  d ∈ marketData -> pricedOnBars usePrice marketData (ledger st) ->
  transition usePrice d st st' -> pricedOnBars usePrice marketData (ledger st').
Proof.
  intros Hd Hl [log _ _|mark log _ _|log _|]; simpl; try exact Hl;
    apply Forall_app; (split; [exact Hl|]); repeat constructor; exists d; auto.
Qed.

(** X11.  Every trade of a run is dated on a bar of the series and priced at that
    bar's value of the price field the caller selected, entries and exits
    alike. *)
Theorem trades_priced :
  exists st,
    simulate Math_sqrt (S frames) s options marketData = Returned st /\
    pricedOnBars usePrice marketData (ledger st).
Proof.
  destruct (simulateBars_invariant Math_sqrt frames s options marketData
              (fun st => pricedOnBars usePrice marketData (ledger st))
              (fun d => d ∈ marketData) marketData) as (st & Hrun & Hpriced).
  - intros d st st' Hd Hl Htr. exact (transition_priced d st st' Hd Hl Htr).
  - constructor.
  - apply Forall_forall. auto.
  - exists (finalExit usePrice marketData st). unfold simulate. rewrite Hrun.
    split; [reflexivity|]. unfold finalExit.
    destruct (Qlt_bool 0 (position st)); [|exact Hpriced].
    destruct (last marketData) as [lastDay|] eqn:Hlast; [|exact Hpriced]. simpl.
    apply Forall_app. split; [exact Hpriced|]. repeat constructor. exists lastDay.
    split; [|auto]. apply last_Some in Hlast as (l' & ->). apply elem_of_app. right.
    apply list_elem_of_singleton. reflexivity.
Qed.

Lemma untouched_transition (cap : Q) (d : MarketData) (st st' : runState) :
  untouched cap st -> transition usePrice d st st' -> untouched cap st'.
Proof.
  intros Hst [log _ _|mark log _ _|log _|]; try exact Hst;
    right; simpl; intros H; apply app_eq_nil in H as [_ H]; discriminate.
Qed.

(** X13.  A run whose result holds no trade returns the initial capital as final
    capital, and a total return of 0 when the initial capital is not 0. *)
Theorem no_trade_no_change (fetched : option (list MarketData))
    (r : BacktestResult) (log : list event) :
  runBacktest Math_sqrt (S frames) s options fetched = inr (r, log) ->
  trades r = [] ->
  finalCapital r = initialCapital options /\
  (~ initialCapital options == 0 -> totalReturn r == 0).
Proof.
  intros Hrun Hnone. destruct fetched as [[|d0 rest]|]; try discriminate.
  set (md := d0 :: rest) in *.
  destruct (simulateBars_invariant Math_sqrt frames s options md
              (untouched (initialCapital options)) (fun _ => True) md)
    as (st & Hbars & Hst).
  - intros d st st' _. apply untouched_transition.
  - left. auto.
  - apply Forall_forall. auto.
  - unfold runBacktest in Hrun. fold md in Hrun. unfold simulate in Hrun.
    rewrite Hbars in Hrun. injection Hrun as <- <-. simpl in Hnone |- *.
    unfold finalExit in *.
    destruct (Qlt_bool 0 (position st)) eqn:Hlong.
    + destruct (last md) as [lastDay|]; simpl in Hnone.
      * apply app_eq_nil in Hnone as [_ Hnone]. discriminate.
      * destruct Hst as [(_ & -> & Hp)|Hne]; [|contradiction].
        rewrite Hp in Hlong. discriminate.
    + destruct Hst as [(_ & -> & _)|Hne]; [|contradiction].
      split; [reflexivity|]. intros Hcap. field. exact Hcap.
Qed.

End Trades.

Lemma trades_priced_witness :
  exists st,
    simulate sqrtUnused 8 danglingStrategy tenThousand fourBars = Returned st /\
    pricedOnBars PriceClose fourBars (ledger st).
Proof. exact (trades_priced sqrtUnused 7 danglingStrategy tenThousand fourBars). Defined.

Lemma no_trade_no_change_witness :
  exists r log,
    runBacktest sqrtUnused 8 idleStrategy tenThousand (Some fourBars) = inr (r, log) /\
    trades r = [] /\
    finalCapital r = initialCapital tenThousand /\
    (~ initialCapital tenThousand == 0 -> totalReturn r == 0).
Proof.
  eexists _, _. split; [vm_compute; reflexivity|]. split; [reflexivity|].
  eapply (no_trade_no_change sqrtUnused 7 idleStrategy tenThousand (Some fourBars));
    [vm_compute; reflexivity | reflexivity].
Defined.

Section FinalExit.

Import Floats.
Local Open Scope float_scope.

Variable usePrice : PriceType.
Variable allData : list Binary64.MarketData.

(** X14.  Over binary64, a buy on the last bar that leaves units is closed by
    the final exit: the ledger ends with a buy and a sale of the same date and
    price and the position is 0.  The capital returned is the units times the
    price, the quotient and the product each rounded. *)
Theorem last_bar_round_trip (lastDay : Binary64.MarketData) (st : Binary64.runState)
    (log : list Binary64.event) :
  last allData = Some lastDay ->
  (0 <? Binary64.capital st / Binary64.priceOf usePrice lastDay) = true ->
  let final := Binary64.finalExit usePrice allData (Binary64.buy usePrice lastDay st log) in
  Binary64.ledger final
  = (Binary64.ledger st
     ++ [Binary64.mkTrade (Binary64.date lastDay) BUY (Binary64.priceOf usePrice lastDay);
         Binary64.mkTrade (Binary64.date lastDay) SELL (Binary64.priceOf usePrice lastDay)])%list /\
  Binary64.position final = 0 /\
  Binary64.capital final
  = Binary64.capital st / Binary64.priceOf usePrice lastDay
    * Binary64.priceOf usePrice lastDay.
Proof.
  intros Hlast Hunits. cbv zeta. unfold Binary64.finalExit.
  cbn [Binary64.buy Binary64.position]. rewrite Hunits, Hlast.
  cbn [Binary64.sell Binary64.buy Binary64.ledger Binary64.position Binary64.capital].
  split; [rewrite <- app_assoc; reflexivity|]. split; reflexivity.
Qed.

End FinalExit.

Section FinalExitSample.

Import Floats.
Local Open Scope float_scope.

Lemma last_bar_round_trip_witness :
  let lastDay := Binary64.bar "2024-03-01" 139 in
  let st := Binary64.mkRunState 10000 0 0 [] [] in
  let final := Binary64.finalExit PriceClose [lastDay]
                 (Binary64.buy PriceClose lastDay st []) in
  (0 <? Binary64.capital st / Binary64.priceOf PriceClose lastDay) = true /\
  (Binary64.ledger final
   = (Binary64.ledger st
      ++ [Binary64.mkTrade "2024-03-01" BUY 139; Binary64.mkTrade "2024-03-01" SELL 139])%list /\
   Binary64.position final = 0 /\
   Binary64.capital final
   = Binary64.capital st / Binary64.priceOf PriceClose lastDay
     * Binary64.priceOf PriceClose lastDay) /\
  (Binary64.capital final <? 10000) = true.
Proof.
  cbv zeta. split; [reflexivity|]. split; [|reflexivity].
  apply (last_bar_round_trip PriceClose [Binary64.bar "2024-03-01" 139]
           (Binary64.bar "2024-03-01" 139) (Binary64.mkRunState 10000 0 0 [] []) []);
    reflexivity.
Defined.

End FinalExitSample.

(** X15.  [runBacktest] fails exactly for missing data: when the fetch threw and
    when the series is empty; otherwise it returns a result. *)
Theorem runBacktest_errors (Math_sqrt : Q -> Q) (frames : nat) (s : strategy)
    (options : BacktestOptions) (fetched : option (list MarketData)) :
  match fetched with
  | None => runBacktest Math_sqrt (S frames) s options fetched = inl FetchFailed
  | Some [] => runBacktest Math_sqrt (S frames) s options fetched = inl NoMarketData
  | Some (_ :: _) =>
    exists r log, runBacktest Math_sqrt (S frames) s options fetched = inr (r, log)
  end.
Proof.
  destruct fetched as [[|d rest]|]; try reflexivity.
  apply runBacktest_returns. discriminate.
Qed.

(** * Further properties of the evaluation engine *)

Section Blocks.

Variable Math_sqrt : Q -> Q.
Variable ctx : context.
Variable blocksById : gmap string block.
Variable graph : graph_t.

Let eval := evaluateBlock Math_sqrt ctx blocksById graph.

(** What a call on a valid block that misses the cache comes to, when its
    [switch] throws. *)
Lemma evaluateBlock_caught (n : nat) (b : block) (st st' : evalState) :
  id b <> "" -> blockType b <> "" -> cache st !! cacheKey ctx b = None ->
  evaluateKind Math_sqrt ctx blocksById graph (eval n) b
    (mkEvalState (cache st) (Dispatch (cacheKey ctx b) :: trace st)) = (Thrown, st') ->
  eval (S n) b st
  = (Returned (fallback (blockType b) ctx),
     mkEvalState (<[cacheKey ctx b := fallback (blockType b) ctx]> (cache st'))
       (ErrorEvaluating (id b) (blockType b) :: trace st')).
Proof.
  intros Hid Hty Hmiss Hkind. unfold eval in *. cbn [evaluateBlock].
  destruct (String.eqb_spec (id b) ""); [contradiction|].
  destruct (String.eqb_spec (blockType b) ""); [contradiction|].
  unfold mbind, eval_bind, bind, cacheGet, tryCatch, emit. rewrite Hmiss, Hkind. reflexivity.
Qed.

(** X16.  A comparison with two literals compares them and looks at no connection:
    with a single frame and whatever the graph, it evaluates no other block. *)
Theorem comparison_literals (frames : nat) (b : block) (st : evalState) (v1 v2 : Q) :
  id b <> "" -> blockType b = "comparison" ->
  value1 b = Some v1 -> value2 b = Some v2 ->
  cache st !! cacheKey ctx b = None ->
  let result := VBool (compareValues (orDefault (comparisonType b) "greater_than") v1 v2) in
  eval (S frames) b st
  = (Returned result,
     mkEvalState (<[cacheKey ctx b := result]> (cache st))
       (Dispatch (cacheKey ctx b) :: trace st)).
Proof.
  intros Hid Hty H1 H2 Hmiss result. unfold eval.
  apply (evaluateBlock_miss Math_sqrt ctx blocksById graph frames b st
           (mkEvalState (cache st) (Dispatch (cacheKey ctx b) :: trace st)) result);
    [exact Hid | rewrite Hty; discriminate | exact Hmiss |].
  unfold evaluateKind. rewrite Hty, H1, H2. reflexivity.
Qed.

Lemma scanInputs_ignored (ev : block -> Eval value) (blockId : string)
    (entries : list (string * edge)) (v1 v2 : option Q) (st : evalState) :
  Forall (fun '(_, conn) =>
            edge_target conn = blockId ->
            edge_targetHandle conn <> "input1" /\ edge_targetHandle conn <> "input2") entries ->
  forall r st', scanInputs blocksById ev blockId entries v1 v2 st = (Returned r, st') ->
                r = (v1, v2).
Proof.
  intros Hall. revert st. induction Hall as [|[sourceId conn] rest Hconn _ IH]; intros st r st'.
  - cbn [scanInputs]. intros H. injection H as <- _. reflexivity.
  - cbn [scanInputs].
    destruct (String.eqb_spec (edge_target conn) blockId) as [Htarget|_]; [|apply IH].
    destruct (blocksById !! sourceId) as [sourceBlock|]; [|apply IH].
    destruct (Hconn Htarget) as [Hin1 Hin2].
    apply String.eqb_neq in Hin1, Hin2.
    unfold mbind, eval_bind, bind. destruct (ev sourceBlock st) as [[w|] st1]; [|discriminate].
    rewrite Hin1, Hin2. apply IH.
Qed.

(** X17.  A comparison that lacks a literal and is fed only through ports other
    than [input1] and [input2] is [false] at every bar, whatever its inputs
    are worth. *)
Theorem comparison_ports_ignored (frames : nat) (b : block) (st : evalState) :
  id b <> "" -> blockType b = "comparison" ->
  value1 b = None \/ value2 b = None ->
  portsUnused graph (id b) ->
  cache st !! cacheKey ctx b = None ->
  exists st', eval (S frames) b st = (Returned (VBool false), st').
Proof.
  intros Hid Hty Hlit Hports Hmiss.
  set (st0 := mkEvalState (cache st) (Dispatch (cacheKey ctx b) :: trace st)).
  assert (Hty' : blockType b <> "") by (rewrite Hty; discriminate).
  destruct (evaluateKind Math_sqrt ctx blocksById graph (eval frames) b st0)
    as [[v|] st1] eqn:Hkind.
  - assert (Hv : v = VBool false).
    { unfold evaluateKind in Hkind. rewrite Hty in Hkind. cbn [String.eqb Ascii.eqb Bool.eqb orb] in Hkind.
      unfold mbind, eval_bind, bind in Hkind.
      destruct (value1 b) as [v1|] eqn:E1, (value2 b) as [v2|] eqn:E2;
        try (destruct Hlit; discriminate);
        match type of Hkind with
        | context [scanInputs ?a ?e ?i ?l ?x ?y ?s] =>
          destruct (scanInputs a e i l x y s) as [[r|] st2] eqn:Hs; [|discriminate];
          apply (scanInputs_ignored e i l x y s Hports) in Hs; subst r;
          cbn in Hkind; injection Hkind as <- _; reflexivity
        end. }
    subst v. eexists. apply (evaluateBlock_miss Math_sqrt ctx blocksById graph); eassumption.
  - eexists.
    rewrite (evaluateBlock_caught frames b st st1 Hid Hty' Hmiss Hkind).
    rewrite Hty. reflexivity.
Qed.

Lemma rsiLoop_past_end (series : list MarketData) (count i : nat) (gains losses : Q) :
  (1 <= count)%nat -> (length series <= i + count)%nat ->
  rsiLoop series i count gains losses = None.
Proof.
  revert i gains losses. induction count as [|count IH]; intros i gains losses Hc Hlen; [lia|].
  cbn [rsiLoop].
  destruct (nth_error series (i + 1)) as [next|] eqn:Hnext; [|reflexivity].
  destruct (nth_error series i) as [cur|]; [|reflexivity].
  assert (Hin : (i + 1 < length series)%nat)
    by (apply nth_error_Some; rewrite Hnext; discriminate).
  destruct (Qlt_le_dec 0 (close next - close cur)); apply IH; lia.
Qed.

(** X18.  For a period [p >= 1], [calculateRSI] throws exactly when the index is at
    least [p] and past the end of the series. *)
Theorem calculateRSI_throws (series : list MarketData) (atIndex : nat) (p : Z) :
  (1 <= p)%Z ->
  (calculateRSI series atIndex p = None <->
   (p <= Z.of_nat atIndex)%Z /\ (length series <= atIndex)%nat).
Proof.
  intros Hp. split.
  - intros Hnone.
    destruct (Z.lt_ge_cases (Z.of_nat atIndex) p) as [Hlt|Hge];
      [rewrite (calculateRSI_short series atIndex p Hlt) in Hnone; discriminate|].
    split; [exact Hge|].
    destruct (le_lt_dec (length series) atIndex) as [Hle|Hlt]; [exact Hle|].
    destruct (calculateRSI_in_range series atIndex p Hp Hlt) as (r & Hr & _). congruence.
  - intros [Hge Hlen]. unfold calculateRSI.
    destruct (Z.ltb_spec (Z.of_nat atIndex) p) as [Hlt|_]; [lia|].
    rewrite rsiLoop_past_end; [reflexivity | lia | lia].
Qed.

End Blocks.

Lemma comparison_literals_witness :
  id literalComparison <> "" /\ blockType literalComparison = "comparison" /\
  evaluateBlock sqrtUnused secondBar ∅ [] 1 literalComparison (mkEvalState ∅ [])
  = (Returned (VBool true),
     mkEvalState (<[("c", 1%nat) := VBool true]> ∅) [Dispatch ("c", 1%nat)]).
Proof.
  split; [discriminate|]. split; [reflexivity|].
  apply (comparison_literals sqrtUnused secondBar ∅ [] 0 literalComparison
           (mkEvalState ∅ []) 2 1); try reflexivity. discriminate.
Defined.

Lemma templateComparison_ports :
  portsUnused (buildGraph (connections templateStrategy)) (id templateComparison).
Proof.
  unfold portsUnused.
  match goal with
  | |- Forall _ ?l => let l' := eval vm_compute in l in change l with l'
  end.
  repeat (constructor; [simpl; intros _; split; discriminate|]). constructor.
Qed.

Lemma comparison_ports_ignored_witness :
  portsUnused (buildGraph (connections templateStrategy)) (id templateComparison) /\
  exists st',
    evaluateBlock sqrtUnused secondBar (buildBlocksById (blocks templateStrategy))
      (buildGraph (connections templateStrategy)) 3 templateComparison (mkEvalState ∅ [])
    = (Returned (VBool false), st').
Proof.
  split; [exact templateComparison_ports|].
  apply (comparison_ports_ignored sqrtUnused secondBar
           (buildBlocksById (blocks templateStrategy))
           (buildGraph (connections templateStrategy)) 2 templateComparison);
    [discriminate | reflexivity | left; reflexivity | exact templateComparison_ports
    | reflexivity].
Defined.

Lemma calculateRSI_throws_witness :
  (1 <= 2)%Z /\
  (calculateRSI fourBars 7 2 = None <-> (2 <= Z.of_nat 7)%Z /\ (length fourBars <= 7)%nat).
Proof. split; [lia | apply (calculateRSI_throws fourBars 7 2); lia]. Defined.

Section RsiBlock.

Import Floats.

Variable ctx : Binary64.context.
Variable blocksById : gmap string Binary64.block.
Variable graph : graph_t.

Lemma rsiLoop64_past_end (series : list Binary64.MarketData) (count i : nat)
    (gains losses : float) :
  (1 <= count)%nat -> (length series <= i + count)%nat ->
  Binary64.rsiLoop series i count gains losses = None.
Proof.
  revert i gains losses. induction count as [|count IH]; intros i gains losses Hc Hlen; [lia|].
  cbn [Binary64.rsiLoop].
  destruct (nth_error series (i + 1)) as [next|] eqn:Hnext; [|reflexivity].
  destruct (nth_error series i) as [cur|]; [|reflexivity].
  assert (Hin : (i + 1 < length series)%nat)
    by (apply nth_error_Some; rewrite Hnext; discriminate).
  destruct (PrimFloat.ltb 0 (PrimFloat.sub (Binary64.close next) (Binary64.close cur)));
    apply IH; lia.
Qed.

(** X19.  Over binary64, an RSI block that misses the cache evaluates to a
    number, which it caches, and never to an exception.  The number is [50]
    when the period parameter is invalid, when fewer bars than the period
    precede the current one, and, by the [catch], when the index is past the
    end of the series; otherwise it is [100 - 100 / (1 + rs)] for the two sums
    of the loop of [calculateRSI], with an average loss that is neither [0]
    nor [NaN]. *)
Theorem rsi_block_value (frames : nat) (b : Binary64.block) (st : Binary64.evalState) :
  Binary64.id b <> "" -> Binary64.blockType b = "rsi" ->
  Binary64.cache st !! Binary64.cacheKey ctx b = None ->
  exists r st',
    Binary64.evaluateBlock ctx blocksById graph (S frames) b st
    = (Returned (Binary64.VNum r), st') /\
    Binary64.cache st' = <[Binary64.cacheKey ctx b := Binary64.VNum r]> (Binary64.cache st) /\
    match parseOr (Binary64.period b) 14%Z with
    | None => r = 50%float
    | Some p =>
      if (p <=? 0)%Z then r = 50%float
      else if (Z.of_nat (Binary64.currentIndex ctx) <? p)%Z then r = 50%float
      else if (Binary64.currentIndex ctx <? length (Binary64.marketData ctx))%nat
      then exists gains losses,
             Binary64.rsiLoop (Binary64.marketData ctx)
               (Binary64.currentIndex ctx - Z.to_nat p) (Z.to_nat p) 0 0
             = Some (gains, losses) /\
             Binary64.Js.falsy (Binary64.orFloor (losses / Binary64.Js.ofZ p)) = false /\
             r = (100 - 100 / (1 + gains / Binary64.Js.ofZ p
                                   / Binary64.orFloor (losses / Binary64.Js.ofZ p)))%float
      else r = 50%float
    end.
Proof.
  intros Hid Hty Hmiss. cbn [Binary64.evaluateBlock].
  destruct (String.eqb_spec (Binary64.id b) ""); [contradiction|].
  rewrite Hty. cbn [String.eqb Ascii.eqb Bool.eqb].
  unfold mbind, Binary64.eval_bind, Binary64.bind, Binary64.cacheGet, Binary64.tryCatch,
    Binary64.emit.
  rewrite Hmiss. cbn [Binary64.cache Binary64.trace].
  unfold Binary64.evaluateKind. rewrite Hty.
  cbn [String.eqb Ascii.eqb Bool.eqb orb].
  destruct (parseOr (Binary64.period b) 14%Z) as [p|].
  2:{ eexists. eexists. split; [reflexivity|]. split; reflexivity. }
  destruct (Z.leb_spec p 0) as [Hle|Hpos].
  { eexists. eexists. split; [reflexivity|]. split; reflexivity. }
  unfold mbind, Binary64.eval_bind, Binary64.bind, Binary64.emit.
  cbn [Binary64.cache Binary64.trace].
  destruct (Z.ltb_spec (Z.of_nat (Binary64.currentIndex ctx)) p) as [Hlt|Hge].
  { unfold Binary64.calculateRSI.
    destruct (Z.ltb_spec (Z.of_nat (Binary64.currentIndex ctx)) p) as [_|]; [|lia].
    eexists. eexists. split; [reflexivity|]. split; reflexivity. }
  unfold Binary64.calculateRSI.
  destruct (Z.ltb_spec (Z.of_nat (Binary64.currentIndex ctx)) p) as [|_]; [lia|].
  replace (Z.to_nat (Z.of_nat (Binary64.currentIndex ctx) - p))
    with (Binary64.currentIndex ctx - Z.to_nat p)%nat by lia.
  replace (Binary64.currentIndex ctx - (Binary64.currentIndex ctx - Z.to_nat p))%nat
    with (Z.to_nat p) by lia.
  destruct (Nat.ltb_spec (Binary64.currentIndex ctx) (length (Binary64.marketData ctx)))
    as [Hin|Hout].
  - destruct (rsiLoop64_returns (Binary64.marketData ctx) (Z.to_nat p)
                (Binary64.currentIndex ctx - Z.to_nat p) 0%float 0%float)
      as (g & l & Hrun); [lia|].
    rewrite Hrun. eexists. eexists. split; [reflexivity|]. split; [reflexivity|].
    exists g, l. split; [reflexivity|]. split; [apply orFloor64_truthy | reflexivity].
  - rewrite rsiLoop64_past_end; [|lia|lia].
    eexists. eexists. split; [reflexivity|]. split; reflexivity.
Qed.

End RsiBlock.

Section RsiBlockSample.

Import Floats.

Lemma rsi_block_value_witness :
  Binary64.id Binary64.rsiBlock <> "" /\ Binary64.blockType Binary64.rsiBlock = "rsi" /\
  exists r st',
    Binary64.evaluateBlock Binary64.fourthBar ∅ [] 1 Binary64.rsiBlock (Binary64.mkEvalState ∅ [])
    = (Returned (Binary64.VNum r), st') /\
    Binary64.cache st' = <[("r", 3%nat) := Binary64.VNum r]> ∅ /\
    exists gains losses,
      Binary64.rsiLoop Binary64.fourBars 1 2 0 0 = Some (gains, losses) /\
      Binary64.Js.falsy (Binary64.orFloor (losses / Binary64.Js.ofZ 2)) = false /\
      r = (100 - 100 / (1 + gains / Binary64.Js.ofZ 2
                            / Binary64.orFloor (losses / Binary64.Js.ofZ 2)))%float.
Proof.
  split; [discriminate|]. split; [reflexivity|].
  apply (rsi_block_value Binary64.fourthBar ∅ [] 0 Binary64.rsiBlock (Binary64.mkEvalState ∅ []));
    [discriminate | reflexivity | reflexivity].
Defined.

End RsiBlockSample.

Section Operators.



End Operators.

(** ** Indicator calls, whatever the graph *)

Section Tracking.

Variable Math_sqrt : Q -> Q.
Variable ctx : context.
Variable blocksById : gmap string block.
Variable graph : graph_t.

Lemma tracked_refl (st : evalState) : tracked st st [].
Proof.
  split; [reflexivity|]. split; [auto|]. intros fn. split; [constructor|].
  intros k H. inversion H.
Qed.

Lemma tracked_trans (st st1 st2 : evalState) (new1 new2 : list event) :
  tracked st st1 new1 -> tracked st1 st2 new2 -> tracked st st2 (new2 ++ new1).
Proof.
  intros (Ht1 & Hc1 & Hcalls1) (Ht2 & Hc2 & Hcalls2).
  split; [rewrite Ht2, Ht1, app_assoc; reflexivity|]. split; [auto|].
  intros fn. destruct (Hcalls1 fn) as [Hn1 Hin1], (Hcalls2 fn) as [Hn2 Hin2].
  rewrite calls_app. split.
  - apply NoDup_app. split; [exact Hn2|]. split; [|exact Hn1].
    intros k H2 H1. apply Hin2 in H2 as [Hnone _]. apply Hin1 in H1 as [_ [v Hv]]. congruence.
  - intros k. rewrite elem_of_app. intros [H|H].
    + apply Hin2 in H as [Hnone Hsome]. split; [|exact Hsome].
      destruct (cache st !! k) as [u|] eqn:E; [|reflexivity].
      destruct (Hc1 k) as [w Hw]; [eauto|congruence].
    + apply Hin1 in H as [Hnone Hsome]. auto.
Qed.

Lemma tracked_event (e : event) (st : evalState) :
  noCall e = true -> tracked st (mkEvalState (cache st) (e :: trace st)) [e].
Proof.
  intros He. split; [reflexivity|]. split; [auto|]. intros fn.
  assert (Hcalls : calls fn [e] = []) by (destruct e; try discriminate; reflexivity).
  rewrite Hcalls. split; [constructor|]. intros k H. inversion H.
Qed.

Lemma tracks_ret {A} (a : A) : tracks (mret a).
Proof. intros st. exists []. apply tracked_refl. Qed.

Lemma tracks_throw {A} : tracks (@throw A).
Proof. intros st. exists []. apply tracked_refl. Qed.

Lemma tracks_emit (e : event) : noCall e = true -> tracks (emit e).
Proof. intros He st. exists [e]. apply tracked_event, He. Qed.

Lemma tracks_bind {A B} (m : Eval A) (f : A -> Eval B) :
  tracks m -> (forall a, tracks (f a)) -> tracks (m ≫= f).
Proof.
  intros Hm Hf st. unfold mbind, eval_bind, bind.
  destruct (Hm st) as (new1 & H1). destruct (m st) as [[a|] st1]; simpl in H1.
  - destruct (Hf a st1) as (new2 & H2). exists (new2 ++ new1)%list.
    exact (tracked_trans st st1 _ new1 new2 H1 H2).
  - exists new1. exact H1.
Qed.

Ltac tracks_step :=
  first
    [ apply tracks_ret | apply tracks_throw | apply tracks_emit; reflexivity
    | apply tracks_bind; [|intros ?]
    | match goal with
      | |- tracks (if ?c then _ else _) => destruct c
      | |- tracks (match ?x with _ => _ end) => destruct x
      end ].

Lemma tracks_anyTargetTrue (ev : block -> Eval value) (conns : list edge) :
  (forall d, tracks (ev d)) -> tracks (anyTargetTrue blocksById ev conns).
Proof.
  intros Hev. induction conns as [|conn rest IH]; cbn [anyTargetTrue].
  - apply tracks_ret.
  - destruct (blocksById !! edge_target conn); [|exact IH].
    apply tracks_bind; [apply Hev|]. intros [[|]|q]; [apply tracks_ret|exact IH..].
Qed.

Lemma tracks_scanInputs (ev : block -> Eval value) (blockId : string)
    (entries : list (string * edge)) (value1 value2 : option Q) :
  (forall d, tracks (ev d)) -> tracks (scanInputs blocksById ev blockId entries value1 value2).
Proof.
  intros Hev. revert value1 value2.
  induction entries as [|[sourceId conn] rest IH]; intros value1 value2; cbn [scanInputs].
  - apply tracks_ret.
  - destruct (String.eqb (edge_target conn) blockId); [|apply IH].
    destruct (blocksById !! sourceId); [|apply IH].
    apply tracks_bind; [apply Hev|]. intros sourceResult.
    destruct (String.eqb (edge_targetHandle conn) "input1"); [apply IH|].
    destruct (String.eqb (edge_targetHandle conn) "input2"); apply IH.
Qed.

Lemma tracksKind_tracks (key : string * nat) (m : Eval value) :
  tracks m -> tracksKind key m.
Proof. intros Hm st. left. apply Hm. Qed.

Ltac own_calls own :=
  let st := fresh "st" in
  intros st; right; split; [reflexivity|]; exists own;
  split; [reflexivity|];
  let fn := fresh "fn" in intros fn; destruct fn; simpl; auto.

Lemma tracksKind_evaluateKind (ev : block -> Eval value) (b : block) :
  (forall d, tracks (ev d)) ->
  tracksKind (cacheKey ctx b) (evaluateKind Math_sqrt ctx blocksById graph ev b).
Proof.
  intros Hev. unfold evaluateKind.
  destruct (String.eqb (blockType b) "entry_condition"
            || String.eqb (blockType b) "exit_condition").
  { apply tracksKind_tracks.
    repeat first [apply tracks_anyTargetTrue, Hev | tracks_step]. }
  destruct (String.eqb (blockType b) "comparison").
  { apply tracksKind_tracks.
    repeat first [apply tracks_scanInputs, Hev | tracks_step]. }
  destruct (String.eqb (blockType b) "moving_average").
  { destruct (parseOr (period b) 20%Z) as [maPeriod|];
      [destruct (maPeriod <=? 0)%Z|];
      [apply tracksKind_tracks; repeat tracks_step
      | own_calls [Call FnMA (cacheKey ctx b)]
      | apply tracksKind_tracks; repeat tracks_step]. }
  destruct (String.eqb (blockType b) "rsi").
  { destruct (parseOr (period b) 14%Z) as [rsiPeriod|];
      [destruct (rsiPeriod <=? 0)%Z|];
      [apply tracksKind_tracks; repeat tracks_step
      |
      | apply tracksKind_tracks; repeat tracks_step].
    unfold mbind, eval_bind, bind.
    destruct (calculateRSI (marketData ctx) (currentIndex ctx) rsiPeriod);
      own_calls [Call FnRSI (cacheKey ctx b)]. }
  destruct (String.eqb (blockType b) "bollinger_bands").
  { destruct (parseOr (period b) 20%Z) as [bbPeriod|];
      [destruct (parseOr (stdDev b) 2) as [stdDevMultiplier|]|];
      [|apply tracksKind_tracks; repeat tracks_step..].
    destruct (bbPeriod <=? 0)%Z; [apply tracksKind_tracks; repeat tracks_step|].
    destruct (bbPeriod <=? Z.of_nat (length (map close (dataWindow ctx))))%Z;
      [|own_calls [Call FnMA (cacheKey ctx b)]].
    destruct (String.eqb (orDefault (outputType b) "middle") "upper");
      [own_calls [Call FnStdDev (cacheKey ctx b); Call FnMA (cacheKey ctx b)]|].
    destruct (String.eqb (orDefault (outputType b) "middle") "lower");
      own_calls [Call FnStdDev (cacheKey ctx b); Call FnMA (cacheKey ctx b)]. }
  apply tracksKind_tracks. repeat tracks_step.
Qed.

(** Closing a call that missed the cache: after the [switch], and the line
    of the [catch] if it threw, the value is cached under the key. *)
Lemma tracked_close (b : block) (st st1 : evalState) (pre : list event) (v : value) :
  cache st !! cacheKey ctx b = None ->
  calls FnMA pre = [] -> calls FnRSI pre = [] -> calls FnStdDev pre = [] ->
  ((exists new,
       tracked (mkEvalState (cache st) (Dispatch (cacheKey ctx b) :: trace st)) st1 new) \/
   (cache st1 = cache st /\
    exists own, trace st1 = (own ++ Dispatch (cacheKey ctx b) :: trace st)%list /\
                forall fn, calls fn own = [] \/ calls fn own = [cacheKey ctx b])) ->
  exists new,
    tracked st (mkEvalState (<[cacheKey ctx b := v]> (cache st1)) (pre ++ trace st1)) new.
Proof.
  intros Hmiss Hp1 Hp2 Hp3 Hkind.
  assert (Hpre : forall fn, calls fn pre = []) by (intros []; assumption).
  assert (Hkeep : forall c : gmap (string * nat) value,
             (forall k, is_Some (cache st !! k) -> is_Some (c !! k)) ->
             forall k, is_Some (cache st !! k) -> is_Some (<[cacheKey ctx b := v]> c !! k)).
  { intros c Hc k Hk. destruct (decide (k = cacheKey ctx b)) as [->|Hne].
    - rewrite lookup_insert_eq. eauto.
    - rewrite lookup_insert_ne by auto. auto. }
  destruct Hkind as [(new & Ht & Hc & Hcalls)|(Hc & own & Ht & Hown)]; simpl in *.
  - exists (pre ++ new ++ [Dispatch (cacheKey ctx b)])%list.
    split; [simpl; rewrite Ht, <- !app_assoc; reflexivity|].
    split; [apply Hkeep, Hc|].
    intros fn. rewrite !calls_app, Hpre. simpl. rewrite app_nil_r.
    destruct (Hcalls fn) as [Hn Hin]. split; [exact Hn|].
    intros k Hk. apply Hin in Hk as [Hnone Hsome]. split; [exact Hnone|].
    simpl. destruct (decide (k = cacheKey ctx b)) as [->|Hne].
    + rewrite lookup_insert_eq. eauto.
    + rewrite lookup_insert_ne by auto. exact Hsome.
  - exists (pre ++ own ++ [Dispatch (cacheKey ctx b)])%list.
    split; [simpl; rewrite Ht, <- !app_assoc; reflexivity|].
    split; [apply Hkeep; rewrite Hc; auto|].
    intros fn. rewrite !calls_app, Hpre. simpl. rewrite app_nil_r.
    destruct (Hown fn) as [-> | ->].
    + split; [constructor|]. intros k H. inversion H.
    + split; [apply NoDup_singleton|]. intros k Hk.
      apply list_elem_of_singleton in Hk. subst k.
      split; [exact Hmiss|]. simpl. rewrite lookup_insert_eq. eauto.
Qed.

Lemma tracks_evaluateBlock (frames : nat) (b : block) :
  tracks (evaluateBlock Math_sqrt ctx blocksById graph frames b).
Proof.
  revert b. induction frames as [|frames IH]; intros b; [apply tracks_throw|].
  intros st.
  destruct (String.eqb_spec (id b) "") as [Hid|Hid].
  { cbn [evaluateBlock]. rewrite Hid. simpl. exists [WarnInvalidBlock].
    apply tracked_event. reflexivity. }
  destruct (String.eqb_spec (blockType b) "") as [Hty|Hty].
  { cbn [evaluateBlock]. apply String.eqb_neq in Hid. rewrite Hid, Hty. simpl.
    exists [WarnNoBlockType (id b)]. apply tracked_event. reflexivity. }
  destruct (cache st !! cacheKey ctx b) as [cached|] eqn:Hmiss.
  { cbn [evaluateBlock]. apply String.eqb_neq in Hid, Hty. rewrite Hid, Hty.
    unfold mbind, eval_bind, bind, cacheGet. rewrite Hmiss. simpl.
    exists []. apply tracked_refl. }
  set (st0 := mkEvalState (cache st) (Dispatch (cacheKey ctx b) :: trace st)).
  pose proof (tracksKind_evaluateKind
                (evaluateBlock Math_sqrt ctx blocksById graph frames) b IH st0) as Hkind.
  destruct (evaluateKind Math_sqrt ctx blocksById graph
              (evaluateBlock Math_sqrt ctx blocksById graph frames) b st0)
    as [[v|] st1] eqn:Heq; simpl in Hkind.
  - rewrite (evaluateBlock_miss Math_sqrt ctx blocksById graph frames b st st1 v
               Hid Hty Hmiss Heq). simpl.
    apply (tracked_close b st st1 [] v Hmiss); try reflexivity. exact Hkind.
  - rewrite (evaluateBlock_caught Math_sqrt ctx blocksById graph frames b st st1
               Hid Hty Hmiss Heq). simpl.
    apply (tracked_close b st st1 [ErrorEvaluating (id b) (blockType b)]
             (fallback (blockType b) ctx) Hmiss); try reflexivity. exact Hkind.
Qed.

Lemma tracks_anyTruthy (frames : nat) (candidates : list block) :
  tracks (anyTruthy Math_sqrt ctx blocksById graph frames candidates).
Proof.
  induction candidates as [|c rest IH]; cbn [anyTruthy].
  - apply tracks_ret.
  - apply tracks_bind; [apply tracks_evaluateBlock|].
    intros v. destruct (truthy v); [apply tracks_ret | exact IH].
Qed.

(** X21.  In the evaluation of the candidates of one bar, from the cleared cache,
    each indicator function is called at most once per cache key: whatever
    the graph, cycles included, and whatever the stack left.  The keys for
    which it is called are in the cache afterwards. *)
Theorem indicator_called_once (frames : nat) (candidates : list block) (tr : list event)
    (fn : indicator) :
  exists new,
    trace (anyTruthy Math_sqrt ctx blocksById graph frames candidates
             (mkEvalState ∅ tr)).2 = (new ++ tr)%list /\
    NoDup (calls fn new) /\
    forall k, k ∈ calls fn new ->
              is_Some (cache (anyTruthy Math_sqrt ctx blocksById graph frames candidates
                                (mkEvalState ∅ tr)).2 !! k).
Proof.
  destruct (tracks_anyTruthy frames candidates (mkEvalState ∅ tr)) as (new & Ht & _ & Hcalls).
  exists new. split; [exact Ht|]. destruct (Hcalls fn) as [Hn Hin].
  split; [exact Hn|]. intros k Hk. apply Hin, Hk.
Qed.

End Tracking.

Section Bands.

Variable Math_sqrt : Q -> Q.
Variable ctx : context.
Variable blocksById : gmap string block.
Variable graph : graph_t.

(** Two evaluators that agree on the blocks [b] may call give the [switch]
    of [b] the same outcome. *)
Lemma anyTargetTrue_ext (ev1 ev2 : block -> Eval value) (conns : list edge) :
  (forall d, d ∈ omap (fun conn => blocksById !! edge_target conn) conns ->
             forall st, ev1 d st = ev2 d st) ->
  forall st, anyTargetTrue blocksById ev1 conns st = anyTargetTrue blocksById ev2 conns st.
Proof.
  induction conns as [|conn rest IH]; intros Hev st; cbn [anyTargetTrue]; [reflexivity|].
  cbn [omap list_omap] in Hev.
  destruct (blocksById !! edge_target conn) as [d|]; [|apply IH, Hev].
  unfold mbind, eval_bind, bind. rewrite (Hev d) by left.
  destruct (ev2 d st) as [[[[|]|q]|] st1]; try reflexivity;
    apply IH; intros d' Hd'; apply Hev; right; exact Hd'.
Qed.

Lemma scanInputs_ext (ev1 ev2 : block -> Eval value) (blockId : string)
    (entries : list (string * edge)) (v1 v2 : option Q) :
  (forall d, d ∈ omap (fun '(sourceId, conn) =>
                         if String.eqb (edge_target conn) blockId
                         then blocksById !! sourceId else None) entries ->
             forall st, ev1 d st = ev2 d st) ->
  forall st, scanInputs blocksById ev1 blockId entries v1 v2 st
             = scanInputs blocksById ev2 blockId entries v1 v2 st.
Proof.
  revert v1 v2. induction entries as [|[sourceId conn] rest IH]; intros v1 v2 Hev st;
    cbn [scanInputs]; [reflexivity|].
  cbn [omap list_omap] in Hev.
  destruct (String.eqb (edge_target conn) blockId); [|apply IH, Hev].
  destruct (blocksById !! sourceId) as [d|]; [|apply IH, Hev].
  unfold mbind, eval_bind, bind. rewrite (Hev d) by left.
  destruct (ev2 d st) as [[w|] st1]; [|reflexivity].
  destruct (String.eqb (edge_targetHandle conn) "input1");
    [apply IH; intros d' Hd'; apply Hev; right; exact Hd'|].
  destruct (String.eqb (edge_targetHandle conn) "input2");
    apply IH; intros d' Hd'; apply Hev; right; exact Hd'.
Qed.

Lemma evaluateKind_ext (ev1 ev2 : block -> Eval value) (b : block) :
  (forall d, d ∈ deps blocksById graph b -> forall st, ev1 d st = ev2 d st) ->
  forall st, evaluateKind Math_sqrt ctx blocksById graph ev1 b st
             = evaluateKind Math_sqrt ctx blocksById graph ev2 b st.
Proof.
  intros Hev st. unfold evaluateKind. unfold deps in Hev.
  destruct (String.eqb (blockType b) "entry_condition"
            || String.eqb (blockType b) "exit_condition").
  { destruct (graph_get graph (id b)) as [conns|]; [|reflexivity].
    unfold mbind, eval_bind, bind. rewrite (anyTargetTrue_ext ev1 ev2 conns Hev). reflexivity. }
  destruct (String.eqb (blockType b) "comparison"); [|reflexivity].
  unfold mbind, eval_bind, bind.
  destruct (value1 b) as [v1|], (value2 b) as [v2|]; try reflexivity;
    rewrite (scanInputs_ext ev1 ev2 (id b) (graph_entries graph) _ _ Hev); reflexivity.
Qed.

End Bands.

Section StackIndependence.

Variable Math_sqrt : Q -> Q.
Variable ctx : context.
Variable blocksById : gmap string block.
Variable graph : graph_t.
Variable rank : string -> nat.

Hypothesis known_settled :
  forall k b, blocksById !! k = Some b -> settled blocksById graph rank b.

(** X23.  Over well-founded dependencies the frames left do not matter once they
    exceed the rank of the block: the outcome and the state are the same. *)
Theorem stack_independence (n m : nat) (b : block) (st : evalState) :
  settled blocksById graph rank b -> (rank (id b) < n)%nat -> (rank (id b) < m)%nat ->
  evaluateBlock Math_sqrt ctx blocksById graph n b st
  = evaluateBlock Math_sqrt ctx blocksById graph m b st.
Proof.
  revert m b st. induction n as [|n IH]; intros m b st Hs Hn Hm; [lia|].
  destruct m as [|m]; [lia|]. cbn [evaluateBlock].
  destruct (String.eqb (id b) ""); [reflexivity|].
  destruct (String.eqb (blockType b) ""); [reflexivity|].
  unfold mbind, eval_bind, bind, cacheGet, tryCatch, emit.
  destruct (cache st !! cacheKey ctx b); [reflexivity|].
  rewrite (evaluateKind_ext Math_sqrt ctx blocksById graph
             (evaluateBlock Math_sqrt ctx blocksById graph n)
             (evaluateBlock Math_sqrt ctx blocksById graph m) b); [reflexivity|].
  intros d Hd st'.
  destruct (deps_known blocksById graph b d Hd) as (k & Hk).
  assert (Hlt : (rank (id d) < rank (id b))%nat).
  { unfold settled in Hs. rewrite Forall_forall in Hs. auto. }
  apply IH; [exact (known_settled k d Hk) | lia | lia].
Qed.

End StackIndependence.

Lemma stack_independence_witness :
  evaluateBlock sqrtUnused secondBar fanInBlocks fanInGraph 2 comparison1 (mkEvalState ∅ [])
  = evaluateBlock sqrtUnused secondBar fanInBlocks fanInGraph 9 comparison1 (mkEvalState ∅ []).
Proof.
  apply (stack_independence sqrtUnused secondBar fanInBlocks fanInGraph fanInRank
           fanIn_settled 2 9 comparison1 (mkEvalState ∅ []));
    [exact comparison1_settled | vm_compute; lia | vm_compute; lia].
Defined.

(** ** Connections that lead nowhere *)

Section Dangling.

Variable Math_sqrt : Q -> Q.
Variable ctx : context.
Variable blocksById : gmap string block.
Variable graph : graph_t.

Hypothesis keyed : keyedById blocksById.

Let knownEdge (e : edge) : bool := isKnown blocksById (edge_target e).
Let keepEntry (entry : string * edge) : bool :=
  isKnown blocksById entry.1 && isKnown blocksById (edge_target entry.2).

Lemma isKnown_found (k : string) (b : block) :
  blocksById !! k = Some b -> isKnown blocksById (id b) = true.
Proof. intros H. unfold isKnown. rewrite (keyed k b H), H. reflexivity. Qed.

Lemma graph_get_withoutDangling (k : string) :
  isKnown blocksById k = true ->
  graph_get (withoutDangling blocksById graph) k
  = option_map (List.filter knownEdge) (graph_get graph k).
Proof.
  intros Hk. unfold withoutDangling.
  induction graph as [|[k0 es] rest IH]; [reflexivity|].
  cbn [List.filter graph_get].
  destruct (String.eqb_spec k0 k) as [->|Hne].
  - rewrite Hk. cbn [map graph_get]. rewrite String.eqb_refl. reflexivity.
  - destruct (isKnown blocksById k0); [|exact IH].
    cbn [map graph_get]. destruct (String.eqb_spec k0 k); [contradiction | exact IH].
Qed.

Lemma anyTargetTrue_withoutDangling (ev : block -> Eval value) (conns : list edge)
    (st : evalState) :
  anyTargetTrue blocksById ev (List.filter knownEdge conns) st
  = anyTargetTrue blocksById ev conns st.
Proof.
  revert st. induction conns as [|conn rest IH]; intros st; [reflexivity|].
  cbn [List.filter]. unfold knownEdge at 1, isKnown.
  destruct (blocksById !! edge_target conn) as [d|] eqn:Hd; cbn [anyTargetTrue]; rewrite Hd.
  - unfold mbind, eval_bind, bind.
    destruct (ev d st) as [[[[|]|q]|] st1]; try reflexivity; apply IH.
  - apply IH.
Qed.

Lemma entries_of_known (k : string) (es : list edge) :
  isKnown blocksById k = true ->
  map (pair k) (List.filter knownEdge es) = List.filter keepEntry (map (pair k) es).
Proof.
  intros Hk. induction es as [|e es IH]; [reflexivity|].
  cbn [List.filter map]. unfold keepEntry at 1. cbn [fst snd]. rewrite Hk. cbn [andb].
  fold (knownEdge e). destruct (knownEdge e); cbn [map]; rewrite IH; reflexivity.
Qed.

Lemma entries_of_unknown (k : string) (es : list edge) :
  isKnown blocksById k = false -> List.filter keepEntry (map (pair k) es) = [].
Proof.
  intros Hk. induction es as [|e es IH]; [reflexivity|].
  cbn [List.filter map]. unfold keepEntry at 1. cbn [fst snd]. rewrite Hk. exact IH.
Qed.

Lemma graph_entries_withoutDangling :
  graph_entries (withoutDangling blocksById graph)
  = List.filter keepEntry (graph_entries graph).
Proof.
  unfold withoutDangling, graph_entries.
  induction graph as [|[k0 es] rest IH]; [reflexivity|].
  cbn [List.filter flat_map]. rewrite List.filter_app.
  destruct (isKnown blocksById k0) eqn:Hk0.
  - cbn [map flat_map]. rewrite IH. f_equal. exact (entries_of_known k0 es Hk0).
  - rewrite IH, (entries_of_unknown k0 es Hk0). reflexivity.
Qed.

Lemma scanInputs_withoutDangling (ev : block -> Eval value) (blockId : string)
    (entries : list (string * edge)) (v1 v2 : option Q) (st : evalState) :
  isKnown blocksById blockId = true ->
  scanInputs blocksById ev blockId (List.filter keepEntry entries) v1 v2 st
  = scanInputs blocksById ev blockId entries v1 v2 st.
Proof.
  intros Hk. revert v1 v2 st.
  induction entries as [|[sourceId conn] rest IH]; intros v1 v2 st; [reflexivity|].
  cbn [List.filter]. unfold keepEntry at 1. cbn [fst snd].
  destruct (String.eqb_spec (edge_target conn) blockId) as [Heq|Hne].
  - rewrite Heq, Hk, andb_true_r. unfold isKnown.
    destruct (blocksById !! sourceId) as [d|] eqn:Hd; cbn [scanInputs];
      rewrite Heq, String.eqb_refl, Hd; [|apply IH].
    unfold mbind, eval_bind, bind. destruct (ev d st) as [[w|] st1]; [|reflexivity].
    destruct (String.eqb (edge_targetHandle conn) "input1"); [apply IH|].
    destruct (String.eqb (edge_targetHandle conn) "input2"); apply IH.
  - transitivity (scanInputs blocksById ev blockId rest v1 v2 st).
    + destruct (isKnown blocksById sourceId && isKnown blocksById (edge_target conn));
        [|apply IH].
      cbn [scanInputs]. destruct (String.eqb_spec (edge_target conn) blockId);
        [contradiction | apply IH].
    + cbn [scanInputs]. destruct (String.eqb_spec (edge_target conn) blockId);
        [contradiction | reflexivity].
Qed.

Lemma evaluateKind_withoutDangling (ev1 ev2 : block -> Eval value) (b : block) :
  (forall d st, isKnown blocksById (id d) = true -> ev1 d st = ev2 d st) ->
  isKnown blocksById (id b) = true ->
  forall st,
    evaluateKind Math_sqrt ctx blocksById graph ev1 b st
    = evaluateKind Math_sqrt ctx blocksById (withoutDangling blocksById graph) ev2 b st.
Proof.
  intros Hev Hb st.
  rewrite (evaluateKind_ext Math_sqrt ctx blocksById graph ev1 ev2 b).
  2:{ intros d Hd st'. apply deps_known in Hd as (k & Hk).
      apply Hev. exact (isKnown_found k d Hk). }
  unfold evaluateKind.
  destruct (String.eqb (blockType b) "entry_condition"
            || String.eqb (blockType b) "exit_condition").
  { rewrite (graph_get_withoutDangling (id b) Hb).
    destruct (graph_get graph (id b)) as [conns|]; [|reflexivity].
    cbn [option_map]. unfold mbind, eval_bind, bind.
    rewrite anyTargetTrue_withoutDangling. reflexivity. }
  destruct (String.eqb (blockType b) "comparison"); [|reflexivity].
  unfold mbind, eval_bind, bind. rewrite graph_entries_withoutDangling.
  destruct (value1 b) as [v1|], (value2 b) as [v2|]; try reflexivity;
    rewrite (scanInputs_withoutDangling ev2 (id b) _ _ _ st Hb); reflexivity.
Qed.

(** The evaluation of a block whose id is known does not see the dangling
    connections. *)
Lemma evaluateBlock_withoutDangling (n : nat) (b : block) (st : evalState) :
  isKnown blocksById (id b) = true ->
  evaluateBlock Math_sqrt ctx blocksById graph n b st
  = evaluateBlock Math_sqrt ctx blocksById (withoutDangling blocksById graph) n b st.
Proof.
  revert b st. induction n as [|n IH]; intros b st Hb; [reflexivity|].
  cbn [evaluateBlock].
  destruct (String.eqb (id b) ""); [reflexivity|].
  destruct (String.eqb (blockType b) ""); [reflexivity|].
  unfold mbind, eval_bind, bind, cacheGet, tryCatch, emit.
  destruct (cache st !! cacheKey ctx b); [reflexivity|].
  rewrite (evaluateKind_withoutDangling
             (evaluateBlock Math_sqrt ctx blocksById graph n)
             (evaluateBlock Math_sqrt ctx blocksById (withoutDangling blocksById graph) n) b
             (fun d st' Hd => IH d st' Hd) Hb).
  reflexivity.
Qed.

End Dangling.

Lemma keyedById_insert (m : gmap string block) (b : block) :
  keyedById m -> keyedById (<[id b := b]> m).
Proof.
  intros Hm k d H. apply lookup_insert_Some in H as [[<- <-]|[_ H]]; [reflexivity|].
  exact (Hm k d H).
Qed.

Lemma buildBlocksById_keyed (l : list block) : keyedById (buildBlocksById l).
Proof.
  unfold buildBlocksById.
  assert (H : forall m, keyedById m -> keyedById (fold_left (fun m b => <[id b := b]> m) l m)).
  { induction l as [|b l IH]; intros m Hm; [exact Hm|].
    cbn [fold_left]. apply IH, keyedById_insert, Hm. }
  apply H. intros k d Hk. rewrite lookup_empty in Hk. discriminate.
Qed.

(** C3, as the code has it.  No structural check is made: for every
    strategy, whatever its connections refer to, and every non-empty series,
    [runBacktest] returns a result and reports no error.  A connection whose
    source or target is the id of no block is skipped: the evaluation of a
    block whose id is known gives the same value and leaves the same cache
    and console as on the graph without these connections. *)
Theorem no_structural_validation (Math_sqrt : Q -> Q) (frames : nat) (s : strategy)
    (options : BacktestOptions) (marketData : list MarketData) :
  marketData <> [] ->
  (exists r log, runBacktest Math_sqrt (S frames) s options (Some marketData) = inr (r, log)) /\
  (forall ctx n b st,
      isKnown (buildBlocksById (blocks s)) (id b) = true ->
      evaluateBlock Math_sqrt ctx (buildBlocksById (blocks s)) (buildGraph (connections s))
        n b st
      = evaluateBlock Math_sqrt ctx (buildBlocksById (blocks s))
          (withoutDangling (buildBlocksById (blocks s)) (buildGraph (connections s)))
          n b st).
Proof.
  intros Hne. split.
  - exact (runBacktest_returns Math_sqrt frames s options marketData Hne).
  - intros ctx n b st.
    apply evaluateBlock_withoutDangling, buildBlocksById_keyed.
Qed.

Lemma no_structural_validation_witness :
  hasDanglingConnection danglingStrategy = true /\
  fourBars <> [] /\
  (exists r log,
      runBacktest sqrtUnused 8 danglingStrategy tenThousand (Some fourBars) = inr (r, log)) /\
  withoutDangling (buildBlocksById (blocks danglingStrategy))
    (buildGraph (connections danglingStrategy))
  = [("p", [mkEdge "c" "" "input1"]); ("x", [mkEdge "c2" "" ""])] /\
  (forall ctx n b st,
      isKnown (buildBlocksById (blocks danglingStrategy)) (id b) = true ->
      evaluateBlock sqrtUnused ctx (buildBlocksById (blocks danglingStrategy))
        (buildGraph (connections danglingStrategy)) n b st
      = evaluateBlock sqrtUnused ctx (buildBlocksById (blocks danglingStrategy))
          (withoutDangling (buildBlocksById (blocks danglingStrategy))
             (buildGraph (connections danglingStrategy)))
          n b st).
Proof.
  split; [reflexivity|]. split; [discriminate|].
  destruct (no_structural_validation sqrtUnused 7 danglingStrategy tenThousand fourBars)
    as [Hrun Hskip]; [discriminate|].
  split; [exact Hrun|]. split; [reflexivity | exact Hskip].
Defined.

(** C3 as stated fails: a strategy with a connection from a missing block and
    one to a missing block is simulated.  The comparison that the first leads
    to and the exit condition that the second leaves are evaluated, and the run
    trades. *)
Lemma dangling_connection_runs :
  hasDanglingConnection danglingStrategy = true /\
  exists r log,
    runBacktest sqrtUnused 8 danglingStrategy tenThousand (Some fourBars) = inr (r, log) /\
    trades r = [mkTrade "2024-01-02" BUY 12; mkTrade "2024-01-03" SELL 11;
                mkTrade "2024-01-04" BUY 15; mkTrade "2024-01-04" SELL 15] /\
    Dispatch ("c", 0%nat) ∈ log /\ Dispatch ("x", 2%nat) ∈ log.
Proof.
  split; [reflexivity|].
  eexists _, _. split; [vm_compute; reflexivity|]. split; [reflexivity|].
  split; vm_compute; solve_elem.
Qed.

(** ** The parameters read off a strategy *)

Section Parameters.

Lemma pushPeriod_keeps (periods : list Z) (b : nestedBlock) :
  NoDup periods -> Forall (fun p => (0 < p)%Z) periods ->
  NoDup (pushPeriod periods b) /\ Forall (fun p => (0 < p)%Z) (pushPeriod periods b).
Proof.
  intros Hnd Hpos. unfold pushPeriod.
  destruct (nested_period b) as [p|]; [|by split].
  destruct (0 <? p)%Z eqn:Hp; cbn [andb]; [|by split].
  destruct (existsb (Z.eqb p) periods) eqn:Hex; cbn [negb]; [by split|].
  split.
  - apply NoDup_app. split; [exact Hnd|]. split; [|apply NoDup_singleton].
    intros x Hx Hx'. apply list_elem_of_singleton in Hx'. subst x.
    assert (Ht : existsb (Z.eqb p) periods = true).
    { apply existsb_exists. exists p. split; [by apply list_elem_of_In|apply Z.eqb_refl]. }
    congruence.
  - apply Forall_app. split; [exact Hpos|]. constructor; [lia|constructor].
Qed.

Lemma pushPeriods_keep (bs : list nestedBlock) (periods : list Z) :
  NoDup periods -> Forall (fun p => (0 < p)%Z) periods ->
  NoDup (fold_left pushPeriod bs periods) /\
  Forall (fun p => (0 < p)%Z) (fold_left pushPeriod bs periods).
Proof.
  revert periods. induction bs as [|b bs IH]; intros periods Hnd Hpos; [by split|].
  cbn [fold_left]. destruct (pushPeriod_keeps periods b Hnd Hpos) as [H1 H2]. by apply IH.
Qed.

Lemma adjustLevels_keeps (bs : list nestedBlock) (levels : Q * Q) :
  levels.1 <= 30 -> 70 <= levels.2 ->
  (fold_left adjustLevels bs levels).1 <= 30 /\ 70 <= (fold_left adjustLevels bs levels).2.
Proof.
  revert levels. induction bs as [|b bs IH]; intros levels H1 H2; [by split|].
  cbn [fold_left]. apply IH; unfold adjustLevels.
  - destruct (nested_value2 b) as [v|]; [|exact H1]. cbn [fst].
    destruct (Qle_bool v 30) eqn:Hv; [by apply Qle_bool_iff|exact H1].
  - destruct (nested_value2 b) as [v|]; [|exact H2]. cbn [snd].
    destruct (Qle_bool 70 v) eqn:Hv; [by apply Qle_bool_iff|exact H2].
Qed.

Lemma filterKind_raises (kind : string) (elements : list (option nestedBlock)) :
  filterKind kind elements = None <-> None ∈ elements.
Proof.
  induction elements as [|[b|] rest IH]; cbn [filterKind].
  - split; [discriminate|]. intros H. by apply elem_of_nil in H.
  - destruct (filterKind kind rest) as [found|].
    + split; [discriminate|]. intros H. apply elem_of_cons in H as [H|H]; [discriminate|].
      apply IH in H. discriminate.
    + split; [|reflexivity]. intros _. apply elem_of_cons. right. by apply IH.
  - split; [|reflexivity]. intros _. apply elem_of_cons. by left.
Qed.

(** All the filters of the [try] raise together. *)
Lemma blocksOfKind_raises (kind : string) (field : blocksField) :
  blocksOfKind kind field = None <-> raises (Some field).
Proof.
  unfold raises. destruct field as [| |elements]; cbn [blocksOfKind].
  - split; [discriminate|]. intros [H|[H|(l & H & _)]]; discriminate.
  - split; [|reflexivity]. intros _. right. left. reflexivity.
  - rewrite filterKind_raises. split.
    + intros H. right. right. exists elements. auto.
    + intros [H|[H|(l & H & Hl)]]; [discriminate..|]. by injection H as ->.
Qed.

Lemma usable_extractRsi (field : blocksField) (params : strategyParams) :
  usableParams params ->
  match extractRsi field params with
  | inl params' | inr params' => usableParams params' /\ maPeriods params' = maPeriods params
  end.
Proof.
  intros Hu. unfold extractRsi.
  destruct (blocksOfKind "rsi" field) as [[|rsiBlock rest]|]; [by split| |by split].
  set (params1 := match nested_period rsiBlock with
                  | Some p => if (0 <? p)%Z then setRsiPeriod params p else params
                  | None => params
                  end).
  assert (H1 : usableParams params1 /\ maPeriods params1 = maPeriods params).
  { unfold params1. destruct (nested_period rsiBlock) as [p|]; [|by split].
    destruct (0 <? p)%Z eqn:Hp; [|by split].
    destruct Hu as (? & ? & ? & ? & ? & ?). split; [|reflexivity].
    unfold usableParams. cbn [setRsiPeriod maPeriods rsiPeriod rsiOversold rsiOverbought
                          bollingerBandWidth].
    repeat (split; [assumption|]). split; [lia|]. by repeat split. }
  destruct H1 as [H1 Hsame].
  destruct (blocksOfKind "comparison" field) as [comparisonBlocks|]; [|by split].
  split; [|exact Hsame].
  destruct H1 as (? & ? & ? & Hlo & Hhi & ?).
  destruct (adjustLevels_keeps comparisonBlocks (rsiOversold params1, rsiOverbought params1))
    as [Hlo' Hhi']; [exact Hlo | exact Hhi|].
  unfold usableParams. cbn [setLevels maPeriods rsiPeriod rsiOversold rsiOverbought
                        bollingerBandWidth].
  by repeat split.
Qed.

Lemma usable_extractBollinger (field : blocksField) (params : strategyParams) :
  usableParams params ->
  usableParams (extractBollinger field params) /\
  maPeriods (extractBollinger field params) = maPeriods params.
Proof.
  intros Hu. unfold extractBollinger.
  destruct (blocksOfKind "bollinger_bands" field) as [[|bollingerBlock rest]|];
    [by split| |by split].
  destruct (nested_stdDev bollingerBlock) as [w|]; [|by split].
  destruct (Qlt_bool 0 w) eqn:Hw; [|by split].
  apply Qlt_bool_iff in Hw. destruct Hu as (? & ? & ? & ? & ? & ?).
  split; [|reflexivity]. unfold usableParams.
  cbn [setWidth maPeriods rsiPeriod rsiOversold rsiOverbought bollingerBandWidth].
  by repeat split.
Qed.

(** X24.  [extractStrategyParameters]: whatever it is given, the periods
    extracted are positive and without repetition, the RSI period is
    positive, the oversold level is at most 30, the overbought level at least
    70 and the band width positive.  The list of periods is empty exactly
    when the [try] raises: on a strategy that is null or undefined, on blocks
    that are no array and on a block that is null or undefined; the
    parameters are then the initial ones. *)
Theorem extractStrategyParameters_usable (strategy : option blocksField) :
  let params := extractStrategyParameters strategy in
  NoDup (maPeriods params) /\
  Forall (fun p => (0 < p)%Z) (maPeriods params) /\
  (0 < rsiPeriod params)%Z /\
  rsiOversold params <= 30 /\
  70 <= rsiOverbought params /\
  0 < bollingerBandWidth params /\
  (maPeriods params = [] <-> raises strategy) /\
  (raises strategy -> params = mkParams [] 14 30 70 2).
Proof.
  cbv zeta.
  assert (Hinit : usableParams (mkParams [] 14 30 70 2)).
  { unfold usableParams. cbn. split; [constructor|]. split; [constructor|].
    split; [lia|]. repeat split; lra. }
  assert (Hraised : forall s, raises s -> extractStrategyParameters s = mkParams [] 14 30 70 2).
  { intros [field|] Hr; [|reflexivity].
    apply (blocksOfKind_raises "moving_average") in Hr.
    unfold extractStrategyParameters. rewrite Hr. reflexivity. }
  destruct strategy as [field|].
  2:{ destruct Hinit as (? & ? & ? & ? & ? & ?). cbn.
      repeat (split; [assumption|]). split; [|auto].
      split; [intros _; left; reflexivity | reflexivity]. }
  destruct (blocksOfKind "moving_average" field) as [maBlocks|] eqn:Hma.
  2:{ pose proof (proj1 (blocksOfKind_raises _ _) Hma) as Hr.
      rewrite (Hraised _ Hr). destruct Hinit as (? & ? & ? & ? & ? & ?). cbn.
      repeat (split; [assumption|]). split; [|auto]. split; [auto | reflexivity]. }
  assert (Hnot : ~ raises (Some field)).
  { intros Hr. apply (blocksOfKind_raises "moving_average") in Hr. congruence. }
  unfold extractStrategyParameters. rewrite Hma. cbn [maPeriods setPeriods].
  destruct (pushPeriods_keep maBlocks []) as [Hnd Hpos]; [constructor|constructor|].
  set (found := fold_left pushPeriod maBlocks []) in *.
  set (params1 := match found with
                  | [] => setPeriods (setPeriods (mkParams [] 14 30 70 2) found) [10; 20]%Z
                  | _ => setPeriods (mkParams [] 14 30 70 2) found
                  end).
  assert (H1 : usableParams params1 /\ maPeriods params1 <> []).
  { unfold params1. destruct found as [|p0 rest]; (split; [|discriminate]).
    - unfold usableParams. cbn. split.
      + apply NoDup_cons. split; [|apply NoDup_singleton].
        intros H. apply list_elem_of_singleton in H. discriminate.
      + split; [repeat constructor|]. split; [lia|]. repeat split; lra.
    - unfold usableParams. cbn. split; [exact Hnd|]. split; [exact Hpos|].
      split; [lia|]. repeat split; lra. }
  destruct H1 as [H1 Hne].
  pose proof (usable_extractRsi field params1 H1) as Hrsi.
  assert (Hgoal : forall params, usableParams params /\ maPeriods params = maPeriods params1 ->
            NoDup (maPeriods params) /\
            Forall (fun p => (0 < p)%Z) (maPeriods params) /\
            (0 < rsiPeriod params)%Z /\
            rsiOversold params <= 30 /\
            70 <= rsiOverbought params /\
            0 < bollingerBandWidth params /\
            (maPeriods params = [] <-> raises (Some field)) /\
            (raises (Some field) -> params = mkParams [] 14 30 70 2)).
  { intros params [(? & ? & ? & ? & ? & ?) Hsame].
    repeat (split; [assumption|]). split; [|intros Hr; contradiction].
    split; [|intros Hr; contradiction]. intros Hnil. rewrite Hsame in Hnil. contradiction. }
  destruct (extractRsi field params1) as [params2|params2]; [exact (Hgoal _ Hrsi)|].
  destruct Hrsi as [H2 Hsame2].
  destruct (usable_extractBollinger field params2 H2) as [H3 Hsame3].
  apply Hgoal. split; [exact H3|]. rewrite Hsame3. exact Hsame2.
Qed.

End Parameters.

(** ** The data provider *)

Section Provider.

Variable Math_sqrt : Q -> Q.

Lemma usable_nonempty (r : sourceResult) (data : list MarketData) :
  usable r = Some data -> data <> [].
Proof. destruct r as [|[|d rest]]; simpl; intros H; inversion H; discriminate. Qed.

Lemma fetchHistoricalData_some (tokenAddress isCrypto apiKey : bool)
    (byAddress cryptoCompare alphaVantage yahoo : sourceResult) (data : list MarketData) :
  fetchHistoricalData tokenAddress isCrypto apiKey byAddress cryptoCompare alphaVantage yahoo
    = Some data ->
  data <> [].
Proof.
  unfold fetchHistoricalData. intros H.
  destruct (if tokenAddress then usable byAddress else None) eqn:H1.
  { inversion H; subst. destruct tokenAddress; [by eapply usable_nonempty|discriminate]. }
  destruct (if isCrypto then usable cryptoCompare else None) eqn:H2.
  { inversion H; subst. destruct isCrypto; [by eapply usable_nonempty|discriminate]. }
  destruct (if apiKey && negb isCrypto then usable alphaVantage else None) eqn:H3.
  { inversion H; subst.
    destruct (apiKey && negb isCrypto); [by eapply usable_nonempty|discriminate]. }
  by eapply usable_nonempty.
Qed.

(** X25.  [fetchHistoricalData]: a series that the provider returns has at
    least one bar, whichever source it came from. *)
Theorem fetchHistoricalData_nonempty (tokenAddress isCrypto apiKey : bool)
    (byAddress cryptoCompare alphaVantage yahoo : sourceResult) (data : list MarketData) :
  fetchHistoricalData tokenAddress isCrypto apiKey byAddress cryptoCompare alphaVantage yahoo
    = Some data ->
  data <> [].
Proof. apply fetchHistoricalData_some. Qed.

(** X26.  [runBacktest] after [fetchHistoricalData]: fed by the provider,
    the backtest never reports that no market data is available. *)
Theorem runBacktest_fetched (frames : nat) (s : strategy) (options : BacktestOptions)
    (tokenAddress isCrypto apiKey : bool)
    (byAddress cryptoCompare alphaVantage yahoo : sourceResult) :
  runBacktest Math_sqrt frames s options
    (fetchHistoricalData tokenAddress isCrypto apiKey byAddress cryptoCompare alphaVantage
       yahoo)
    <> inl NoMarketData.
Proof.
  destruct (fetchHistoricalData tokenAddress isCrypto apiKey byAddress cryptoCompare
              alphaVantage yahoo) as [data|] eqn:Hf; [|discriminate].
  apply fetchHistoricalData_some in Hf. destruct data as [|d rest]; [done|].
  unfold runBacktest. destruct (simulate _ _ _ _ _); discriminate.
Qed.

End Provider.

Lemma fetchHistoricalData_nonempty_witness :
  fetchHistoricalData false false true SourceFailed SourceFailed (SourceData [])
    (SourceData fourBars) = Some fourBars /\
  fourBars <> [].
Proof.
  split; [reflexivity|].
  apply (fetchHistoricalData_nonempty false false true SourceFailed SourceFailed (SourceData [])
           (SourceData fourBars)).
  reflexivity.
Defined.

(** ** Hourly bars gathered into days *)

Section Aggregation.

Variable timeOf : string -> Z.

Lemma Math_max_l (x y : Q) : x <= Math_max x y.
Proof. unfold Math_max. destruct (Qlt_le_dec x y); lra. Qed.

Lemma Math_max_r (x y : Q) : y <= Math_max x y.
Proof. unfold Math_max. destruct (Qlt_le_dec x y); lra. Qed.

Lemma Math_min_l (x y : Q) : Math_min x y <= x.
Proof. unfold Math_min. destruct (Qlt_le_dec y x); lra. Qed.

Lemma Math_min_r (x y : Q) : Math_min x y <= y.
Proof. unfold Math_min. destruct (Qlt_le_dec y x); lra. Qed.

Lemma insertByTime_perm (x : MarketData) (l : list MarketData) :
  insertByTime timeOf x l ≡ₚ x :: l.
Proof.
  induction l as [|y l IH]; cbn [insertByTime]; [done|].
  destruct (timeOf (date x) <? timeOf (date y))%Z; [done|].
  rewrite IH. apply perm_swap.
Qed.

Lemma insertAll_perm (l acc : list MarketData) :
  fold_left (fun sorted x => insertByTime timeOf x sorted) l acc ≡ₚ acc ++ l.
Proof.
  revert acc. induction l as [|x l IH]; intros acc; cbn [fold_left].
  - by rewrite app_nil_r.
  - rewrite IH, insertByTime_perm. cbn [app]. apply Permutation_middle.
Qed.

Lemma sortByTime_perm (l : list MarketData) : sortByTime timeOf l ≡ₚ l.
Proof. unfold sortByTime. by rewrite insertAll_perm. Qed.

Lemma insertByTime_sorted (x : MarketData) (l : list MarketData) :
  inTimeOrder timeOf l -> inTimeOrder timeOf (insertByTime timeOf x l).
Proof.
  unfold inTimeOrder. induction 1 as [|y l Hl IH Hy]; cbn [insertByTime].
  - repeat constructor.
  - destruct (timeOf (date x) <? timeOf (date y))%Z eqn:Hlt.
    + apply Z.ltb_lt in Hlt. constructor; [by constructor|].
      constructor; [lia|]. eapply Forall_impl; [exact Hy|]. cbn. intros z Hz. lia.
    + apply Z.ltb_ge in Hlt. constructor; [exact IH|].
      rewrite insertByTime_perm. by constructor.
Qed.

Lemma insertAll_sorted (l acc : list MarketData) :
  inTimeOrder timeOf acc ->
  inTimeOrder timeOf (fold_left (fun sorted x => insertByTime timeOf x sorted) l acc).
Proof.
  revert acc. induction l as [|x l IH]; intros acc Hacc; cbn [fold_left]; [done|].
  by apply IH, insertByTime_sorted.
Qed.

Lemma dailyMap_add_keys (m : list (string * dayAcc)) (p : MarketData) (k : string) :
  k ∈ map fst (dailyMap_add m p) <-> k ∈ map fst m \/ k = date p.
Proof.
  induction m as [|[k0 e0] rest IH]; cbn [dailyMap_add map fst].
  - rewrite list_elem_of_singleton. split; [by right|]. intros [H|H]; [|done].
    by apply elem_of_nil in H.
  - destruct (String.eqb k0 (date p)) eqn:Hk; cbn [map fst].
    + apply String.eqb_eq in Hk. subst k0. rewrite elem_of_cons.
      intuition auto.
    + rewrite !elem_of_cons, IH. tauto.
Qed.

Lemma dailyMap_add_NoDup (m : list (string * dayAcc)) (p : MarketData) :
  NoDup (map fst m) -> NoDup (map fst (dailyMap_add m p)).
Proof.
  induction m as [|[k0 e0] rest IH]; cbn [dailyMap_add map fst]; intros Hnd.
  - apply NoDup_singleton.
  - apply NoDup_cons in Hnd. destruct Hnd as [Hk0 Hrest].
    destruct (String.eqb k0 (date p)) eqn:Hk; cbn [map fst].
    + apply NoDup_cons. by split.
    + apply String.eqb_neq in Hk. apply NoDup_cons. split; [|by apply IH].
      rewrite dailyMap_add_keys. intros [H|H]; [by apply Hk0|by apply Hk].
Qed.

(** Where an entry of the map comes from after one more bar. *)
Lemma dailyMap_add_entry (m : list (string * dayAcc)) (p : MarketData)
    (entry : string * dayAcc) :
  NoDup (map fst m) ->
  entry ∈ dailyMap_add m p ->
  (entry ∈ m /\ entry.1 <> date p) \/
  (exists existing, (date p, existing) ∈ m /\
     entry = (date p, mkDay (day_open existing)
                        (Math_max (day_high existing) (high p))
                        (Math_min (day_low existing) (low p))
                        (close p)
                        (day_volume existing + volume p)
                        (S (day_count existing)))) \/
  ((date p ∉ map fst m) /\
   entry = (date p, mkDay (open p) (high p) (low p) (close p) (volume p) 1)).
Proof.
  induction m as [|[k0 e0] rest IH]; cbn [dailyMap_add map fst]; intros Hnd Hin.
  - apply list_elem_of_singleton in Hin. right. right. split; [apply not_elem_of_nil|done].
  - apply NoDup_cons in Hnd. destruct Hnd as [Hk0 Hrest].
    destruct (String.eqb k0 (date p)) eqn:Hk.
    + apply String.eqb_eq in Hk. subst k0. apply elem_of_cons in Hin.
      destruct Hin as [->|Hin].
      * right. left. exists e0. split; [apply elem_of_cons; by left|done].
      * left. split; [apply elem_of_cons; by right|].
        intros He. apply Hk0. rewrite <- He. apply list_elem_of_fmap. by exists entry.
    + apply String.eqb_neq in Hk. apply elem_of_cons in Hin. destruct Hin as [->|Hin].
      * left. split; [apply elem_of_cons; by left|]. exact Hk.
      * destruct (IH Hrest Hin) as [[H1 H2]|[(existing & H1 & H2)|[H1 H2]]].
        -- left. split; [apply elem_of_cons; by right|exact H2].
        -- right. left. exists existing. split; [apply elem_of_cons; by right|exact H2].
        -- right. right. split; [|exact H2]. rewrite elem_of_cons.
           intros [H|H]; [by apply Hk|by apply H1].
Qed.

Lemma grouped_add (bars : list MarketData) (m : list (string * dayAcc)) (p : MarketData) :
  grouped bars m -> grouped (bars ++ [p]) (dailyMap_add m p).
Proof.
  intros (Hnd & Hkeys & Hspan). split; [by apply dailyMap_add_NoDup|].
  split.
  - intros k. rewrite dailyMap_add_keys, map_app, elem_of_app, Hkeys. cbn [map].
    by rewrite list_elem_of_singleton.
  - intros entry q Hin Hq Hdate. apply elem_of_app in Hq.
    destruct (dailyMap_add_entry m p entry Hnd Hin)
      as [[H1 H2]|[(existing & H1 & ->)|[H1 ->]]].
    + destruct Hq as [Hq|Hq]; [by apply Hspan|].
      apply list_elem_of_singleton in Hq. subst q. done.
    + cbn [fst snd day_high day_low] in *. destruct Hq as [Hq|Hq].
      * destruct (Hspan _ _ H1 Hq Hdate) as [Hh Hl]. cbn [snd] in Hh, Hl.
        pose proof (Math_max_l (day_high existing) (high p)).
        pose proof (Math_min_l (day_low existing) (low p)). split; lra.
      * apply list_elem_of_singleton in Hq. subst q.
        split; [apply Math_max_r|apply Math_min_r].
    + cbn [fst snd day_high day_low] in *. destruct Hq as [Hq|Hq].
      * exfalso. apply H1, Hkeys. rewrite <- Hdate. apply list_elem_of_fmap. by exists q.
      * apply list_elem_of_singleton in Hq. subst q. split; lra.
Qed.

Lemma grouped_all (bars : list MarketData) : grouped bars (fold_left dailyMap_add bars []).
Proof.
  induction bars as [|p bars IH] using rev_ind.
  - split; [constructor|]. split; [done|].
    intros entry p H. by apply elem_of_nil in H.
  - rewrite fold_left_app. cbn [fold_left]. by apply grouped_add.
Qed.

Lemma aggregate_perm (hourlyData : list MarketData) :
  aggregateHourlyToDaily timeOf hourlyData ≡ₚ map dayOf (fold_left dailyMap_add hourlyData []).
Proof. apply sortByTime_perm. Qed.

(** X28.  [aggregateHourlyToDaily]: the result has exactly one bar for each
    date of the input. *)
Theorem aggregate_dates (hourlyData : list MarketData) :
  NoDup (map date (aggregateHourlyToDaily timeOf hourlyData)) /\
  (forall d, d ∈ map date (aggregateHourlyToDaily timeOf hourlyData)
             <-> d ∈ map date hourlyData).
Proof.
  destruct (grouped_all hourlyData) as (Hnd & Hkeys & _).
  assert (Hp : map date (aggregateHourlyToDaily timeOf hourlyData)
               ≡ₚ map fst (fold_left dailyMap_add hourlyData [])).
  { rewrite (fmap_Permutation date _ _ (aggregate_perm hourlyData)), map_map.
    reflexivity. }
  split.
  - by rewrite Hp.
  - intros d. by rewrite Hp.
Qed.

(** X29.  [aggregateHourlyToDaily]: the result is in the order of its
    dates, whatever the order of the input. *)
Theorem aggregate_sorted (hourlyData : list MarketData) :
  inTimeOrder timeOf (aggregateHourlyToDaily timeOf hourlyData).
Proof. apply insertAll_sorted. constructor. Qed.

(** X30.  [aggregateHourlyToDaily]: a day's high and low span every hourly
    bar of that date. *)
Theorem aggregate_spans (hourlyData : list MarketData) (day p : MarketData) :
  day ∈ aggregateHourlyToDaily timeOf hourlyData ->
  p ∈ hourlyData ->
  date p = date day ->
  high p <= high day /\ low day <= low p.
Proof.
  intros Hday Hp Hdate. rewrite aggregate_perm in Hday.
  apply list_elem_of_fmap in Hday. destruct Hday as (entry & -> & Hentry).
  destruct (grouped_all hourlyData) as (_ & _ & Hspan).
  exact (Hspan entry p Hentry Hp Hdate).
Qed.

End Aggregation.

Lemma aggregate_spans_witness :
  let day := mkMarketData "2024-01-02" 10 15 9 14 300 in
  let p := mkMarketData "2024-01-02" 11 15 10 14 200 in
  aggregateHourlyToDaily januaryDay hourlyBars
    = [mkMarketData "2024-01-01" 5 6 4 5 50; day] /\
  high p <= high day /\ low day <= low p.
Proof.
split; [reflexivity|].
apply (aggregate_spans januaryDay hourlyBars).
- apply elem_of_cons. right. apply elem_of_cons. left. reflexivity.
- solve_elem.
- reflexivity.
Defined.
